(** * API Gateway component of pulumi-constructs: a shallow embedding

    The Go constructor [NewAPIGateway] (resources/api_gateway/api_gateway.go)
    registers a component and a sequence of child resources with the Pulumi
    context.  Each [apigateway.New...] call either yields a handle to the
    freshly registered resource or an error, which the constructor wraps and
    returns at once.  The embedding keeps that shape: a program is a tree of
    registration requests ([Prog]); [exec] runs it against a context whose
    provider may refuse any registration, and [trace] is the run in which
    nothing is refused. *)

From Stdlib Require Import String Ascii ZArith NArith List HexString.
From stdpp Require Import base option list gmap strings fin_maps sorting.

#[local] Set Warnings "-register-all".

Local Open Scope string_scope.
Local Open Scope list_scope.
Local Open Scope Z_scope.
Local Open Scope nat_scope.

(** ** Go values *)

(** A resource is known by its handle: the position at which this program run
    registered it, or the address of an object provisioned elsewhere (the
    [*lambda.Function] pointers the configuration carries). *)
Inductive Handle :=
| Local (n : nat)
| External (addr : N).

#[global] Instance Handle_eq_dec : EqDecision Handle.
Proof. solve_decision. Defined.

(** [*lambda.Function]: only the identity of the pointed-to object is used. *)
Record Function := { fn_addr : N }.

(** [float64]: the component forwards the value untouched, so the binary64
    bit pattern stands for it. *)
Definition float64 := Z.

(** A Pulumi input: a plain value, an output property of a resource, or
    [pulumi.Sprintf] over further inputs. *)
Inductive Output :=
| Known (s : string)
| PropOf (h : Handle) (prop : string)
| Sprintf (fmt : string) (args : list Output).

Inductive ResourceOption :=
| Parent (h : Handle)
| DependsOn (hs : list Handle).

(** ** Configuration structs *)

Record QuotaConfig := {
  Limit : Z;
  Period : string
}.

Record ThrottleConfig := {
  BurstLimit : Z;
  RateLimit : float64
}.

Record UsagePlanConfig := {
  Quota : option QuotaConfig;
  Throttle : option ThrottleConfig
}.

Record CustomDomainConfig := {
  DomainName : string;
  CertificateArn : string;
  Route53ZoneId : string
}.

Module Endpoint.
Record EndpointConfig := {
    Path : string;
    Method : string;
    LambdaFunc : option Function;
    Authorization : string;
    ApiKeyRequired : bool;
    RequestParameters : option (gmap string bool);
    RequestModels : option (gmap string string)
  }.
End Endpoint.
Export Endpoint (EndpointConfig).

Record APIGatewayConfig := {
  Name : string;
  Description : string;
  StageName : string;
  EnableCORS : bool;
  AuthorizerFunc : option Function;
  ApiKeyRequired : bool;
  UsagePlanLimit : option UsagePlanConfig;
  CustomDomain : option CustomDomainConfig;
  Endpoints : list EndpointConfig;
  Tags : gmap string string;
  Environment : string
}.

(** The component's exported fields. *)
Module Component.
Record APIGateway := {
    RestAPI : Handle;
    Deployment : Handle;
    Stage : Handle;
    APIKey : option Handle;
    UsagePlan : option Handle;
    CustomDomain : option Handle;
    BaseURL : Output;
    CustomDomainURL : option Output
  }.
End Component.
Export Component (APIGateway).

(** ** Resource declarations *)

(** One constructor per SDK constructor the component calls, with the
    arguments it passes. *)
Inductive Args :=
| ComponentArgs (token : string)
| RestApiArgs (name description : string) (types : list string)
    (tags : gmap string string)
| AuthorizerArgs (restApi : Output) (name type : string)
    (authorizerUri : Output) (identitySource : string) (ttl : Z)
| ResourceArgs (restApi parentId : Output) (pathPart : string)
| MethodArgs (restApi resourceId : Output) (httpMethod authorization : string)
    (apiKeyRequired : bool) (authorizerId : option Output)
    (requestParameters : option (gmap string bool))
| IntegrationArgs (restApi resourceId httpMethod : Output)
    (integrationType : string) (integrationHttpMethod : option string)
    (uri : option Output) (requestTemplates : gmap string string)
| PermissionArgs (action : string) (function : Output) (principal : string)
    (sourceArn : Output)
| DeploymentArgs (restApi : Output) (triggers : gmap string string)
| StageArgs (restApi deployment : Output) (stageName : string)
    (tags : gmap string string)
| ApiKeyArgs (name : string) (tags : gmap string string)
| UsagePlanArgs (name : string) (apiStages : list (Output * Output))
    (quota : Z * string) (throttle : Z * float64) (tags : gmap string string)
| UsagePlanKeyArgs (keyId : Output) (keyType : string) (usagePlanId : Output)
| DomainNameArgs (domainName certificateArn securityPolicy : string)
    (tags : gmap string string)
| BasePathMappingArgs (restApi stage domainName : Output).

Record Registration := {
  reg_name : string;
  reg_args : Args;
  reg_opts : list ResourceOption
}.

(** The context: its read-only attributes and the provider's verdict on a
    registration ([None]: accepted, [Some err]: refused with [err]). *)
Record Context := {
  Region : string;
  Account : string;
  provider : Registration → option string
}.

(** ** Programs over the context *)

Inductive result (A : Type) :=
| Ok (a : A)
| Error (err : string)
| Panicked (why : string).
Arguments Ok {A} a.
Arguments Error {A} err.
Arguments Panicked {A} why.

Inductive Prog (A : Type) :=
| Ret (a : A)
| Throw (err : string)
| Panic (why : string)
| RegisterResource (r : Registration) (k : Handle + string → Prog A).
Arguments Ret {A} a.
Arguments Throw {A} err.
Arguments Panic {A} why.
Arguments RegisterResource {A} r k.

Fixpoint bind {A B} (m : Prog A) (f : A → Prog B) : Prog B :=
  match m with
  | Ret a => f a
  | Throw e => Throw e
  | Panic w => Panic w
  | RegisterResource r k => RegisterResource r (λ x, bind (k x) f)
  end.

#[global] Instance Prog_ret : MRet Prog := @Ret.
#[global] Instance Prog_bind : MBind Prog := λ A B f m, bind m f.

(** [res, err := New...(ctx, name, args, opts); if err != nil { return nil,
    fmt.Errorf(what + ": %w", err) }] *)
Definition create (r : Registration) (what : string) : Prog Handle :=
  RegisterResource r (λ x,
    match x with
    | inl h => Ret h
    | inr err => Throw (what +:+ ": " +:+ err)
    end).

#[global] Arguments Prog_bind : simpl never.
#[global] Arguments create : simpl never.

(** Running a program: the log holds the registrations accepted so far, and a
    new resource's handle is its position in the log. *)
Fixpoint exec {A} (ctx : Context) (p : Prog A) (log : list Registration)
  : result A * list Registration :=
  match p with
  | Ret a => (Ok a, log)
  | Throw e => (Error e, log)
  | Panic w => (Panicked w, log)
  | RegisterResource r k =>
      match provider ctx r with
      | None => exec ctx (k (inl (Local (length log)))) (log ++ [r])
      | Some err => exec ctx (k (inr err)) log
      end
  end.

(** The run in which the provider accepts everything, started with [base]
    resources already registered. *)
Fixpoint trace {A} (p : Prog A) (base : nat) : result A * list Registration :=
  match p with
  | Ret a => (Ok a, [])
  | Throw e => (Error e, [])
  | Panic w => (Panicked w, [])
  | RegisterResource r k =>
      let '(res, l) := trace (k (inl (Local base))) (S base) in (res, r :: l)
  end.

(** A program is fail-fast when a refused registration makes it return the
    provider's error at once, wrapped in a message of its own, and it returns
    an error for no other reason. *)
Inductive FailFast {A} : Prog A → Prop :=
| FF_Ret a : FailFast (Ret a)
| FF_Panic w : FailFast (Panic w)
| FF_Register r k :
    (∃ what, ∀ err, k (inr err) = Throw (what +:+ ": " +:+ err)) →
    (∀ h, FailFast (k (inl h))) →
    FailFast (RegisterResource r k).

(** ** Tag merging *)

(** [for k, v := range overrides { tags[k] = v }], for one iteration order of
    the map. *)
Definition rangeInsert (order : list (string * string))
    (tags : gmap string string) : gmap string string :=
  foldl (λ acc kv, <[kv.1 := kv.2]> acc) tags order.

Definition mergeInto (defaults overrides : gmap string string)
  : gmap string string :=
  rangeInsert (map_to_list overrides) defaults.

Definition defaultTags (config : APIGatewayConfig) : gmap string string :=
  <["Environment" := Environment config]> (<["ManagedBy" := "Pulumi"]> ∅).

Definition mergedTags (config : APIGatewayConfig) : gmap string string :=
  mergeInto (defaultTags config) (Tags config).

(** ** [fmt.Sprintf("%v", config.Endpoints)] *)

Definition fmtBool (b : bool) : string := if b then "true" else "false".

(** A pointer nested in a struct prints as its address. *)
Definition fmtPtr (f : option Function) : string :=
  match f with
  | None => "<nil>"
  | Some f => HexString.of_N (fn_addr f)
  end.

Definition keyLe {V} (a b : string * V) : Prop := String.leb a.1 b.1 = true.

#[global] Instance keyLe_dec {V} (a b : string * V) : Decision (keyLe a b).
Proof. unfold keyLe. solve_decision. Defined.

Fixpoint joinWith (sep : string) (l : list string) : string :=
  match l with
  | [] => ""
  | [x] => x
  | x :: xs => x +:+ sep +:+ joinWith sep xs
  end.

(** Maps print as [map[k:v k:v]] with keys in sorted order; a nil map prints
    as [map[]]. *)
Definition fmtMap {V} (fmtV : V → string) (m : option (gmap string V))
  : string :=
  "map[" +:+
  joinWith " "
    ((λ kv : string * V, kv.1 +:+ ":" +:+ fmtV kv.2) <$>
       merge_sort keyLe (map_to_list (default ∅ m)))
  +:+ "]".

Definition fmtEndpoint (e : EndpointConfig) : string :=
  "{" +:+ Endpoint.Path e +:+ " " +:+ Endpoint.Method e +:+ " " +:+
  fmtPtr (Endpoint.LambdaFunc e) +:+ " " +:+ Endpoint.Authorization e +:+ " "
  +:+ fmtBool (Endpoint.ApiKeyRequired e) +:+ " " +:+
  fmtMap fmtBool (Endpoint.RequestParameters e) +:+ " " +:+
  fmtMap id (Endpoint.RequestModels e) +:+ "}".

Definition fmtEndpoints (es : list EndpointConfig) : string :=
  "[" +:+ joinWith " " (fmtEndpoint <$> es) +:+ "]".

(** ** The constructor *)

Definition dquote : string := String (ascii_of_nat 34) "".

(** The preflight integration's request template, [{"statusCode": 200}]. *)
Definition mockTemplate : string :=
  "{" +:+ dquote +:+ "statusCode" +:+ dquote +:+ ": 200}".

(** Helper function to split path into parts: the source returns the path
    itself as the only part. *)
Definition splitPath (path : string) : list string := [path].

Section Constructor.
Variable ctx : Context.
Variable name : string.
Variable config : APIGatewayConfig.
Variable comp : Handle.

(** [parentOpts := pulumi.ResourceOptions{Parent: comp}] *)
Definition parentOpts : list ResourceOption := [Parent comp].

(** *** The declarations, one per [New...] call site *)

Definition restApiReg : Registration :=
  {| reg_name := name;
     reg_args := RestApiArgs (Name config) (Description config) ["EDGE"]
                   (mergedTags config);
     reg_opts := parentOpts |}.

Variable restAPI : Handle.

Definition authorizerReg (authorizerFunc : Function) : Registration :=
  {| reg_name := name +:+ "-authorizer";
     reg_args := AuthorizerArgs (PropOf restAPI "id")
                   (name +:+ "-authorizer") "TOKEN"
                   (PropOf (External (fn_addr authorizerFunc)) "invokeArn")
                   "method.request.header.Authorization" 300;
     reg_opts := parentOpts |}.

Definition resourceReg (resource : Output) (pathPart : string)
  : Registration :=
  {| reg_name := name +:+ "-" +:+ pathPart;
     reg_args := ResourceArgs (PropOf restAPI "id") resource pathPart;
     reg_opts := parentOpts |}.

(** [name+"-"+endpoint.Method+"-"+path] *)
Definition stem (endpoint : EndpointConfig) : string :=
  name +:+ "-" +:+ Endpoint.Method endpoint +:+ "-" +:+
  Endpoint.Path endpoint.

Definition methodReg (authorizer : option Handle) (endpoint : EndpointConfig)
    (resource : Output) : Registration :=
  {| reg_name := stem endpoint;
     reg_args :=
       MethodArgs (PropOf restAPI "id") resource
         (Endpoint.Method endpoint) (Endpoint.Authorization endpoint)
         (Endpoint.ApiKeyRequired endpoint)
         (match authorizer with
          | Some a =>
              if decide (Endpoint.Authorization endpoint = "CUSTOM")
              then Some (PropOf a "id") else None
          | None => None
          end)
         (Endpoint.RequestParameters endpoint);
     reg_opts := parentOpts |}.

Definition integrationReg (endpoint : EndpointConfig) (resource : Output)
    (method : Handle) (lambdaFunc : Function) : Registration :=
  {| reg_name := stem endpoint +:+ "-integration";
     reg_args :=
       IntegrationArgs (PropOf restAPI "id") resource
         (PropOf method "httpMethod") "AWS_PROXY" (Some "POST")
         (Some (PropOf (External (fn_addr lambdaFunc)) "invokeArn")) ∅;
     reg_opts := parentOpts |}.

Definition permissionReg (endpoint : EndpointConfig) (lambdaFunc : Function)
  : Registration :=
  {| reg_name := stem endpoint +:+ "-permission";
     reg_args :=
       PermissionArgs "lambda:InvokeFunction"
         (PropOf (External (fn_addr lambdaFunc)) "name")
         "apigateway.amazonaws.com"
         (Sprintf "arn:aws:execute-api:%s:%s:%s/*/%s%s"
            [Known (Region ctx); Known (Account ctx); PropOf restAPI "id";
             Known (Endpoint.Method endpoint);
             Known (Endpoint.Path endpoint)]);
     reg_opts := parentOpts |}.

Definition optionsMethodReg (endpoint : EndpointConfig) (resource : Output)
  : Registration :=
  {| reg_name := stem endpoint +:+ "-options";
     reg_args := MethodArgs (PropOf restAPI "id") resource "OPTIONS" "NONE"
                   false None None;
     reg_opts := parentOpts |}.

Definition optionsIntegrationReg (endpoint : EndpointConfig)
    (resource : Output) : Registration :=
  {| reg_name := stem endpoint +:+ "-options-integration";
     reg_args := IntegrationArgs (PropOf restAPI "id") resource
                   (Known "OPTIONS") "MOCK" None None
                   {[ "application/json" := mockTemplate ]};
     reg_opts := parentOpts |}.

Definition deploymentReg : Registration :=
  {| reg_name := name +:+ "-deployment";
     reg_args := DeploymentArgs (PropOf restAPI "id")
                   {[ "redeployment" := fmtEndpoints (Endpoints config) ]};
     reg_opts := parentOpts |}.

Definition stageReg (deployment : Handle) : Registration :=
  {| reg_name := name +:+ "-stage";
     reg_args := StageArgs (PropOf restAPI "id") (PropOf deployment "id")
                   (StageName config) (mergedTags config);
     reg_opts := parentOpts |}.

Definition apiKeyReg : Registration :=
  {| reg_name := name +:+ "-key";
     reg_args := ApiKeyArgs (name +:+ "-key") (mergedTags config);
     reg_opts := parentOpts |}.

Definition usagePlanReg (stage : Handle) (quota : QuotaConfig)
    (throttle : ThrottleConfig) : Registration :=
  {| reg_name := name +:+ "-usage-plan";
     reg_args :=
       UsagePlanArgs (name +:+ "-usage-plan")
         [(PropOf restAPI "id", PropOf stage "stageName")]
         (Limit quota, Period quota)
         (BurstLimit throttle, RateLimit throttle)
         (mergedTags config);
     reg_opts := parentOpts |}.

Definition usagePlanKeyReg (apiKey usagePlan : Handle) : Registration :=
  {| reg_name := name +:+ "-usage-plan-key";
     reg_args := UsagePlanKeyArgs (PropOf apiKey "id") "API_KEY"
                   (PropOf usagePlan "id");
     reg_opts := parentOpts |}.

Definition domainNameReg (domain : CustomDomainConfig) : Registration :=
  {| reg_name := name +:+ "-domain";
     reg_args := DomainNameArgs (DomainName domain) (CertificateArn domain)
                   "TLS_1_2" (mergedTags config);
     reg_opts := parentOpts |}.

Definition basePathMappingReg (stage customDomain : Handle) : Registration :=
  {| reg_name := name +:+ "-domain-mapping";
     reg_args := BasePathMappingArgs (PropOf restAPI "id")
                   (PropOf stage "stageName")
                   (PropOf customDomain "domainName");
     reg_opts := parentOpts |}.

(** *** The endpoint loop *)

(** [for _, pathPart := range splitPath(path)]: create or get the resource
    of every part, threading [parentPath], [resource] and the [resources]
    map. *)
Fixpoint walkPath (parts : list string) (parentPath : string)
    (resource : Output) (resources : gmap string Handle)
  : Prog (Output * gmap string Handle) :=
  match parts with
  | [] => mret (resource, resources)
  | pathPart :: rest =>
      if decide (pathPart = "") then
        walkPath rest parentPath resource resources
      else
        let fullPath := parentPath +:+ pathPart in
        match resources !! fullPath with
        | Some existing =>
            walkPath rest (fullPath +:+ "/") (PropOf existing "id") resources
        | None =>
            newResource ←
              create (resourceReg resource pathPart)
                ("failed to create resource for path " +:+ fullPath);
            walkPath rest (fullPath +:+ "/") (PropOf newResource "id")
              (<[fullPath := newResource]> resources)
        end
  end.

Variable authorizer : option Handle.

(** The body of the loop over [config.Endpoints]. *)
Definition wireEndpoint (endpoint : EndpointConfig)
    (resources : gmap string Handle) : Prog (gmap string Handle) :=
  '(resource, resources) ←
    walkPath (splitPath (Endpoint.Path endpoint)) "/"
      (PropOf restAPI "rootResourceId") resources;
  method ←
    create (methodReg authorizer endpoint resource) "failed to create method";
  match Endpoint.LambdaFunc endpoint with
  | None => Panic "invalid memory address or nil pointer dereference"
  | Some lambdaFunc =>
      _ ← create (integrationReg endpoint resource method lambdaFunc)
            "failed to create integration";
      _ ← create (permissionReg endpoint lambdaFunc)
            "failed to create lambda permission";
      if EnableCORS config then
        _ ← create (optionsMethodReg endpoint resource)
              "failed to create OPTIONS method";
        _ ← create (optionsIntegrationReg endpoint resource)
              "failed to create OPTIONS integration";
        mret resources
      else mret resources
  end.

Fixpoint wireEndpoints (endpoints : list EndpointConfig)
    (resources : gmap string Handle) : Prog (gmap string Handle) :=
  match endpoints with
  | [] => mret resources
  | endpoint :: rest =>
      resources ← wireEndpoint endpoint resources;
      wireEndpoints rest resources
  end.

(** *** Optional features *)

(** Create API key and usage plan if required. *)
Definition keyAndPlan (stage : Handle)
  : Prog (option Handle * option Handle) :=
  match ApiKeyRequired config, UsagePlanLimit config with
  | true, Some limit =>
      apiKey ← create apiKeyReg "failed to create API key";
      match Quota limit, Throttle limit with
      | Some quota, Some throttle =>
          usagePlan ← create (usagePlanReg stage quota throttle)
                        "failed to create usage plan";
          _ ← create (usagePlanKeyReg apiKey usagePlan)
                "failed to create usage plan key";
          mret (Some apiKey, Some usagePlan)
      | _, _ => Panic "invalid memory address or nil pointer dereference"
      end
  | _, _ => mret (None, None)
  end.

(** Create custom domain if configured. *)
Definition customDomain (stage : Handle) : Prog (option Handle) :=
  match CustomDomain config with
  | Some domain =>
      customDomain ← create (domainNameReg domain)
                       "failed to create custom domain";
      _ ← create (basePathMappingReg stage customDomain)
            "failed to create base path mapping";
      mret (Some customDomain)
  | None => mret None
  end.
End Constructor.

(** Everything after the component is registered. *)
Definition compose (ctx : Context) (name : string) (config : APIGatewayConfig)
    (comp : Handle) : Prog APIGateway :=
  restAPI ← create (restApiReg name config comp) "failed to create REST API";
  authorizer ←
    match AuthorizerFunc config with
    | Some authorizerFunc =>
        a ← create (authorizerReg name comp restAPI authorizerFunc)
              "failed to create authorizer";
        mret (Some a)
    | None => mret None
    end;
  _ ← wireEndpoints ctx name config comp restAPI authorizer
        (Endpoints config) ∅;
  deployment ← create (deploymentReg name config comp restAPI)
                 "failed to create deployment";
  stage ← create (stageReg name config comp restAPI deployment)
            "failed to create stage";
  '(apiKey, usagePlan) ← keyAndPlan name config comp restAPI stage;
  domain ← customDomain name config comp restAPI stage;
  mret {| Component.RestAPI := restAPI;
          Component.Deployment := deployment;
          Component.Stage := stage;
          Component.APIKey := apiKey;
          Component.UsagePlan := usagePlan;
          Component.CustomDomain := domain;
          Component.BaseURL :=
            Sprintf "https://%s.execute-api.%s.amazonaws.com/%s"
              [PropOf restAPI "id"; Known (Region ctx);
               PropOf stage "stageName"];
          Component.CustomDomainURL :=
            (λ d, Sprintf "https://%s" [PropOf d "domainName"]) <$> domain |}.

Definition componentReg (name : string) (opts : list ResourceOption)
  : Registration :=
  {| reg_name := name;
     reg_args := ComponentArgs "custom:aws:APIGateway";
     reg_opts := opts |}.

(** NewAPIGateway creates a new API Gateway component.  A nil [config] cannot
    get past the first field access, which follows the registration of the
    component. *)
Definition NewAPIGateway (ctx : Context) (name : string)
    (config : option APIGatewayConfig) (opts : list ResourceOption)
  : Prog APIGateway :=
  comp ← create (componentReg name opts) "failed to register component";
  match config with
  | None => Panic "invalid memory address or nil pointer dereference"
  | Some config => compose ctx name config comp
  end.

(** ** What a run declares *)

Definition regs {A} (p : Prog A) (base : nat) : list Registration :=
  (trace p base).2.

Definition outcome {A} (p : Prog A) (base : nat) : result A :=
  (trace p base).1.

(** The tag map a declaration carries, if its resource type is tagged. *)
Definition reg_tags (r : Registration) : option (gmap string string) :=
  match reg_args r with
  | RestApiArgs _ _ _ tags
  | StageArgs _ _ _ tags
  | ApiKeyArgs _ tags
  | UsagePlanArgs _ _ _ _ tags
  | DomainNameArgs _ _ _ tags => Some tags
  | _ => None
  end.

Inductive Kind :=
| KComponent | KRestApi | KAuthorizer | KResource | KMethod | KIntegration
| KPermission | KDeployment | KStage | KApiKey | KUsagePlan | KUsagePlanKey
| KDomainName | KBasePathMapping.

#[global] Instance Kind_eq_dec : EqDecision Kind.
Proof. solve_decision. Defined.

Definition kind (r : Registration) : Kind :=
  match reg_args r with
  | ComponentArgs _ => KComponent
  | RestApiArgs _ _ _ _ => KRestApi
  | AuthorizerArgs _ _ _ _ _ _ => KAuthorizer
  | ResourceArgs _ _ _ => KResource
  | MethodArgs _ _ _ _ _ _ _ => KMethod
  | IntegrationArgs _ _ _ _ _ _ _ => KIntegration
  | PermissionArgs _ _ _ _ => KPermission
  | DeploymentArgs _ _ => KDeployment
  | StageArgs _ _ _ _ => KStage
  | ApiKeyArgs _ _ => KApiKey
  | UsagePlanArgs _ _ _ _ _ => KUsagePlan
  | UsagePlanKeyArgs _ _ _ => KUsagePlanKey
  | DomainNameArgs _ _ _ _ => KDomainName
  | BasePathMappingArgs _ _ _ => KBasePathMapping
  end.

(** *** Dependency edges

    A declaration depends on the resources whose outputs flow into its
    arguments, on its parent and on what [DependsOn] lists. *)

Fixpoint out_deps (o : Output) : list Handle :=
  match o with
  | Known _ => []
  | PropOf h _ => [h]
  | Sprintf _ args => flat_map out_deps args
  end.

Definition args_outputs (a : Args) : list Output :=
  match a with
  | ComponentArgs _ => []
  | RestApiArgs _ _ _ _ => []
  | AuthorizerArgs restApi _ _ uri _ _ => [restApi; uri]
  | ResourceArgs restApi parentId _ => [restApi; parentId]
  | MethodArgs restApi resourceId _ _ _ authorizerId _ =>
      restApi :: resourceId :: option_list authorizerId
  | IntegrationArgs restApi resourceId httpMethod _ _ uri _ =>
      restApi :: resourceId :: httpMethod :: option_list uri
  | PermissionArgs _ function _ sourceArn => [function; sourceArn]
  | DeploymentArgs restApi _ => [restApi]
  | StageArgs restApi deployment _ _ => [restApi; deployment]
  | ApiKeyArgs _ _ => []
  | UsagePlanArgs _ apiStages _ _ _ =>
      flat_map (λ s : Output * Output, [s.1; s.2]) apiStages
  | UsagePlanKeyArgs keyId _ usagePlanId => [keyId; usagePlanId]
  | DomainNameArgs _ _ _ _ => []
  | BasePathMappingArgs restApi stage domainName =>
      [restApi; stage; domainName]
  end.

Definition opt_deps (o : ResourceOption) : list Handle :=
  match o with
  | Parent h => [h]
  | DependsOn hs => hs
  end.

Definition reg_deps (r : Registration) : list Handle :=
  flat_map out_deps (args_outputs (reg_args r)) ++
  flat_map opt_deps (reg_opts r).

(** [a] depends directly on [b] in the graph the log describes. *)
Definition edge (log : list Registration) (a b : Handle) : Prop :=
  ∃ n r, a = Local n ∧ log !! n = Some r ∧ b ∈ reg_deps r.

(** Directly or transitively. *)
Definition depends (log : list Registration) : relation Handle :=
  tc (edge log).

(** *** Configurations without nil pointers on the paths the constructor
    dereferences *)

Definition nilFree (config : APIGatewayConfig) : Prop :=
  Forall (λ e, is_Some (Endpoint.LambdaFunc e)) (Endpoints config) ∧
  (ApiKeyRequired config = true →
   ∀ limit, UsagePlanLimit config = Some limit →
            is_Some (Quota limit) ∧ is_Some (Throttle limit)).

(** *** The declarations of one pass through the endpoint loop

    The resources created for the path, then the method, its integration and
    the permission, then the preflight pair when CORS is on; [leaf] is the
    resource the path resolved to. *)
Definition EndpointBlock (ctx : Context) (name : string)
    (config : APIGatewayConfig) (comp restAPI : Handle)
    (authorizer : option Handle) (endpoint : EndpointConfig)
    (block : list Registration) (leaf : Output) : Prop :=
  ∃ created method lambdaFunc,
    Endpoint.LambdaFunc endpoint = Some lambdaFunc ∧
    Forall (λ r, kind r = KResource) created ∧
    block =
      created ++
      [methodReg name comp restAPI authorizer endpoint leaf;
       integrationReg name comp restAPI endpoint leaf method lambdaFunc;
       permissionReg ctx name comp restAPI endpoint lambdaFunc] ++
      (if EnableCORS config
       then [optionsMethodReg name comp restAPI endpoint leaf;
             optionsIntegrationReg name comp restAPI endpoint leaf]
       else []).

(** The resource ids the method declarations of a log attach to, in order. *)
Definition methodLeaves (log : list Registration) : list Output :=
  omap (λ r, match reg_args r with
             | MethodArgs _ resourceId _ _ _ _ _ => Some resourceId
             | _ => None
             end) log.

(** The resource declarations of a log: parent id and path part, in order. *)
Definition resourceNodes (log : list Registration) : list (Output * string) :=
  omap (λ r, match reg_args r with
             | ResourceArgs _ parentId pathPart => Some (parentId, pathPart)
             | _ => None
             end) log.

(** *** The layout of a run's declarations

    What the constructor declares, phase by phase, when nothing is refused:
    the component, the REST API, the authorizer if one is configured, the
    endpoint blocks, the deployment, the stage, the key and usage plan if
    required, the custom domain if configured.  The lemmas below relate these
    to the constructor. *)

Definition authorizerRegs (name : string) (config : APIGatewayConfig)
    (comp restAPI : Handle) : list Registration :=
  match AuthorizerFunc config with
  | Some authorizerFunc => [authorizerReg name comp restAPI authorizerFunc]
  | None => []
  end.

Definition authorizerAt (config : APIGatewayConfig) (n : nat)
  : option Handle :=
  match AuthorizerFunc config with
  | Some _ => Some (Local n)
  | None => None
  end.

(** [config.ApiKeyRequired && config.UsagePlanLimit != nil] *)
Definition keyed (config : APIGatewayConfig) : bool :=
  ApiKeyRequired config && bool_decide (is_Some (UsagePlanLimit config)).

Definition keyRegs (name : string) (config : APIGatewayConfig)
    (comp restAPI stage : Handle) (n : nat) : list Registration :=
  match ApiKeyRequired config, UsagePlanLimit config with
  | true, Some limit =>
      apiKeyReg name config comp ::
      match Quota limit, Throttle limit with
      | Some quota, Some throttle =>
          [usagePlanReg name config comp restAPI stage quota throttle;
           usagePlanKeyReg name comp (Local n) (Local (S n))]
      | _, _ => []
      end
  | _, _ => []
  end.

Definition domainRegs (name : string) (config : APIGatewayConfig)
    (comp restAPI stage : Handle) (n : nat) : list Registration :=
  match CustomDomain config with
  | Some domain =>
      [domainNameReg name config comp domain;
       basePathMappingReg name comp restAPI stage (Local n)]
  | None => []
  end.

(** The position of the deployment, given the endpoint blocks. *)
Definition deploymentAt (config : APIGatewayConfig) (base : nat)
    (blocks : list (list Registration)) : nat :=
  S (S base) + length (option_list (AuthorizerFunc config)) +
  length (concat blocks).

Definition layout (name : string) (config : APIGatewayConfig)
    (opts : list ResourceOption) (base : nat)
    (blocks : list (list Registration)) : list Registration :=
  let comp := Local base in
  let restAPI := Local (S base) in
  let d := deploymentAt config base blocks in
  let keys := keyRegs name config comp restAPI (Local (S d)) (S (S d)) in
  componentReg name opts :: restApiReg name config comp ::
  authorizerRegs name config comp restAPI ++ concat blocks ++
  deploymentReg name config comp restAPI ::
  stageReg name config comp restAPI (Local d) ::
  keys ++
  domainRegs name config comp restAPI (Local (S d)) (S (S d) + length keys).

(** The declarations up to the deployment, and those after the stage. *)
Definition wiring (name : string) (config : APIGatewayConfig)
    (opts : list ResourceOption) (base : nat)
    (blocks : list (list Registration)) : list Registration :=
  componentReg name opts :: restApiReg name config (Local base) ::
  authorizerRegs name config (Local base) (Local (S base)) ++ concat blocks.

Definition features (name : string) (config : APIGatewayConfig) (base : nat)
    (blocks : list (list Registration)) : list Registration :=
  let comp := Local base in
  let restAPI := Local (S base) in
  let d := deploymentAt config base blocks in
  let keys := keyRegs name config comp restAPI (Local (S d)) (S (S d)) in
  keys ++
  domainRegs name config comp restAPI (Local (S d)) (S (S d) + length keys).

(** The kinds the endpoint loop declares. *)
Definition wiringKinds : list Kind :=
  [KResource; KMethod; KIntegration; KPermission].

(** A declaration that carries tags carries the merged tags. *)
Definition tagged (config : APIGatewayConfig) (r : Registration) : Prop :=
  ∀ t, reg_tags r = Some t → t = mergedTags config.

(** ** The example of the README

    Two endpoints on [/users] behind one API, with usage-plan limits and a
    custom domain. *)

Definition getUsersFunction : Function := {| fn_addr := 0xc000010000 |}.
Definition createUserFunction : Function := {| fn_addr := 0xc000010400 |}.

Definition getUsers : EndpointConfig :=
  {| Endpoint.Path := "/users";
     Endpoint.Method := "GET";
     Endpoint.LambdaFunc := Some getUsersFunction;
     Endpoint.Authorization := "NONE";
     Endpoint.ApiKeyRequired := false;
     Endpoint.RequestParameters := None;
     Endpoint.RequestModels := None |}.

Definition createUser : EndpointConfig :=
  {| Endpoint.Path := "/users";
     Endpoint.Method := "POST";
     Endpoint.LambdaFunc := Some createUserFunction;
     Endpoint.Authorization := "NONE";
     Endpoint.ApiKeyRequired := true;
     Endpoint.RequestParameters :=
       Some {[ "method.request.header.Content-Type" := true ]};
     Endpoint.RequestModels := None |}.

Definition usersApiWith (apiKeyRequired : bool)
    (endpoints : list EndpointConfig) : APIGatewayConfig :=
  {| Name := "Users API";
     Description := "API for managing users";
     StageName := "prod";
     EnableCORS := true;
     AuthorizerFunc := None;
     ApiKeyRequired := apiKeyRequired;
     UsagePlanLimit :=
       Some {| Quota := Some {| Limit := 1000%Z; Period := "DAY" |};
               Throttle :=
                 Some {| BurstLimit := 10%Z;
                         RateLimit := 0x4014000000000000%Z (* 5.0 *) |} |};
     CustomDomain :=
       Some {| DomainName := "api.example.com";
               CertificateArn :=
                 "arn:aws:acm:us-east-1:123456789012:certificate/abc123";
               Route53ZoneId := "" |};
     Endpoints := endpoints;
     Tags := {[ "Team" := "Platform"; "Department" := "Engineering" ]};
     Environment := "production" |}.

Definition usersApi : APIGatewayConfig :=
  usersApiWith false [getUsers; createUser].

(** A context whose provider accepts every registration. *)
Definition acceptAll : Context :=
  {| Region := "us-east-1";
     Account := "123456789012";
     provider := λ _, None |}.

(** An endpoint of the example on another path. *)
Definition onPath (path : string) : EndpointConfig :=
  {| Endpoint.Path := path;
     Endpoint.Method := "GET";
     Endpoint.LambdaFunc := Some getUsersFunction;
     Endpoint.Authorization := "NONE";
     Endpoint.ApiKeyRequired := false;
     Endpoint.RequestParameters := None;
     Endpoint.RequestModels := None |}.

(** The declarations a run adds to the log. *)
Definition declared (ctx : Context) (name : string)
    (config : APIGatewayConfig) (opts : list ResourceOption)
    (log : list Registration) : list Registration :=
  drop (length log)
    (exec ctx (NewAPIGateway ctx name (Some config) opts) log).2.

(** The kinds of the key, the plan and their binding. *)
Definition keyKinds : list Kind := [KApiKey; KUsagePlan; KUsagePlanKey].

(** The example with the API key required. *)
Definition usersApiKeyed : APIGatewayConfig :=
  usersApiWith true [getUsers; createUser].

(** Mock integrations, the second half of a preflight pair. *)
Definition isMock (r : Registration) : bool :=
  match reg_args r with
  | IntegrationArgs _ _ _ integrationType _ _ _ =>
      bool_decide (integrationType = "MOCK")
  | _ => false
  end.

(** *** The graph before the composition

    A log is closed when its declarations depend on resources of that log
    only (or on external ones); options are old for a log when they name
    resources of that log only. *)

Definition old (base : nat) (h : Handle) : Prop :=
  match h with
  | Local m => m < base
  | External _ => True
  end.

Definition closed (log : list Registration) : Prop :=
  ∀ n r, log !! n = Some r → Forall (old (length log)) (reg_deps r).

Definition oldOpts (log : list Registration) (opts : list ResourceOption)
  : Prop :=
  Forall (old (length log)) (flat_map opt_deps opts).

(** What the deployment of a composition started at [base] can reach: the
    REST API, the component, and what was there before. *)
Definition upstream (base : nat) (h : Handle) : Prop :=
  h = Local (S base) ∨ h = Local base ∨ old base h.

(** A configuration with every shape error at once: the same (path, method)
    pair twice, a path that is no path, and the API key required without a
    usage plan. *)
Definition misshapen : APIGatewayConfig :=
  {| Name := "Users API";
     Description := "";
     StageName := "prod";
     EnableCORS := false;
     AuthorizerFunc := None;
     ApiKeyRequired := true;
     UsagePlanLimit := None;
     CustomDomain := None;
     Endpoints := [getUsers; getUsers; onPath "not a path"];
     Tags := ∅;
     Environment := "dev" |}.

(** The (path, method) pairs of a configuration. *)
Definition pathMethods (config : APIGatewayConfig) : list (string * string) :=
  (λ e, (Endpoint.Path e, Endpoint.Method e)) <$> Endpoints config.

(** A context whose provider refuses deployments. *)
Definition refuseDeployments : Context :=
  {| Region := "us-east-1";
     Account := "123456789012";
     provider := λ r, if decide (kind r = KDeployment)
                      then Some "access denied" else None |}.

(** ** The deployment trigger *)

(** The [redeployment] trigger a deployment declaration carries. *)
Definition fingerprint (r : Registration) : option string :=
  match reg_args r with
  | DeploymentArgs _ triggers => triggers !! "redeployment"
  | _ => None
  end.

(** An endpoint with one field changed. *)
Definition withPath (path : string) (e : EndpointConfig) : EndpointConfig :=
  {| Endpoint.Path := path;
     Endpoint.Method := Endpoint.Method e;
     Endpoint.LambdaFunc := Endpoint.LambdaFunc e;
     Endpoint.Authorization := Endpoint.Authorization e;
     Endpoint.ApiKeyRequired := Endpoint.ApiKeyRequired e;
     Endpoint.RequestParameters := Endpoint.RequestParameters e;
     Endpoint.RequestModels := Endpoint.RequestModels e |}.

Definition withMethod (method : string) (e : EndpointConfig)
  : EndpointConfig :=
  {| Endpoint.Path := Endpoint.Path e;
     Endpoint.Method := method;
     Endpoint.LambdaFunc := Endpoint.LambdaFunc e;
     Endpoint.Authorization := Endpoint.Authorization e;
     Endpoint.ApiKeyRequired := Endpoint.ApiKeyRequired e;
     Endpoint.RequestParameters := Endpoint.RequestParameters e;
     Endpoint.RequestModels := Endpoint.RequestModels e |}.

Definition withAuthorization (authorization : string) (e : EndpointConfig)
  : EndpointConfig :=
  {| Endpoint.Path := Endpoint.Path e;
     Endpoint.Method := Endpoint.Method e;
     Endpoint.LambdaFunc := Endpoint.LambdaFunc e;
     Endpoint.Authorization := authorization;
     Endpoint.ApiKeyRequired := Endpoint.ApiKeyRequired e;
     Endpoint.RequestParameters := Endpoint.RequestParameters e;
     Endpoint.RequestModels := Endpoint.RequestModels e |}.

(** What precedes and what follows an element in [joinWith]. *)
Definition joinedBefore (sep : string) (l : list string) : string :=
  foldr (λ y acc, y +:+ sep +:+ acc) "" l.

Definition joinedAfter (sep : string) (l : list string) : string :=
  foldr (λ y acc, sep +:+ y +:+ acc) "" l.

(** Two endpoints that differ in path and method and print alike. *)
Definition filesReports : EndpointConfig := onPath "/files reports".
Definition reportsOfFiles : EndpointConfig :=
  withMethod "reports GET" (onPath "/files").

(** The trigger of the example with other endpoints. *)
Definition triggerOf (endpoints : list EndpointConfig) : option string :=
  fingerprint
    (deploymentReg "users-api" (usersApiWith false endpoints) (Local 0)
       (Local 1)).

(** A bare API with one [GET] endpoint per path, and what composing it
    declares. *)
Definition pathsApi (paths : list string) : APIGatewayConfig :=
  {| Name := "Paths API";
     Description := "";
     StageName := "dev";
     EnableCORS := false;
     AuthorizerFunc := None;
     ApiKeyRequired := false;
     UsagePlanLimit := None;
     CustomDomain := None;
     Endpoints := onPath <$> paths;
     Tags := ∅;
     Environment := "dev" |}.

Definition pathsLog (paths : list string) : list Registration :=
  declared acceptAll "api" (pathsApi paths) [] [].

(** ** Reading the path tree

    What a walk over [parts] ends at when every resource on the way is in
    the memo already: the walk of [walkPath] with the lookups only. *)
Fixpoint resolve (resources : gmap string Handle) (parts : list string)
    (parentPath : string) (resource : Output) : option Output :=
  match parts with
  | [] => Some resource
  | pathPart :: rest =>
      if decide (pathPart = "") then
        resolve resources rest parentPath resource
      else
        match resources !! (parentPath +:+ pathPart) with
        | Some existing =>
            resolve resources rest ((parentPath +:+ pathPart) +:+ "/")
              (PropOf existing "id")
        | None => None
        end
  end.

(** The leaf of an endpoint path in a memo. *)
Definition leafIn (resources : gmap string Handle) (restAPI : Handle)
    (path : string) : option Output :=
  resolve resources (splitPath path) "/" (PropOf restAPI "rootResourceId").

(** The parts of a path that are not skipped. *)
Definition segments (parts : list string) : list string :=
  filter (λ pathPart, pathPart ≠ "") parts.

(** ** What a completed composition exports

    The component's fields, by position in the layout. *)
Definition exported (ctx : Context) (config : APIGatewayConfig) (base : nat)
    (blocks : list (list Registration)) : APIGateway :=
  let restAPI := Local (S base) in
  let d := deploymentAt config base blocks in
  let domain :=
    match CustomDomain config with
    | Some _ => Some (Local (S (S d) + (if keyed config then 3 else 0)))
    | None => None
    end in
  {| Component.RestAPI := restAPI;
     Component.Deployment := Local d;
     Component.Stage := Local (S d);
     Component.APIKey := if keyed config then Some (Local (S (S d))) else None;
     Component.UsagePlan :=
       if keyed config then Some (Local (S (S (S d)))) else None;
     Component.CustomDomain := domain;
     Component.BaseURL :=
       Sprintf "https://%s.execute-api.%s.amazonaws.com/%s"
         [PropOf restAPI "id"; Known (Region ctx);
          PropOf (Local (S d)) "stageName"];
     Component.CustomDomainURL :=
       (λ h, Sprintf "https://%s" [PropOf h "domainName"]) <$> domain |}.

(** The example walked by hand: three parts, one of them empty. *)
Definition usersById : Prog (Output * gmap string Handle) :=
  walkPath "api" (Local 0) (Local 1) ["users"; ""; "{id}"] "/"
    (PropOf (Local 1) "rootResourceId") ∅.

(** A configuration with another Route 53 zone in its custom domain. *)
Definition withZone (zone : string) (config : APIGatewayConfig)
  : APIGatewayConfig :=
  {| Name := Name config;
     Description := Description config;
     StageName := StageName config;
     EnableCORS := EnableCORS config;
     AuthorizerFunc := AuthorizerFunc config;
     ApiKeyRequired := ApiKeyRequired config;
     UsagePlanLimit := UsagePlanLimit config;
     CustomDomain :=
       (λ domain, {| DomainName := DomainName domain;
                     CertificateArn := CertificateArn domain;
                     Route53ZoneId := zone |}) <$> CustomDomain config;
     Endpoints := Endpoints config;
     Tags := Tags config;
     Environment := Environment config |}.

(** The example behind a Lambda authorizer, one endpoint asking for it. *)
Definition authorizerFunction : Function := {| fn_addr := 0xc000010800 |}.

Definition guardedApi : APIGatewayConfig :=
  {| Name := "Users API";
     Description := "API for managing users";
     StageName := "prod";
     EnableCORS := false;
     AuthorizerFunc := Some authorizerFunction;
     ApiKeyRequired := false;
     UsagePlanLimit := None;
     CustomDomain := None;
     Endpoints := [getUsers; withAuthorization "CUSTOM" createUser];
     Tags := ∅;
     Environment := "production" |}.

(** The example with a handler missing. *)
Definition unhandled : APIGatewayConfig :=
  usersApiWith false
    [getUsers;
     {| Endpoint.Path := "/orders";
        Endpoint.Method := "GET";
        Endpoint.LambdaFunc := None;
        Endpoint.Authorization := "NONE";
        Endpoint.ApiKeyRequired := false;
        Endpoint.RequestParameters := None;
        Endpoint.RequestModels := None |}].

(** ** Refusals and their messages *)

(** A program wraps its refusals as [P] says when the error it returns for a
    refused registration [r] is the provider's error behind a message [what]
    with [P r what], and it returns an error for no other reason. *)
Inductive Wraps {A} (P : Registration → string → Prop) : Prog A → Prop :=
| W_Ret a : Wraps P (Ret a)
| W_Panic w : Wraps P (Panic w)
| W_Register r k what :
    P r what →
    (∀ err, k (inr err) = Throw (what +:+ ": " +:+ err)) →
    (∀ h, Wraps P (k (inl h))) →
    Wraps P (RegisterResource r k).

(** The name of the step that declares [r] in a composition of [config]
    called [name]: the message of the [fmt.Errorf] that follows the call
    site. *)
Definition failedStep (name : string) (config : APIGatewayConfig)
    (r : Registration) (what : string) : Prop :=
  match reg_args r with
  | ComponentArgs _ => what = "failed to register component"
  | RestApiArgs _ _ _ _ => what = "failed to create REST API"
  | AuthorizerArgs _ _ _ _ _ _ => what = "failed to create authorizer"
  | ResourceArgs _ _ pathPart =>
      what = "failed to create resource for path /" +:+ pathPart
  | MethodArgs _ _ _ _ _ _ _ =>
      ∃ endpoint,
        endpoint ∈ Endpoints config ∧
        let declared :=
          name +:+ "-" +:+ Endpoint.Method endpoint +:+ "-" +:+
          Endpoint.Path endpoint in
        (reg_name r = declared ∧ what = "failed to create method" ∨
         reg_name r = declared +:+ "-options" ∧
         what = "failed to create OPTIONS method")
  | IntegrationArgs _ _ _ integrationType _ _ _ =>
      if decide (integrationType = "MOCK")
      then what = "failed to create OPTIONS integration"
      else what = "failed to create integration"
  | PermissionArgs _ _ _ _ => what = "failed to create lambda permission"
  | DeploymentArgs _ _ => what = "failed to create deployment"
  | StageArgs _ _ _ _ => what = "failed to create stage"
  | ApiKeyArgs _ _ => what = "failed to create API key"
  | UsagePlanArgs _ _ _ _ _ => what = "failed to create usage plan"
  | UsagePlanKeyArgs _ _ _ => what = "failed to create usage plan key"
  | DomainNameArgs _ _ _ _ => what = "failed to create custom domain"
  | BasePathMappingArgs _ _ _ => what = "failed to create base path mapping"
  end.
(** The example with the key required and an empty usage-plan
    configuration, [&UsagePlanConfig{}]. *)
Definition halfPlanned : APIGatewayConfig :=
  {| Name := "Users API";
     Description := "API for managing users";
     StageName := "prod";
     EnableCORS := true;
     AuthorizerFunc := None;
     ApiKeyRequired := true;
     UsagePlanLimit := Some {| Quota := None; Throttle := None |};
     CustomDomain := None;
     Endpoints := [getUsers; createUser];
     Tags := {[ "Team" := "Platform"; "Department" := "Engineering" ]};
     Environment := "production" |}.

(** A context whose provider refuses usage plans. *)
Definition refusePlans : Context :=
  {| Region := "us-east-1";
     Account := "123456789012";
     provider := λ r, if decide (kind r = KUsagePlan)
                      then Some "limit exceeded" else None |}.

(** * The other components

    The bucket, the distribution and the function are built by straight-line
    constructors: register the component, merge the tags, fill in defaults
    and declare the resources one after the other, returning at the first
    refusal.  They are embedded in a state and error monad over the struct
    the [config] pointer points to (which the constructors that set defaults
    write to) and the log of accepted declarations. *)

Module Build.
Record Declaration (Args : Type) := {
  decl_name : string;
  decl_args : Args;
  decl_opts : list ResourceOption
}.
Arguments decl_name {Args} _.
Arguments decl_args {Args} _.
Arguments decl_opts {Args} _.

(** A constructor run: the provider's verdicts, what [config] points to and
    the log go in; the result, what [config] points to then and the log come
    out. *)
Definition Build (Args S A : Type) : Type :=
  (Declaration Args → option string) → S → list (Declaration Args) →
  result A * (S * list (Declaration Args)).

Definition ret {Args S A} (a : A) : Build Args S A :=
  λ _ s log, (Ok a, (s, log)).

Definition bind {Args S A B} (m : Build Args S A) (f : A → Build Args S B)
  : Build Args S B :=
  λ provider s log,
    match m provider s log with
    | (Ok a, (s', log')) => f a provider s' log'
    | (Error e, st) => (Error e, st)
    | (Panicked w, st) => (Panicked w, st)
    end.

(** [res, err := New...(ctx, name, args, opts); if err != nil { return nil,
    fmt.Errorf(what + ": %w", err) }] *)
Definition declare {Args S} (d : Declaration Args) (what : string)
  : Build Args S Handle :=
  λ provider s log,
    match provider d with
    | None => (Ok (Local (length log)), (s, log ++ [d]))
    | Some err => (Error (what +:+ ": " +:+ err), (s, log))
    end.

(** The first read through [config]: a nil pointer panics. *)
Definition deref {Args C} : Build Args (option C) C :=
  λ _ s log,
    match s with
    | Some c => (Ok c, (s, log))
    | None =>
        (Panicked "invalid memory address or nil pointer dereference",
         (s, log))
    end.

(** Writes through [config]. *)
Definition assign {Args C} (c : C) : Build Args (option C) unit :=
  λ _ _ log, (Ok tt, (Some c, log)).

(** Declaring a list of resources in order, each with the message that wraps
    its refusal, up to the first refusal: the error to return, if any, and
    the log. *)
Fixpoint submit {Args} (provider : Declaration Args → option string)
    (steps : list (Declaration Args * string))
    (log : list (Declaration Args))
  : option string * list (Declaration Args) :=
  match steps with
  | [] => (None, log)
  | (d, what) :: steps =>
      match provider d with
      | None => submit provider steps (log ++ [d])
      | Some err => (Some (what +:+ ": " +:+ err), log)
      end
  end.
End Build.

#[global] Instance Build_ret {Args S} : MRet (Build.Build Args S) :=
  λ A, Build.ret.
#[global] Instance Build_bind {Args S} : MBind (Build.Build Args S) :=
  λ A B f m, Build.bind m f.

(** [tags := {Environment: environment, ManagedBy: Pulumi}; for k, v := range
    overrides { tags[k] = v }], as every constructor has it. *)
Definition componentTags (environment : string)
    (overrides : gmap string string) : gmap string string :=
  mergeInto (<["Environment" := environment]> (<["ManagedBy" := "Pulumi"]> ∅))
    overrides.

(** ** The bucket *)

Module S3.
Record BucketConfig := {
  BucketName : string;
  Environment : string;
  Tags : gmap string string
}.

Record SecureBucket := {
  Bucket : Handle;
  BucketArn : Output
}.

Inductive Args :=
| ComponentArgs (token : string)
| BucketArgs (bucket : string) (tags : gmap string string)
    (sseAlgorithm : string) (versioningEnabled : bool)
    (blockPublicAcls blockPublicPolicy ignorePublicAcls
       restrictPublicBuckets : bool).

Definition bucketDecl (name : string) (config : BucketConfig) (comp : Handle)
  : Build.Declaration Args :=
  {| Build.decl_name := name;
     Build.decl_args :=
       BucketArgs (BucketName config)
         (componentTags (Environment config) (Tags config))
         "AES256" true true true true true;
     Build.decl_opts := [Parent comp] |}.

Definition componentDecl (name : string) (opts : list ResourceOption)
  : Build.Declaration Args :=
  {| Build.decl_name := name;
     Build.decl_args := ComponentArgs "custom:aws:SecureBucket";
     Build.decl_opts := opts |}.

(** NewSecureBucket creates a new SecureBucket component. *)
Definition NewSecureBucket (name : string) (opts : list ResourceOption)
  : Build.Build Args (option BucketConfig) SecureBucket :=
  comp ← Build.declare (componentDecl name opts)
           "failed to register component";
  config ← Build.deref;
  bucket ← Build.declare (bucketDecl name config comp)
             "failed to create bucket";
  mret {| Bucket := bucket; BucketArn := PropOf bucket "arn" |}.

(** The configuration of the README's example. *)
Definition myCompanyBucket : BucketConfig :=
  {| BucketName := "my-company-bucket";
     Environment := "dev";
     Tags := {[ "Team" := "Platform" ]} |}.

(** A provider that accepts everything. *)
Definition accepting (d : Build.Declaration Args) : option string := None.

(** A provider in which the bucket's name is taken. *)
Definition nameTaken (d : Build.Declaration Args) : option string :=
  match Build.decl_args d with
  | BucketArgs _ _ _ _ _ _ _ _ => Some "BucketAlreadyExists"
  | ComponentArgs _ => None
  end.
End S3.

(** ** The distribution *)

Module CloudFront.
Record CloudFrontConfig := {
  DomainName : string;
  Aliases : list string;
  CertificateArn : string;
  OriginDomain : string;
  OriginPath : string;
  OriginProtocolPolicy : string;
  DefaultTTL : Z;
  MaxTTL : Z;
  MinTTL : Z;
  PriceClass : string;
  ViewerProtocolPolicy : string;
  WAFWebACLID : string;
  Enabled : bool;
  IPV6Enabled : bool;
  Tags : gmap string string;
  Environment : string
}.

Record CloudFrontDistribution := {
  Distribution : Handle;
  DistributionDomainName : Output;
  DistributionID : Output;
  DistributionArn : Output
}.

(** [OriginId] is a field of the origin that the constructor's literal leaves
    unset. *)
Record OriginArgs := {
  originId : option string;
  originDomainName : string;
  originPath : string;
  originProtocolPolicy : string;
  httpPort : Z;
  httpsPort : Z;
  originSslProtocols : list string
}.

Record CacheBehaviorArgs := {
  targetOriginId : string;
  viewerProtocolPolicy : string;
  allowedMethods : list string;
  cachedMethods : list string;
  queryString : bool;
  cookiesForward : string;
  minTTL : Z;
  defaultTTL : Z;
  maxTTL : Z;
  compress : bool
}.

Record ViewerCertificateArgs := {
  acmCertificateArn : string;
  minimumProtocolVersion : string;
  sslSupportMethod : string
}.

Inductive Args :=
| ComponentArgs (token : string)
| DistributionArgs (enabled isIPV6Enabled : bool) (priceClass : string)
    (aliases : list string) (tags : gmap string string) (webACLId : string)
    (origins : list OriginArgs) (defaultCacheBehavior : CacheBehaviorArgs)
    (geoRestrictionType : string) (viewerCertificate : ViewerCertificateArgs).

(** The five [if config.X == zero { config.X = default }] in a row. *)
Definition withDefaults (config : CloudFrontConfig) : CloudFrontConfig :=
  {| DomainName := DomainName config;
     Aliases := Aliases config;
     CertificateArn := CertificateArn config;
     OriginDomain := OriginDomain config;
     OriginPath := OriginPath config;
     OriginProtocolPolicy :=
       if decide (OriginProtocolPolicy config = "") then "https-only"
       else OriginProtocolPolicy config;
     DefaultTTL :=
       if decide (DefaultTTL config = 0%Z) then 86400%Z
       else DefaultTTL config;
     MaxTTL :=
       if decide (MaxTTL config = 0%Z) then 31536000%Z else MaxTTL config;
     MinTTL := MinTTL config;
     PriceClass :=
       if decide (PriceClass config = "") then "PriceClass_100"
       else PriceClass config;
     ViewerProtocolPolicy :=
       if decide (ViewerProtocolPolicy config = "") then "redirect-to-https"
       else ViewerProtocolPolicy config;
     WAFWebACLID := WAFWebACLID config;
     Enabled := Enabled config;
     IPV6Enabled := IPV6Enabled config;
     Tags := Tags config;
     Environment := Environment config |}.

Definition origin (config : CloudFrontConfig) : OriginArgs :=
  {| originId := None;
     originDomainName := OriginDomain config;
     originPath := OriginPath config;
     originProtocolPolicy := OriginProtocolPolicy config;
     httpPort := 80;
     httpsPort := 443;
     originSslProtocols := ["TLSv1.2"] |}.

Definition defaultCacheBehavior (config : CloudFrontConfig)
  : CacheBehaviorArgs :=
  {| targetOriginId := "primary";
     viewerProtocolPolicy := ViewerProtocolPolicy config;
     allowedMethods := ["GET"; "HEAD"; "OPTIONS"];
     cachedMethods := ["GET"; "HEAD"];
     queryString := true;
     cookiesForward := "none";
     minTTL := MinTTL config;
     defaultTTL := DefaultTTL config;
     maxTTL := MaxTTL config;
     compress := true |}.

Definition distributionDecl (name : string) (config : CloudFrontConfig)
    (tags : gmap string string) (comp : Handle) : Build.Declaration Args :=
  {| Build.decl_name := name;
     Build.decl_args :=
       DistributionArgs (Enabled config) (IPV6Enabled config)
         (PriceClass config) (Aliases config) tags (WAFWebACLID config)
         [origin config] (defaultCacheBehavior config) "none"
         {| acmCertificateArn := CertificateArn config;
            minimumProtocolVersion := "TLSv1.2_2021";
            sslSupportMethod := "sni-only" |};
     Build.decl_opts := [Parent comp] |}.

Definition componentDecl (name : string) (opts : list ResourceOption)
  : Build.Declaration Args :=
  {| Build.decl_name := name;
     Build.decl_args := ComponentArgs "custom:aws:CloudFrontDistribution";
     Build.decl_opts := opts |}.

(** NewCloudFrontDistribution creates a new CloudFront distribution
    component. *)
Definition NewCloudFrontDistribution (name : string)
    (opts : list ResourceOption)
  : Build.Build Args (option CloudFrontConfig) CloudFrontDistribution :=
  comp ← Build.declare (componentDecl name opts)
           "failed to register component";
  config ← Build.deref;
  let tags := componentTags (Environment config) (Tags config) in
  _ ← Build.assign (withDefaults config);
  config ← Build.deref;
  distribution ← Build.declare (distributionDecl name config tags comp)
                   "failed to create distribution";
  mret {| Distribution := distribution;
          DistributionDomainName := PropOf distribution "domainName";
          DistributionID := PropOf distribution "id";
          DistributionArn := PropOf distribution "arn" |}.

(** The configuration of the README's example. *)
Definition myCdn : CloudFrontConfig :=
  {| DomainName := "my-app.example.com";
     Aliases := ["my-app.example.com"];
     CertificateArn := "";
     OriginDomain := "origin.example.com";
     OriginPath := "";
     OriginProtocolPolicy := "";
     DefaultTTL := 0%Z;
     MaxTTL := 0%Z;
     MinTTL := 0%Z;
     PriceClass := "PriceClass_100";
     ViewerProtocolPolicy := "";
     WAFWebACLID := "";
     Enabled := false;
     IPV6Enabled := false;
     Tags := {[ "Team" := "Platform" ]};
     Environment := "production" |}.

(** A provider that accepts everything. *)
Definition accepting (d : Build.Declaration Args) : option string := None.

(** A provider that refuses every distribution. *)
Definition noDistribution (d : Build.Declaration Args) : option string :=
  match Build.decl_args d with
  | DistributionArgs _ _ _ _ _ _ _ _ _ _ => Some "access denied"
  | ComponentArgs _ => None
  end.
End CloudFront.

(** ** The function *)

(** [LambdaConfig] declares a field named [Environment] twice, the variables
    of the function ([map[string]string]) and the deployment environment
    ([string]).  The constructor reads [config.Environment] once as a string
    (a value of the tag map) and once as a map (the argument of
    [pulumi.ToStringMap]); the embedding follows the types and keeps the map
    as [Variables]. *)

Module Alert.
Record AlertConfig := {
  ErrorThreshold : float64;
  ThrottlesThreshold : float64;
  DurationThreshold : float64;
  NotificationARN : string
}.
End Alert.

Module Lambda.
(** [*lambda.FunctionArchive] and [*lambda.FunctionVpcConfigArgs]: the
    constructor tests the pointers against nil and hands them on. *)
Record FunctionArchive := { archive_addr : N }.
Record FunctionVpcConfigArgs := { vpc_addr : N }.

Record LambdaConfig := {
  Runtime : string;
  Handler : string;
  Code : option FunctionArchive;
  Description : string;
  MemorySize : Z;
  Timeout : Z;
  Variables : gmap string string;
  VpcConfig : option FunctionVpcConfigArgs;
  EnableXRay : bool;
  LayerARNs : list string;
  LogRetentionDays : Z;
  AlertConfig : option Alert.AlertConfig;
  Tags : gmap string string;
  Environment : string
}.

(** A string input: a plain string, an output property of a resource, or
    [ApplyT] of a function to one. *)
Inductive StringInput :=
| Literal (s : string)
| Property (h : Handle) (prop : string)
| ApplyT (o : StringInput) (f : string → string).

(** The string an input stands for, once the provider has settled the
    properties of the resources. *)
Fixpoint resolved (settled : Handle → string → string) (i : StringInput)
  : string :=
  match i with
  | Literal s => s
  | Property h prop => settled h prop
  | ApplyT o f => f (resolved settled o)
  end.

Record LambdaFunction := {
  Function : Handle;
  Role : Handle;
  FunctionName : StringInput;
  FunctionArn : StringInput;
  LogGroupName : StringInput;
  Alias : Handle
}.

Inductive Args :=
| ComponentArgs (token : string)
| RoleArgs (assumeRolePolicy : string) (tags : gmap string string)
| RolePolicyAttachmentArgs (role : StringInput) (policyArn : string)
| FunctionArgs (role : StringInput) (runtime handler : string)
    (code : option FunctionArchive) (description : string)
    (memorySize timeout : Z) (variables : gmap string string)
    (vpcConfig : option FunctionVpcConfigArgs) (layers : list string)
    (tracingMode : string) (tags : gmap string string)
| LogGroupArgs (name : StringInput) (retentionInDays : Z)
    (tags : gmap string string)
| MetricAlarmArgs (comparisonOperator : string) (evaluationPeriods : Z)
    (metricName namespace : string) (period : Z) (statistic : string)
    (threshold : float64) (alarmDescription : string)
    (alarmActions : list string) (dimensions : gmap string StringInput)
    (tags : gmap string string)
| AliasArgs (name : string) (functionName : StringInput)
    (functionVersion : string).

(** The three [if config.X == 0 { config.X = default }] in a row. *)
Definition withDefaults (config : LambdaConfig) : LambdaConfig :=
  {| Runtime := Runtime config;
     Handler := Handler config;
     Code := Code config;
     Description := Description config;
     MemorySize :=
       if decide (MemorySize config = 0%Z) then 128%Z
       else MemorySize config;
     Timeout :=
       if decide (Timeout config = 0%Z) then 3%Z else Timeout config;
     Variables := Variables config;
     VpcConfig := VpcConfig config;
     EnableXRay := EnableXRay config;
     LayerARNs := LayerARNs config;
     LogRetentionDays :=
       if decide (LogRetentionDays config = 0%Z) then 14%Z
       else LogRetentionDays config;
     AlertConfig := AlertConfig config;
     Tags := Tags config;
     Environment := Environment config |}.

Definition newline : string := String.String (ascii_of_nat 10) "".

Definition quoted (s : string) : string := dquote +:+ s +:+ dquote.

Definition rolePolicy : string :=
  "{" +:+ newline +:+
  "        " +:+ quoted "Version" +:+ ": " +:+ quoted "2012-10-17" +:+ ","
    +:+ newline +:+
  "        " +:+ quoted "Statement" +:+ ": [{" +:+ newline +:+
  "            " +:+ quoted "Action" +:+ ": " +:+ quoted "sts:AssumeRole"
    +:+ "," +:+ newline +:+
  "            " +:+ quoted "Principal" +:+ ": {" +:+ newline +:+
  "                " +:+ quoted "Service" +:+ ": "
    +:+ quoted "lambda.amazonaws.com" +:+ newline +:+
  "            }," +:+ newline +:+
  "            " +:+ quoted "Effect" +:+ ": " +:+ quoted "Allow" +:+ newline
    +:+
  "        }]" +:+ newline +:+
  "    }".

Section Declarations.
Variable name : string.
Variable config : LambdaConfig.
Variable tags : gmap string string.
Variable comp : Handle.

(** A resource declared with [&parentOpts]. *)
Definition child (resourceName : string) (args : Args)
  : Build.Declaration Args :=
  {| Build.decl_name := resourceName;
     Build.decl_args := args;
     Build.decl_opts := [Parent comp] |}.

Definition roleDecl : Build.Declaration Args :=
  child (name +:+ "-role") (RoleArgs rolePolicy tags).

Definition basicDecl (role : Handle) : Build.Declaration Args :=
  child (name +:+ "-basic")
    (RolePolicyAttachmentArgs (Property role "name")
       "arn:aws:iam::aws:policy/service-role/AWSLambdaBasicExecutionRole").

Definition xrayDecl (role : Handle) : Build.Declaration Args :=
  child (name +:+ "-xray")
    (RolePolicyAttachmentArgs (Property role "name")
       "arn:aws:iam::aws:policy/AWSXRayDaemonWriteAccess").

Definition vpcDecl (role : Handle) : Build.Declaration Args :=
  child (name +:+ "-vpc")
    (RolePolicyAttachmentArgs (Property role "name")
       "arn:aws:iam::aws:policy/service-role/AWSLambdaVPCAccessExecutionRole").

Definition functionDecl (role : Handle) : Build.Declaration Args :=
  child name
    (FunctionArgs (Property role "arn") (Runtime config) (Handler config)
       (Code config) (Description config) (MemorySize config)
       (Timeout config) (Variables config) (VpcConfig config)
       (LayerARNs config) "Active" tags).

Definition logGroupDecl (function : Handle) : Build.Declaration Args :=
  child (name +:+ "-logs")
    (LogGroupArgs
       (ApplyT (Property function "name") (λ name, "/aws/lambda/" +:+ name))
       (LogRetentionDays config) tags).

Definition errorAlarmDecl (alert : Alert.AlertConfig) (function : Handle)
  : Build.Declaration Args :=
  child (name +:+ "-errors")
    (MetricAlarmArgs "GreaterThanThreshold" 1 "Errors" "AWS/Lambda" 300 "Sum"
       (Alert.ErrorThreshold alert)
       ("Lambda function " +:+ name +:+ " error count")
       [Alert.NotificationARN alert]
       {[ "FunctionName" := Property function "name" ]} tags).

Definition durationAlarmDecl (alert : Alert.AlertConfig) (function : Handle)
  : Build.Declaration Args :=
  child (name +:+ "-duration")
    (MetricAlarmArgs "GreaterThanThreshold" 1 "Duration" "AWS/Lambda" 300
       "Average" (Alert.DurationThreshold alert)
       ("Lambda function " +:+ name +:+ " duration")
       [Alert.NotificationARN alert]
       {[ "FunctionName" := Property function "name" ]} tags).

Definition aliasDecl (function : Handle) : Build.Declaration Args :=
  child (name +:+ "-prod") (AliasArgs "prod" (Property function "name") "$LATEST").
End Declarations.

Definition componentDecl (name : string) (opts : list ResourceOption)
  : Build.Declaration Args :=
  {| Build.decl_name := name;
     Build.decl_args := ComponentArgs "custom:aws:LambdaFunction";
     Build.decl_opts := opts |}.

(** NewLambdaFunction creates a new Lambda function component. *)
Definition NewLambdaFunction (name : string) (opts : list ResourceOption)
  : Build.Build Args (option LambdaConfig) LambdaFunction :=
  comp ← Build.declare (componentDecl name opts)
           "failed to register component";
  config ← Build.deref;
  let tags := componentTags (Environment config) (Tags config) in
  _ ← Build.assign (withDefaults config);
  config ← Build.deref;
  role ← Build.declare (roleDecl name tags comp) "failed to create role";
  _ ← Build.declare (basicDecl name comp role)
        "failed to attach basic policy";
  _ ← (if EnableXRay config then
         _ ← Build.declare (xrayDecl name comp role)
               "failed to attach x-ray policy";
         mret tt
       else mret tt);
  _ ← (match VpcConfig config with
       | Some _ =>
           _ ← Build.declare (vpcDecl name comp role)
                 "failed to attach vpc policy";
           mret tt
       | None => mret tt
       end);
  function ← Build.declare (functionDecl name config tags comp role)
               "failed to create function";
  logGroup ← Build.declare (logGroupDecl name config tags comp function)
               "failed to create log group";
  _ ← (match AlertConfig config with
       | Some alert =>
           _ ← Build.declare (errorAlarmDecl name tags comp alert function)
                 "failed to create error alarm";
           _ ← Build.declare
                 (durationAlarmDecl name tags comp alert function)
                 "failed to create duration alarm";
           mret tt
       | None => mret tt
       end);
  alias ← Build.declare (aliasDecl name comp function)
            "failed to create alias";
  mret {| Function := function;
          Role := role;
          FunctionName := Property function "name";
          FunctionArn := Property function "arn";
          LogGroupName := Property logGroup "name";
          Alias := alias |}.

(** The children of the component in the order of the constructor's text,
    each with the message that wraps its refusal.  [config] has its defaults
    filled in, and [base] is the position of the component in the log. *)
Definition attachments (name : string) (config : LambdaConfig)
    (comp role : Handle) : list (Build.Declaration Args * string) :=
  [(basicDecl name comp role, "failed to attach basic policy")] ++
  (if EnableXRay config then
     [(xrayDecl name comp role, "failed to attach x-ray policy")]
   else []) ++
  (match VpcConfig config with
   | Some _ => [(vpcDecl name comp role, "failed to attach vpc policy")]
   | None => []
   end).

Definition alarms (name : string) (config : LambdaConfig)
    (tags : gmap string string) (comp function : Handle)
  : list (Build.Declaration Args * string) :=
  match AlertConfig config with
  | Some alert =>
      [(errorAlarmDecl name tags comp alert function,
        "failed to create error alarm");
       (durationAlarmDecl name tags comp alert function,
        "failed to create duration alarm")]
  | None => []
  end.

Definition functionAt (config : LambdaConfig) (base : nat) : nat :=
  length (attachments "" config (Local base) (Local (S base))) + S (S base).

Definition aliasAt (config : LambdaConfig) (base : nat) : nat :=
  length (alarms "" config ∅ (Local base) (Local base)) +
  S (S (functionAt config base)).

Definition children (name : string) (config : LambdaConfig)
    (tags : gmap string string) (base : nat)
  : list (Build.Declaration Args * string) :=
  let comp := Local base in
  let role := Local (S base) in
  let function := Local (functionAt config base) in
  [(roleDecl name tags comp, "failed to create role")] ++
  attachments name config comp role ++
  [(functionDecl name config tags comp role, "failed to create function");
   (logGroupDecl name config tags comp function,
    "failed to create log group")] ++
  alarms name config tags comp function ++
  [(aliasDecl name comp function, "failed to create alias")].

(** What the constructor returns when every child is accepted. *)
Definition built (config : LambdaConfig) (base : nat) : LambdaFunction :=
  let function := Local (functionAt config base) in
  {| Function := function;
     Role := Local (S base);
     FunctionName := Property function "name";
     FunctionArn := Property function "arn";
     LogGroupName := Property (Local (S (functionAt config base))) "name";
     Alias := Local (aliasAt config base) |}.

(** The same configuration with another throttles threshold. *)
Definition withThrottles (threshold : float64) (config : LambdaConfig)
  : LambdaConfig :=
  {| Runtime := Runtime config;
     Handler := Handler config;
     Code := Code config;
     Description := Description config;
     MemorySize := MemorySize config;
     Timeout := Timeout config;
     Variables := Variables config;
     VpcConfig := VpcConfig config;
     EnableXRay := EnableXRay config;
     LayerARNs := LayerARNs config;
     LogRetentionDays := LogRetentionDays config;
     AlertConfig :=
       match AlertConfig config with
       | Some alert =>
           Some {| Alert.ErrorThreshold := Alert.ErrorThreshold alert;
                   Alert.ThrottlesThreshold := threshold;
                   Alert.DurationThreshold := Alert.DurationThreshold alert;
                   Alert.NotificationARN := Alert.NotificationARN alert |}
       | None => None
       end;
     Tags := Tags config;
     Environment := Environment config |}.

(** The configuration of the README's example; the thresholds 1 and 1000
    as binary64. *)
Definition myFunction : LambdaConfig :=
  {| Runtime := "nodejs18.x";
     Handler := "index.handler";
     Code := Some {| archive_addr := 0xc000020000 |};
     Description := "My awesome Lambda function";
     MemorySize := 256%Z;
     Timeout := 30%Z;
     Variables := {[ "STAGE" := "production" ]};
     VpcConfig := None;
     EnableXRay := true;
     LayerARNs := [];
     LogRetentionDays := 0%Z;
     AlertConfig :=
       Some {| Alert.ErrorThreshold := 0x3FF0000000000000%Z;
               Alert.ThrottlesThreshold := 0%Z;
               Alert.DurationThreshold := 0x408F400000000000%Z;
               Alert.NotificationARN :=
                 "arn:aws:sns:us-east-1:123456789012:alerts" |};
     Tags := {[ "Team" := "Platform" ]};
     Environment := "production" |}.

(** The same function without X-Ray. *)
Definition untraced : LambdaConfig :=
  {| Runtime := Runtime myFunction;
     Handler := Handler myFunction;
     Code := Code myFunction;
     Description := Description myFunction;
     MemorySize := MemorySize myFunction;
     Timeout := Timeout myFunction;
     Variables := Variables myFunction;
     VpcConfig := VpcConfig myFunction;
     EnableXRay := false;
     LayerARNs := LayerARNs myFunction;
     LogRetentionDays := LogRetentionDays myFunction;
     AlertConfig := AlertConfig myFunction;
     Tags := Tags myFunction;
     Environment := Environment myFunction |}.

(** A provider that accepts everything. *)
Definition accepting (d : Build.Declaration Args) : option string := None.

(** A provider that has no room for another alias. *)
Definition noAlias (d : Build.Declaration Args) : option string :=
  match Build.decl_args d with
  | AliasArgs _ _ _ => Some "alias limit exceeded"
  | _ => None
  end.
End Lambda.

(** * Properties *)

(** ** The interpreters *)

Section Interpreters.
Context {A B : Type}.

Lemma trace_bind (m : Prog A) (f : A → Prog B) base :
  trace (m ≫= f) base =
    match trace m base with
    | (Ok a, l) =>
        let '(r, l') := trace (f a) (base + length l) in (r, l ++ l')
    | (Error e, l) => (Error e, l)
    | (Panicked w, l) => (Panicked w, l)
    end.
Proof.
  unfold mbind, Prog_bind. revert base.
  induction m as [a|e|w|r k IH]; intros base; simpl.
  - rewrite Nat.add_0_r. by destruct (trace (f a) base).
  - done.
  - done.
  - rewrite IH. destruct (trace (k (inl (Local base))) (S base)) as [[a|e|w] l];
      simpl; try done.
    rewrite Nat.add_succ_r. by destruct (trace (f a) (S (base + length l))).
Qed.

Lemma regs_bind (m : Prog A) (f : A → Prog B) base :
  regs (m ≫= f) base =
    regs m base ++
    match outcome m base with
    | Ok a => regs (f a) (base + length (regs m base))
    | _ => []
    end.
Proof.
  unfold regs, outcome. rewrite trace_bind.
  destruct (trace m base) as [[a|e|w] l]; simpl; rewrite ?app_nil_r; try done.
  by destruct (trace (f a) (base + length l)).
Qed.

Lemma outcome_bind (m : Prog A) (f : A → Prog B) base :
  outcome (m ≫= f) base =
    match outcome m base with
    | Ok a => outcome (f a) (base + length (regs m base))
    | Error e => Error e
    | Panicked w => Panicked w
    end.
Proof.
  unfold regs, outcome. rewrite trace_bind.
  destruct (trace m base) as [[a|e|w] l]; simpl; try done.
  by destruct (trace (f a) (base + length l)).
Qed.

Lemma FailFast_bind (m : Prog A) (f : A → Prog B) :
  FailFast m → (∀ a, FailFast (f a)) → FailFast (m ≫= f).
Proof.
  unfold mbind, Prog_bind. intros Hm Hf.
  induction Hm as [a|w|r k Herr _ IH]; simpl; [apply Hf|constructor|].
  constructor; [|done].
  destruct Herr as [what Herr]. exists what. intros err. by rewrite Herr.
Qed.
End Interpreters.

Lemma FailFast_create r what : FailFast (create r what).
Proof. constructor; [by eexists|constructor]. Qed.

Lemma regs_create r what base : regs (create r what) base = [r].
Proof. done. Qed.

Lemma outcome_create r what base :
  outcome (create r what) base = Ok (Local base).
Proof. done. Qed.

Lemma regs_ret {A} (a : A) base : regs (mret a) base = [].
Proof. done. Qed.

Lemma outcome_ret {A} (a : A) base : outcome (mret a) base = Ok a.
Proof. done. Qed.

(** A fail-fast program never returns an error when nothing is refused. *)
Lemma FailFast_outcome {A} (p : Prog A) base e :
  FailFast p → outcome p base ≠ Error e.
Proof.
  unfold outcome. intros Hp. revert base.
  induction Hp as [a|w|r k _ _ IH]; intros base; simpl; try done.
  specialize (IH (Local base) (S base)).
  by destruct (trace (k (inl (Local base))) (S base)).
Qed.

(** Against any provider, a fail-fast program either runs as its trace, or
    stops with an error at the first registration the provider refuses,
    having registered the trace up to there. *)
Lemma exec_cases {A} ctx (p : Prog A) log :
  FailFast p →
  (Forall (λ r, provider ctx r = None) (regs p (length log)) ∧
   exec ctx p log = (outcome p (length log), log ++ regs p (length log))) ∨
  (∃ n r err what,
     regs p (length log) !! n = Some r ∧ provider ctx r = Some err ∧
     exec ctx p log =
       (Error (what +:+ ": " +:+ err),
        log ++ take n (regs p (length log)))).
Proof.
  unfold regs, outcome. intros Hp. revert log.
  induction Hp as [a|w|r k Herr _ IH]; intros log; simpl.
  - left. by rewrite app_nil_r.
  - left. by rewrite app_nil_r.
  - destruct (provider ctx r) as [err|] eqn:Hr.
    + right. destruct Herr as [what Herr]. rewrite Herr.
      exists 0, r, err, what.
      destruct (trace (k (inl (Local (length log)))) (S (length log))).
      simpl. by rewrite app_nil_r.
    + specialize (IH (Local (length log)) (log ++ [r])).
      rewrite length_app, Nat.add_1_r in IH.
      destruct (trace (k (inl (Local (length log)))) (S (length log)))
        as [res l]; simpl in *.
      rewrite <- app_assoc in IH. simpl in IH.
      destruct IH as [[Hall ->]|(n & r' & err & msg & Hn & Hr' & ->)].
      * left. split; [by constructor|done].
      * right. exists (S n), r', err, msg. by rewrite <- app_assoc.
Qed.

Lemma exec_ok {A} ctx (p : Prog A) log a log' :
  FailFast p → exec ctx p log = (Ok a, log') →
  outcome p (length log) = Ok a ∧ log' = log ++ regs p (length log).
Proof.
  intros Hp Hexec.
  destruct (exec_cases ctx p log Hp) as [[_ H]|(n & r & err & msg & _ & _ & H)];
    rewrite H in Hexec; by simplify_eq.
Qed.

Lemma exec_accepting {A} ctx (p : Prog A) log :
  (∀ r, provider ctx r = None) →
  exec ctx p log = (outcome p (length log), log ++ regs p (length log)).
Proof.
  unfold regs, outcome. intros Hacc. revert log.
  induction p as [a|e|w|r k IH]; intros log; simpl;
    rewrite ?app_nil_r; try done.
  rewrite Hacc, IH, length_app, Nat.add_1_r.
  destruct (trace (k (inl (Local (length log)))) (S (length log))).
  simpl. by rewrite <- app_assoc.
Qed.

(** Whatever the provider does, the log only grows, by a prefix of the
    trace. *)
Lemma exec_prefix {A} ctx (p : Prog A) log :
  FailFast p →
  ∃ n, (exec ctx p log).2 = log ++ take n (regs p (length log)).
Proof.
  intros Hp.
  destruct (exec_cases ctx p log Hp) as [[_ H]|(n & r & err & msg & _ & _ & H)];
    rewrite H; simpl.
  - exists (length (regs p (length log))). by rewrite firstn_all.
  - by exists n.
Qed.

(** ** The constructor is fail-fast *)

Section ConstructorFacts.
Variable ctx : Context.
Variable name : string.
Variable config : APIGatewayConfig.
Variable comp : Handle.
Variable restAPI : Handle.

Lemma FailFast_walkPath parts parentPath resource resources :
  FailFast (walkPath name comp restAPI parts parentPath resource resources).
Proof.
  revert parentPath resource resources.
  induction parts as [|pathPart rest IH]; intros; cbn [walkPath];
    [constructor|].
  case_decide; [done|].
  destruct (resources !! _); [done|].
  apply FailFast_bind; [apply FailFast_create|done].
Qed.

(** The path loop always comes back with a leaf, and declares resources
    only. *)
Lemma walkPath_outcome parts parentPath resource resources base :
  ∃ leaf resources',
    outcome (walkPath name comp restAPI parts parentPath resource resources)
      base = Ok (leaf, resources').
Proof.
  revert parentPath resource resources base.
  induction parts as [|pathPart rest IH]; intros; cbn [walkPath];
    [by eexists _, _|].
  case_decide; [done|].
  destruct (resources !! _); [done|].
  rewrite outcome_bind, outcome_create. apply IH.
Qed.

Lemma walkPath_kinds parts parentPath resource resources base :
  Forall (λ r, kind r = KResource)
    (regs (walkPath name comp restAPI parts parentPath resource resources)
       base).
Proof.
  revert parentPath resource resources base.
  induction parts as [|pathPart rest IH]; intros; cbn [walkPath];
    [constructor|].
  case_decide; [done|].
  destruct (resources !! _); [done|].
  rewrite regs_bind, regs_create, outcome_create.
  constructor; [done|apply IH].
Qed.

Variable authorizer : option Handle.

Lemma FailFast_wireEndpoint endpoint resources :
  FailFast (wireEndpoint ctx name config comp restAPI authorizer endpoint
              resources).
Proof.
  unfold wireEndpoint.
  apply FailFast_bind; [apply FailFast_walkPath|intros [resource res']].
  apply FailFast_bind; [apply FailFast_create|intros method].
  destruct (Endpoint.LambdaFunc endpoint); [|constructor].
  apply FailFast_bind; [apply FailFast_create|intros _].
  apply FailFast_bind; [apply FailFast_create|intros _].
  destruct (EnableCORS config); [|constructor].
  apply FailFast_bind; [apply FailFast_create|intros _].
  apply FailFast_bind; [apply FailFast_create|intros _].
  constructor.
Qed.

Lemma FailFast_wireEndpoints endpoints resources :
  FailFast (wireEndpoints ctx name config comp restAPI authorizer endpoints
              resources).
Proof.
  revert resources.
  induction endpoints as [|endpoint rest IH]; intros; cbn [wireEndpoints];
    [constructor|].
  apply FailFast_bind; [apply FailFast_wireEndpoint|done].
Qed.

(** One pass through the endpoint loop that completes has declared the
    endpoint's block. *)
Lemma wireEndpoint_ok endpoint resources base resources' :
  outcome (wireEndpoint ctx name config comp restAPI authorizer endpoint
             resources) base = Ok resources' →
  ∃ leaf,
    EndpointBlock ctx name config comp restAPI authorizer endpoint
      (regs (wireEndpoint ctx name config comp restAPI authorizer endpoint
               resources) base) leaf.
Proof.
  unfold wireEndpoint, EndpointBlock.
  rewrite outcome_bind, regs_bind.
  destruct (walkPath_outcome (splitPath (Endpoint.Path endpoint)) "/"
              (PropOf restAPI "rootResourceId") resources base)
    as (leaf & res' & ->).
  pose proof (walkPath_kinds (splitPath (Endpoint.Path endpoint)) "/"
                (PropOf restAPI "rootResourceId") resources base) as Hkinds.
  set (created := regs (walkPath _ _ _ _ _ _ _) _) in *.
  rewrite outcome_bind, regs_bind, outcome_create, regs_create.
  destruct (Endpoint.LambdaFunc endpoint) as [lambdaFunc|]; [|done].
  intros _. exists leaf, created, (Local (base + length created)), lambdaFunc.
  split_and!; [done..|]. f_equal.
  rewrite !regs_bind, !outcome_create, !regs_create.
  destruct (EnableCORS config); [|done].
  by rewrite !regs_bind, !outcome_create, !regs_create.
Qed.

Lemma wireEndpoint_total endpoint resources base :
  is_Some (Endpoint.LambdaFunc endpoint) →
  ∃ resources',
    outcome (wireEndpoint ctx name config comp restAPI authorizer endpoint
               resources) base = Ok resources'.
Proof.
  intros [lambdaFunc Hf]. unfold wireEndpoint.
  rewrite outcome_bind.
  destruct (walkPath_outcome (splitPath (Endpoint.Path endpoint)) "/"
              (PropOf restAPI "rootResourceId") resources base)
    as (leaf & res' & ->).
  rewrite outcome_bind, outcome_create, Hf.
  rewrite !outcome_bind, !outcome_create.
  destruct (EnableCORS config); [|by eexists].
  rewrite !outcome_bind, !outcome_create. by eexists.
Qed.

(** Whether it completes or not, a pass declares nothing but resources,
    methods, integrations and permissions. *)
Lemma wireEndpoint_kinds endpoint resources base :
  Forall (λ r, kind r ∈ [KResource; KMethod; KIntegration; KPermission])
    (regs (wireEndpoint ctx name config comp restAPI authorizer endpoint
             resources) base).
Proof.
  unfold wireEndpoint. rewrite regs_bind.
  apply Forall_app. split.
  { eapply Forall_impl; [apply walkPath_kinds|].
    intros r ->. set_solver. }
  destruct (walkPath_outcome (splitPath (Endpoint.Path endpoint)) "/"
              (PropOf restAPI "rootResourceId") resources base)
    as (leaf & res' & ->).
  rewrite regs_bind, outcome_create, regs_create.
  destruct (Endpoint.LambdaFunc endpoint) as [lambdaFunc|].
  - rewrite !regs_bind, !outcome_create, !regs_create.
    destruct (EnableCORS config).
    + rewrite !regs_bind, !outcome_create, !regs_create.
      repeat constructor; set_solver.
    + repeat constructor; set_solver.
  - repeat constructor; set_solver.
Qed.

Lemma wireEndpoints_kinds endpoints resources base :
  Forall (λ r, kind r ∈ [KResource; KMethod; KIntegration; KPermission])
    (regs (wireEndpoints ctx name config comp restAPI authorizer endpoints
             resources) base).
Proof.
  revert resources base.
  induction endpoints as [|endpoint rest IH]; intros; cbn [wireEndpoints];
    [constructor|].
  rewrite regs_bind. apply Forall_app. split; [apply wireEndpoint_kinds|].
  destruct (outcome _ _); [apply IH|constructor..].
Qed.

(** A completed endpoint loop has declared one block per endpoint, in the
    order of the configuration. *)
Lemma wireEndpoints_ok endpoints resources base resources' :
  outcome (wireEndpoints ctx name config comp restAPI authorizer endpoints
             resources) base = Ok resources' →
  ∃ blocks,
    regs (wireEndpoints ctx name config comp restAPI authorizer endpoints
            resources) base = concat blocks ∧
    Forall2 (λ endpoint block,
               ∃ leaf, EndpointBlock ctx name config comp restAPI authorizer
                         endpoint block leaf)
      endpoints blocks.
Proof.
  revert resources base.
  induction endpoints as [|endpoint rest IH]; intros resources base;
    cbn [wireEndpoints].
  { intros _. exists []. by split. }
  rewrite outcome_bind, regs_bind.
  destruct (outcome (wireEndpoint _ _ _ _ _ _ _ _) _) as [res1| |] eqn:Hone;
    [|done..].
  intros Hrest. apply IH in Hrest as (blocks & -> & Hblocks).
  apply wireEndpoint_ok in Hone as Hblock.
  eexists (_ :: blocks). split; [done|]. by constructor.
Qed.

Lemma wireEndpoints_total endpoints resources base :
  Forall (λ e, is_Some (Endpoint.LambdaFunc e)) endpoints →
  ∃ resources',
    outcome (wireEndpoints ctx name config comp restAPI authorizer endpoints
               resources) base = Ok resources'.
Proof.
  intros Hall. revert resources base.
  induction Hall as [|endpoint rest Hf _ IH]; intros; cbn [wireEndpoints];
    [by eexists|].
  rewrite outcome_bind.
  destruct (wireEndpoint_total endpoint resources base Hf) as [res1 ->].
  apply IH.
Qed.

Lemma FailFast_keyAndPlan stage :
  FailFast (keyAndPlan name config comp restAPI stage).
Proof.
  unfold keyAndPlan.
  destruct (ApiKeyRequired config); [|destruct (UsagePlanLimit config);
                                      apply FF_Ret].
  destruct (UsagePlanLimit config) as [limit|]; [|apply FF_Ret].
  apply FailFast_bind; [apply FailFast_create|intros apiKey].
  destruct (Quota limit); [|apply FF_Panic].
  destruct (Throttle limit); [|apply FF_Panic].
  apply FailFast_bind; [apply FailFast_create|intros usagePlan].
  apply FailFast_bind; [apply FailFast_create|intros _].
  constructor.
Qed.

Lemma FailFast_customDomain stage :
  FailFast (customDomain name config comp restAPI stage).
Proof.
  unfold customDomain. destruct (CustomDomain config); [|constructor].
  apply FailFast_bind; [apply FailFast_create|intros domain].
  apply FailFast_bind; [apply FailFast_create|intros _].
  constructor.
Qed.
End ConstructorFacts.

Lemma FailFast_compose ctx name config comp :
  FailFast (compose ctx name config comp).
Proof.
  unfold compose.
  apply FailFast_bind; [apply FailFast_create|intros restAPI].
  apply FailFast_bind.
  { destruct (AuthorizerFunc config); [|constructor].
    apply FailFast_bind; [apply FailFast_create|constructor]. }
  intros authorizer.
  apply FailFast_bind; [apply FailFast_wireEndpoints|intros _].
  apply FailFast_bind; [apply FailFast_create|intros deployment].
  apply FailFast_bind; [apply FailFast_create|intros stage].
  apply FailFast_bind; [apply FailFast_keyAndPlan|intros [apiKey usagePlan]].
  apply FailFast_bind; [apply FailFast_customDomain|intros domain].
  constructor.
Qed.

Lemma FailFast_NewAPIGateway ctx name config opts :
  FailFast (NewAPIGateway ctx name config opts).
Proof.
  unfold NewAPIGateway.
  apply FailFast_bind; [apply FailFast_create|intros comp].
  destruct config; [apply FailFast_compose|constructor].
Qed.

(** ** The shape of a completed run *)

Section Phases.
Variable name : string.
Variable config : APIGatewayConfig.
Variable comp : Handle.
Variable restAPI : Handle.
Variable stage : Handle.

Lemma regs_keyAndPlan n :
  regs (keyAndPlan name config comp restAPI stage) n =
  keyRegs name config comp restAPI stage n.
Proof.
  unfold keyAndPlan, keyRegs.
  destruct (ApiKeyRequired config); [|by destruct (UsagePlanLimit config)].
  destruct (UsagePlanLimit config) as [limit|]; [|done].
  rewrite regs_bind, regs_create, outcome_create.
  destruct (Quota limit); [|done]. destruct (Throttle limit); [|done].
  rewrite !regs_bind, !regs_create, !outcome_create. simpl.
  by rewrite Nat.add_1_r.
Qed.

Lemma outcome_keyAndPlan n apiKey usagePlan :
  outcome (keyAndPlan name config comp restAPI stage) n =
    Ok (apiKey, usagePlan) →
  if keyed config then
    apiKey = Some (Local n) ∧ usagePlan = Some (Local (S n)) ∧
    ∃ limit quota throttle,
      UsagePlanLimit config = Some limit ∧ Quota limit = Some quota ∧
      Throttle limit = Some throttle ∧
      keyRegs name config comp restAPI stage n =
        [apiKeyReg name config comp;
         usagePlanReg name config comp restAPI stage quota throttle;
         usagePlanKeyReg name comp (Local n) (Local (S n))]
  else
    apiKey = None ∧ usagePlan = None ∧
    keyRegs name config comp restAPI stage n = [].
Proof.
  unfold keyAndPlan, keyRegs, keyed.
  destruct (ApiKeyRequired config); cbn [andb].
  - destruct (UsagePlanLimit config) as [limit|].
    + rewrite bool_decide_eq_true_2 by done.
      rewrite outcome_bind, outcome_create.
      destruct (Quota limit) as [quota|] eqn:Hq; [|done].
      destruct (Throttle limit) as [throttle|] eqn:Ht; [|done].
      rewrite !outcome_bind, !outcome_create, !regs_create. simpl.
      rewrite Nat.add_1_r. intros [= <- <-].
      split_and!; [done..|]. by exists limit, quota, throttle.
    + rewrite bool_decide_eq_false_2 by (by intros [??]).
      by intros [= <- <-].
  - destruct (UsagePlanLimit config); by intros [= <- <-].
Qed.

Lemma keyAndPlan_total :
  (ApiKeyRequired config = true →
   ∀ limit, UsagePlanLimit config = Some limit →
            is_Some (Quota limit) ∧ is_Some (Throttle limit)) →
  ∀ n, ∃ keys, outcome (keyAndPlan name config comp restAPI stage) n =
                 Ok keys.
Proof.
  intros Hnil n. unfold keyAndPlan.
  destruct (ApiKeyRequired config); [|destruct (UsagePlanLimit config);
                                      by eexists].
  destruct (UsagePlanLimit config) as [limit|]; [|by eexists].
  destruct (Hnil eq_refl limit eq_refl) as [[quota ->] [throttle ->]].
  rewrite !outcome_bind, !outcome_create. by eexists.
Qed.

Lemma regs_customDomain n :
  regs (customDomain name config comp restAPI stage) n =
  domainRegs name config comp restAPI stage n.
Proof.
  unfold customDomain, domainRegs.
  destruct (CustomDomain config); [|done].
  by rewrite !regs_bind, !regs_create, !outcome_create.
Qed.

Lemma outcome_customDomain n :
  outcome (customDomain name config comp restAPI stage) n =
  Ok (match CustomDomain config with
      | Some _ => Some (Local n)
      | None => None
      end).
Proof.
  unfold customDomain.
  destruct (CustomDomain config); [|done].
  by rewrite !outcome_bind, !outcome_create.
Qed.
End Phases.

Lemma regs_authorizer name config comp restAPI n :
  regs (match AuthorizerFunc config with
        | Some authorizerFunc =>
            a ← create (authorizerReg name comp restAPI authorizerFunc)
                  "failed to create authorizer";
            mret (Some a)
        | None => mret None
        end) n = authorizerRegs name config comp restAPI.
Proof.
  unfold authorizerRegs. destruct (AuthorizerFunc config); [|done].
  by rewrite regs_bind, regs_create, outcome_create.
Qed.

Lemma outcome_authorizer name config comp restAPI n :
  outcome (match AuthorizerFunc config with
           | Some authorizerFunc =>
               a ← create (authorizerReg name comp restAPI authorizerFunc)
                     "failed to create authorizer";
               mret (Some a)
           | None => mret None
           end) n = Ok (authorizerAt config n).
Proof.
  unfold authorizerAt. destruct (AuthorizerFunc config); [|done].
  by rewrite outcome_bind, outcome_create.
Qed.

Lemma length_authorizerRegs name config comp restAPI :
  length (authorizerRegs name config comp restAPI) =
  length (option_list (AuthorizerFunc config)).
Proof. unfold authorizerRegs. by destruct (AuthorizerFunc config). Qed.

(** What a completed run has declared, and what it returns. *)
Lemma NewAPIGateway_trace_ok ctx name config opts base gw :
  outcome (NewAPIGateway ctx name (Some config) opts) base = Ok gw →
  ∃ blocks,
    let comp := Local base in
    let restAPI := Local (S base) in
    let d := deploymentAt config base blocks in
    regs (NewAPIGateway ctx name (Some config) opts) base =
      layout name config opts base blocks ∧
    Forall2 (λ endpoint block,
               ∃ leaf, EndpointBlock ctx name config comp restAPI
                         (authorizerAt config (S (S base))) endpoint block
                         leaf)
      (Endpoints config) blocks ∧
    Component.RestAPI gw = restAPI ∧
    Component.Deployment gw = Local d ∧
    Component.Stage gw = Local (S d) ∧
    if keyed config then
      Component.APIKey gw = Some (Local (S (S d))) ∧
      Component.UsagePlan gw = Some (Local (S (S (S d)))) ∧
      ∃ limit quota throttle,
        UsagePlanLimit config = Some limit ∧ Quota limit = Some quota ∧
        Throttle limit = Some throttle ∧
        keyRegs name config comp restAPI (Local (S d)) (S (S d)) =
          [apiKeyReg name config comp;
           usagePlanReg name config comp restAPI (Local (S d)) quota throttle;
           usagePlanKeyReg name comp (Local (S (S d))) (Local (S (S (S d))))]
    else
      Component.APIKey gw = None ∧ Component.UsagePlan gw = None ∧
      keyRegs name config comp restAPI (Local (S d)) (S (S d)) = [].
Proof.
  unfold NewAPIGateway, compose, layout.
  rewrite outcome_bind, regs_bind, outcome_create, regs_create.
  rewrite outcome_bind, regs_bind, outcome_create, regs_create.
  rewrite outcome_bind, regs_bind, outcome_authorizer, regs_authorizer.
  rewrite outcome_bind, regs_bind.
  cbn [length]. rewrite !Nat.add_1_r.
  set (comp := Local base). set (restAPI := Local (S base)).
  destruct (outcome (wireEndpoints _ _ _ _ _ _ _ _) _) as [res| |] eqn:Hwire;
    [|done..].
  apply wireEndpoints_ok in Hwire as (blocks & Hregs & Hblocks).
  rewrite length_authorizerRegs in Hregs |- *.
  rewrite Hregs.
  rewrite outcome_bind, regs_bind, outcome_create, regs_create.
  rewrite outcome_bind, regs_bind, outcome_create, regs_create.
  rewrite outcome_bind, regs_bind, regs_keyAndPlan.
  cbn [length]. rewrite !Nat.add_1_r.
  change (S (S base) + length (option_list (AuthorizerFunc config)) +
          length (concat blocks)) with (deploymentAt config base blocks).
  set (d := deploymentAt config base blocks).
  destruct (outcome (keyAndPlan _ _ _ _ _) _) as [[apiKey usagePlan]| |]
    eqn:Hkeys; [|done..].
  apply outcome_keyAndPlan in Hkeys.
  rewrite outcome_bind, regs_bind, outcome_customDomain, regs_customDomain.
  intros [= <-]. exists blocks. cbn zeta.
  by rewrite regs_ret, app_nil_r.
Qed.

Lemma NewAPIGateway_total ctx name config opts base :
  nilFree config →
  ∃ gw, outcome (NewAPIGateway ctx name (Some config) opts) base = Ok gw.
Proof.
  intros [Hfuncs Hplan]. unfold NewAPIGateway, compose.
  rewrite outcome_bind, outcome_create.
  rewrite outcome_bind, outcome_create.
  rewrite outcome_bind, outcome_authorizer.
  rewrite outcome_bind.
  edestruct wireEndpoints_total as [res ->]; [done|].
  rewrite outcome_bind, outcome_create.
  rewrite outcome_bind, outcome_create.
  rewrite outcome_bind.
  edestruct keyAndPlan_total as [[apiKey usagePlan] ->]; [done|].
  rewrite outcome_bind, outcome_customDomain. by eexists.
Qed.

(** The same for a run against a provider: if the constructor returns a
    component, the log has grown by the layout. *)
Lemma NewAPIGateway_exec_ok ctx name config opts log gw log' :
  exec ctx (NewAPIGateway ctx name (Some config) opts) log = (Ok gw, log') →
  outcome (NewAPIGateway ctx name (Some config) opts) (length log) = Ok gw ∧
  ∃ blocks,
    log' = log ++ layout name config opts (length log) blocks ∧
    Forall2 (λ endpoint block,
               ∃ leaf, EndpointBlock ctx name config (Local (length log))
                         (Local (S (length log)))
                         (authorizerAt config (S (S (length log)))) endpoint
                         block leaf)
      (Endpoints config) blocks.
Proof.
  intros Hexec.
  apply exec_ok in Hexec as [Hout ->]; [|apply FailFast_NewAPIGateway].
  split; [done|].
  apply NewAPIGateway_trace_ok in Hout as (blocks & -> & Hblocks & _).
  by exists blocks.
Qed.

(** ** Tag merging *)

Lemma rangeInsert_union order (defaults : gmap string string) :
  NoDup order.*1 →
  rangeInsert order defaults = list_to_map order ∪ defaults.
Proof.
  unfold rangeInsert. revert defaults.
  induction order as [|[k v] order IH]; intros defaults Hnd; simpl.
  { by rewrite (left_id_L ∅ (∪)). }
  apply NoDup_cons in Hnd as [Hk Hnd]. rewrite IH by done.
  apply map_eq. intros i.
  rewrite !lookup_union, !lookup_insert.
  destruct (decide (k = i)) as [<-|Hne]; [|done].
  rewrite (not_elem_of_list_to_map_1 _ k) by done.
  by destruct (defaults !! k).
Qed.

Lemma mergeInto_union (defaults overrides : gmap string string) :
  mergeInto defaults overrides = overrides ∪ defaults.
Proof.
  unfold mergeInto. rewrite rangeInsert_union.
  - by rewrite list_to_map_to_list.
  - apply NoDup_fst_map_to_list.
Qed.

(** C9: merging tags is a total function of the defaults and the overrides,
    whatever order the override map is ranged over: an override wins on every
    key it has, every other key keeps its default; so defaults
    [{Environment: x, ManagedBy: y}] with override [{Environment: z}] merge to
    [{Environment: z, ManagedBy: y}], and the component's tags are its
    configured tags over [Environment] and [ManagedBy]. *)
Theorem tag_merge_overrides_win
    (defaults overrides : gmap string string) (order : list (string * string)) :
  order ≡ₚ map_to_list overrides →
  rangeInsert order defaults = overrides ∪ defaults ∧
  (∀ k v, overrides !! k = Some v →
          rangeInsert order defaults !! k = Some v) ∧
  (∀ k, overrides !! k = None →
        rangeInsert order defaults !! k = defaults !! k) ∧
  (∀ x y z : string,
     mergeInto {[ "Environment" := x; "ManagedBy" := y ]}
       {[ "Environment" := z ]} =
     {[ "Environment" := z; "ManagedBy" := y ]}) ∧
  (∀ config, mergedTags config = Tags config ∪ defaultTags config).
Proof.
  intros Hperm.
  assert (Heq : rangeInsert order defaults = overrides ∪ defaults).
  { rewrite rangeInsert_union.
    - f_equal. rewrite <- (list_to_map_to_list overrides).
      apply list_to_map_proper; [|done].
      rewrite Hperm. apply NoDup_fst_map_to_list.
    - rewrite Hperm. apply NoDup_fst_map_to_list. }
  pose proof mergeInto_union as Hmerge.
  split_and!.
  - done.
  - intros k v Hk. rewrite Heq. by apply lookup_union_Some_l.
  - intros k Hk. rewrite Heq, lookup_union, Hk.
    by rewrite (left_id_L None union).
  - intros x y z. rewrite Hmerge. apply map_eq. intros i.
    rewrite lookup_union.
    destruct (decide (i = "Environment")) as [->|Hne].
    + by rewrite !lookup_insert_eq.
    + rewrite lookup_singleton_ne, (left_id_L None union) by done.
      by rewrite !(lookup_insert_ne _ "Environment") by done.
  - intros config. apply Hmerge.
Qed.

Lemma tag_merge_overrides_win_example :
  [("Environment", "z")] ≡ₚ
    map_to_list ({[ "Environment" := "z" ]} : gmap string string) ∧
  rangeInsert [("Environment", "z")]
    {[ "Environment" := "x"; "ManagedBy" := "y" ]} =
  ({[ "Environment" := "z"; "ManagedBy" := "y" ]} : gmap string string).
Proof.
  assert (H : [("Environment", "z")] ≡ₚ
                map_to_list ({[ "Environment" := "z" ]} : gmap string string))
    by (by vm_compute).
  split; [exact H|].
  rewrite (proj1 (tag_merge_overrides_win
                    {[ "Environment" := "x"; "ManagedBy" := "y" ]}
                    {[ "Environment" := "z" ]} _ H)).
  by vm_compute.
Defined.

(** ** Tags on the declared resources *)

Lemma regs_bind_Forall {A B} (P : Registration → Prop) (m : Prog A)
    (f : A → Prog B) base :
  Forall P (regs m base) → (∀ a n, Forall P (regs (f a) n)) →
  Forall P (regs (m ≫= f) base).
Proof.
  intros Hm Hf. rewrite regs_bind. apply Forall_app. split; [done|].
  destruct (outcome m base); [apply Hf|constructor..].
Qed.

Lemma regs_create_Forall (P : Registration → Prop) r what base :
  P r → Forall P (regs (create r what) base).
Proof. intros Hr. rewrite regs_create. by constructor. Qed.

Local Ltac tagged_list :=
  repeat first [apply Forall_nil_2 | apply Forall_cons_2];
  try (let Htag := fresh in intros ? Htag; by inversion Htag).

Lemma NewAPIGateway_tagged ctx name config opts base :
  Forall (tagged config) (regs (NewAPIGateway ctx name (Some config) opts) base).
Proof.
  unfold NewAPIGateway, compose.
  apply regs_bind_Forall; [rewrite regs_create; tagged_list|intros comp n0].
  apply regs_bind_Forall; [rewrite regs_create; tagged_list|].
  intros restAPI n1. apply regs_bind_Forall.
  { rewrite regs_authorizer. unfold authorizerRegs.
    destruct (AuthorizerFunc config); tagged_list. }
  intros authorizer n2. apply regs_bind_Forall.
  { eapply Forall_impl; [apply wireEndpoints_kinds|].
    intros r Hkind t Ht. unfold reg_tags in Ht. unfold kind in Hkind.
    destruct (reg_args r); try done;
      repeat (apply elem_of_cons in Hkind as [Hkind|Hkind]; [done|]);
      by apply elem_of_nil in Hkind. }
  intros _ n3.
  apply regs_bind_Forall; [rewrite regs_create; tagged_list|].
  intros deployment n4.
  apply regs_bind_Forall; [rewrite regs_create; tagged_list|].
  intros stage n5. apply regs_bind_Forall.
  { rewrite regs_keyAndPlan. unfold keyRegs.
    destruct (ApiKeyRequired config);
      [|destruct (UsagePlanLimit config); tagged_list].
    destruct (UsagePlanLimit config) as [limit|]; [|tagged_list].
    destruct (Quota limit); [|tagged_list].
    destruct (Throttle limit); tagged_list. }
  intros [apiKey usagePlan] n6. apply regs_bind_Forall.
  { rewrite regs_customDomain. unfold domainRegs.
    destruct (CustomDomain config); tagged_list. }
  intros domain n7. constructor.
Qed.

(** C10: whatever the provider accepts or refuses, every tagged resource a
    composition has declared (REST API, stage, API key, usage plan, custom
    domain) carries the merged tag map, which has [ManagedBy] and
    [Environment], the latter being the configured environment unless the
    tag overrides say otherwise; so no two of them differ in their tags. *)
Theorem tagged_resources_share_merged_tags ctx name config opts log r t :
  r ∈ declared ctx name config opts log →
  reg_tags r = Some t →
  kind r ∈ [KRestApi; KStage; KApiKey; KUsagePlan; KDomainName] ∧
  t = mergedTags config ∧
  is_Some (t !! "ManagedBy") ∧ is_Some (t !! "Environment") ∧
  (Tags config !! "Environment" = None →
   t !! "Environment" = Some (Environment config)) ∧
  (∀ r' t',
     r' ∈ declared ctx name config opts log →
     reg_tags r' = Some t' → t' = t).
Proof.
  intros Hr Ht.
  assert (Hall : Forall (tagged config) (declared ctx name config opts log)).
  { unfold declared.
    destruct (exec_prefix ctx (NewAPIGateway ctx name (Some config) opts) log)
      as [n ->]; [apply FailFast_NewAPIGateway|].
    rewrite drop_app_length. apply Forall_take, NewAPIGateway_tagged. }
  rewrite Forall_forall in Hall.
  pose proof (Hall r Hr t Ht) as ->.
  split_and!.
  - unfold reg_tags in Ht. unfold kind.
    destruct (reg_args r); try done; by repeat constructor.
  - done.
  - unfold mergedTags. rewrite mergeInto_union, lookup_union.
    unfold defaultTags.
    rewrite (lookup_insert_ne _ "Environment") by done.
    rewrite lookup_insert_eq. by destruct (Tags config !! "ManagedBy").
  - unfold mergedTags. rewrite mergeInto_union, lookup_union.
    unfold defaultTags. rewrite lookup_insert_eq.
    by destruct (Tags config !! "Environment").
  - intros Hnone. unfold mergedTags.
    rewrite mergeInto_union, lookup_union, Hnone.
    unfold defaultTags. by rewrite lookup_insert_eq.
  - intros r' t' Hr' Ht'. by apply (Hall r' Hr' t' Ht').
Qed.

(** ** Reading the layout *)

Lemma EndpointBlock_kinds ctx name config comp restAPI authorizer endpoint
    block leaf :
  EndpointBlock ctx name config comp restAPI authorizer endpoint block leaf →
  Forall (λ r, kind r ∈ wiringKinds) block.
Proof.
  intros (created & method & lambdaFunc & _ & Hcreated & ->).
  apply Forall_app. split.
  - eapply Forall_impl; [done|]. intros r ->. by repeat constructor.
  - destruct (EnableCORS config); repeat constructor.
Qed.

Lemma blocks_kinds ctx name config comp restAPI authorizer endpoints blocks :
  Forall2 (λ endpoint block,
             ∃ leaf, EndpointBlock ctx name config comp restAPI authorizer
                       endpoint block leaf) endpoints blocks →
  Forall (λ r, kind r ∈ wiringKinds) (concat blocks).
Proof.
  induction 1 as [|endpoint block endpoints blocks [leaf Hblock] _ IH];
    simpl; [constructor|].
  apply Forall_app. split; [by eapply EndpointBlock_kinds|done].
Qed.

Section Layout.
Variable name : string.
Variable config : APIGatewayConfig.
Variable opts : list ResourceOption.
Variable log : list Registration.
Variable blocks : list (list Registration).

Let base := length log.
Let comp := Local base.
Let restAPI := Local (S base).
Let d := deploymentAt config base blocks.
Let log' := log ++ layout name config opts base blocks.

Lemma layout_split :
  log' =
    (log ++ wiring name config opts base blocks) ++
    deploymentReg name config comp restAPI ::
    stageReg name config comp restAPI (Local d) ::
    features name config base blocks.
Proof.
  unfold log', layout, wiring, features. fold comp restAPI d.
  rewrite <- app_assoc. f_equal. cbn [app]. do 2 f_equal.
  by rewrite <- app_assoc.
Qed.

Lemma length_wiring :
  length (log ++ wiring name config opts base blocks) = d.
Proof.
  unfold wiring, d, deploymentAt.
  rewrite length_app. cbn [length]. rewrite length_app.
  rewrite length_authorizerRegs. lia.
Qed.

Lemma lookup_deployment :
  log' !! d = Some (deploymentReg name config comp restAPI).
Proof.
  rewrite layout_split, lookup_app_r by (rewrite length_wiring; lia).
  by rewrite length_wiring, Nat.sub_diag.
Qed.

Lemma lookup_stage :
  log' !! S d = Some (stageReg name config comp restAPI (Local d)).
Proof.
  rewrite layout_split, lookup_app_r by (rewrite length_wiring; lia).
  rewrite length_wiring. by replace (S d - d) with 1 by lia.
Qed.

Lemma lookup_features i :
  log' !! (S (S d) + i) = features name config base blocks !! i.
Proof.
  rewrite layout_split, lookup_app_r by (rewrite length_wiring; lia).
  rewrite length_wiring. by replace (S (S d) + i - d) with (S (S i)) by lia.
Qed.

Lemma lookup_component : log' !! base = Some (componentReg name opts).
Proof.
  unfold log', layout. rewrite lookup_app_r by (unfold base; lia).
  unfold base. by rewrite Nat.sub_diag.
Qed.

Lemma lookup_restApi : log' !! S base = Some (restApiReg name config comp).
Proof.
  unfold log', layout. rewrite lookup_app_r by (unfold base; lia).
  unfold base. by replace (S (length log) - length log) with 1 by lia.
Qed.

(** Between the REST API and the deployment there is nothing but the
    authorizer and the endpoint blocks. *)
Lemma lookup_wiring i r :
  S base < i → i < d → log' !! i = Some r →
  r ∈ authorizerRegs name config comp restAPI ++ concat blocks.
Proof.
  intros Hlo Hhi. rewrite layout_split.
  rewrite lookup_app_l by (rewrite length_wiring; lia).
  rewrite lookup_app_r by (unfold base in Hlo; lia).
  unfold wiring.
  replace (i - length log) with (S (S (i - S (S base))))
    by (unfold base in *; lia).
  intros Hr.
  exact (list_elem_of_lookup_2
           (authorizerRegs name config comp restAPI ++ concat blocks)
           (i - S (S base)) r Hr).
Qed.

Lemma drop_layout : drop base log' = layout name config opts base blocks.
Proof. unfold log', base. by rewrite drop_app_length. Qed.
End Layout.

Lemma features_kinds name config base blocks :
  Forall (λ r, kind r ∈ [KApiKey; KUsagePlan; KUsagePlanKey; KDomainName;
                         KBasePathMapping])
    (features name config base blocks).
Proof.
  unfold features, keyRegs, domainRegs. apply Forall_app. split.
  - destruct (ApiKeyRequired config); [|by destruct (UsagePlanLimit config)].
    destruct (UsagePlanLimit config) as [limit|]; [|done].
    destruct (Quota limit); [|by repeat constructor].
    destruct (Throttle limit); by repeat constructor.
  - destruct (CustomDomain config); by repeat constructor.
Qed.

Lemma tagged_resources_share_merged_tags_witness :
  restApiReg "users-api" usersApi (Local 0) ∈
    declared acceptAll "users-api" usersApi [] [] ∧
  reg_tags (restApiReg "users-api" usersApi (Local 0)) =
    Some (mergedTags usersApi) ∧
  mergedTags usersApi !! "Environment" = Some "production".
Proof.
  assert (H : restApiReg "users-api" usersApi (Local 0) ∈
                declared acceptAll "users-api" usersApi [] []).
  { apply (list_elem_of_lookup_2 _ 1). by vm_compute. }
  split_and!; [exact H|reflexivity|].
  destruct (tagged_resources_share_merged_tags acceptAll "users-api" usersApi
              [] [] _ _ H eq_refl) as (_ & _ & _ & _ & Henv & _).
  apply Henv. by vm_compute.
Defined.

(** ** API key and usage plan *)

Lemma filter_none {A} (P : A → Prop) `{∀ x, Decision (P x)} (l : list A) :
  Forall (λ x, ¬ P x) l → filter P l = [].
Proof.
  induction 1 as [|x l Hx _ IH]; [done|]. by rewrite filter_cons_False.
Qed.

Lemma filter_all {A} (P : A → Prop) `{∀ x, Decision (P x)} (l : list A) :
  Forall P l → filter P l = l.
Proof.
  induction 1 as [|x l Hx _ IH]; [done|].
  rewrite filter_cons_True by done. by f_equal.
Qed.

Lemma authorizerRegs_kinds name config comp restAPI :
  Forall (λ r, kind r = KAuthorizer) (authorizerRegs name config comp restAPI).
Proof.
  unfold authorizerRegs. destruct (AuthorizerFunc config); by repeat constructor.
Qed.

Lemma domainRegs_kinds name config comp restAPI stage n :
  Forall (λ r, kind r ∈ [KDomainName; KBasePathMapping])
    (domainRegs name config comp restAPI stage n).
Proof.
  unfold domainRegs. destruct (CustomDomain config); by repeat constructor.
Qed.

Lemma not_keyKinds (k : Kind) (ks : list Kind) :
  k ∈ ks → Forall (λ k', k' ∉ keyKinds) ks → k ∉ keyKinds.
Proof. intros Hk Hks. by eapply Forall_forall in Hks. Qed.

Lemma filter_keyKinds_layout ctx name config opts base blocks authorizer :
  Forall2 (λ endpoint block,
             ∃ leaf, EndpointBlock ctx name config (Local base)
                       (Local (S base)) authorizer endpoint block leaf)
    (Endpoints config) blocks →
  filter (λ r, kind r ∈ keyKinds) (layout name config opts base blocks) =
  filter (λ r, kind r ∈ keyKinds)
    (keyRegs name config (Local base) (Local (S base))
       (Local (S (deploymentAt config base blocks)))
       (S (S (deploymentAt config base blocks)))).
Proof.
  intros Hblocks. unfold layout.
  assert (Hno : ∀ ks l, Forall (λ k, k ∉ keyKinds) ks →
                        Forall (λ r, kind r ∈ ks) l →
                        filter (λ r, kind r ∈ keyKinds) l = []).
  { intros ks l Hks Hl. apply filter_none.
    eapply Forall_impl; [exact Hl|]. intros r Hr.
    exact (not_keyKinds _ _ Hr Hks). }
  assert (Hne : ∀ k, k ∉ keyKinds ↔ (k ≠ KApiKey ∧ k ≠ KUsagePlan ∧
                                      k ≠ KUsagePlanKey)).
  { intros k. unfold keyKinds. rewrite !not_elem_of_cons. split.
    - intros (?&?&?&?). done.
    - intros (?&?&?). split_and!; try done. apply not_elem_of_nil. }
  change (componentReg name opts :: restApiReg name config (Local base) ::
          ?l) with ([componentReg name opts;
                     restApiReg name config (Local base)] ++ l).
  rewrite !filter_app.
  rewrite (Hno [KComponent; KRestApi]); [|repeat constructor; by apply Hne|
                                          by repeat constructor].
  rewrite (Hno [KAuthorizer]); [|repeat constructor; by apply Hne|].
  2:{ eapply Forall_impl; [apply authorizerRegs_kinds|].
      intros r ->. by repeat constructor. }
  rewrite (Hno wiringKinds (concat blocks));
    [|repeat constructor; by apply Hne|by eapply blocks_kinds].
  change (deploymentReg ?a ?b ?c ?d :: stageReg ?e ?f ?g ?h ?i :: ?l)
    with ([deploymentReg a b c d; stageReg e f g h i] ++ l).
  rewrite !filter_app.
  rewrite (Hno [KDeployment; KStage]); [|repeat constructor; by apply Hne|
                                         by repeat constructor].
  rewrite (Hno [KDomainName; KBasePathMapping] (domainRegs _ _ _ _ _ _));
    [|repeat constructor; by apply Hne|apply domainRegs_kinds].
  by rewrite app_nil_r.
Qed.

(** Without the key required, or without a usage plan, no run declares a key,
    a plan or a binding. *)
Lemma NewAPIGateway_unkeyed ctx name config opts base :
  keyed config = false →
  Forall (λ r, kind r ∉ keyKinds)
    (regs (NewAPIGateway ctx name (Some config) opts) base).
Proof.
  intros Hkeyed.
  assert (Hne : ∀ k, (k ≠ KApiKey ∧ k ≠ KUsagePlan ∧ k ≠ KUsagePlanKey) →
                     k ∉ keyKinds).
  { intros k (?&?&?). unfold keyKinds. rewrite !not_elem_of_cons.
    split_and!; try done. apply not_elem_of_nil. }
  unfold NewAPIGateway, compose.
  apply regs_bind_Forall;
    [rewrite regs_create; repeat constructor; by apply Hne|intros comp n0].
  apply regs_bind_Forall;
    [rewrite regs_create; repeat constructor; by apply Hne|].
  intros restAPI n1. apply regs_bind_Forall.
  { rewrite regs_authorizer. unfold authorizerRegs.
    destruct (AuthorizerFunc config); repeat constructor; by apply Hne. }
  intros authorizer n2. apply regs_bind_Forall.
  { eapply Forall_impl; [apply wireEndpoints_kinds|].
    intros r Hkind. apply Hne.
    repeat (apply elem_of_cons in Hkind as [->|Hkind]; [done|]).
    by apply elem_of_nil in Hkind. }
  intros _ n3.
  apply regs_bind_Forall;
    [rewrite regs_create; repeat constructor; by apply Hne|].
  intros deployment n4.
  apply regs_bind_Forall;
    [rewrite regs_create; repeat constructor; by apply Hne|].
  intros stage n5. apply regs_bind_Forall.
  { rewrite regs_keyAndPlan. unfold keyRegs. unfold keyed in Hkeyed.
    destruct (ApiKeyRequired config);
      [|destruct (UsagePlanLimit config); constructor].
    destruct (UsagePlanLimit config) as [limit|]; [|constructor].
    by cbn in Hkeyed. }
  intros [apiKey usagePlan] n6. apply regs_bind_Forall.
  { rewrite regs_customDomain. unfold domainRegs.
    destruct (CustomDomain config); repeat constructor; by apply Hne. }
  intros domain n7. constructor.
Qed.

Lemma mergedTags_union config :
  mergedTags config =
  Tags config ∪
  <["Environment" := Environment config]> (<["ManagedBy" := "Pulumi"]> ∅).
Proof. unfold mergedTags, defaultTags. apply mergeInto_union. Qed.

(** C6, as the code has it.  In every run, complete or not, no API key, usage
    plan or binding is declared unless [ApiKeyRequired] is set and a
    usage-plan configuration is present.  In a composition that completes
    with both, the key, the plan and the binding of the two are declared,
    in this order, right after the stage: the key under the name of the
    composition with [-key], the plan on that stage with the configured quota
    (limit, period) and throttle (burst, rate), the binding with the ids of
    that key and that plan; and the component exports the key and the plan.
    In a composition that completes without one of the two, none of the
    three is declared and the component exports neither. *)
Theorem api_key_and_usage_plan_iff ctx name config opts log res log' :
  exec ctx (NewAPIGateway ctx name (Some config) opts) log = (res, log') →
  let comp := Local (length log) in
  let restAPI := Local (S (length log)) in
  let tags :=
    Tags config ∪
    <["Environment" := Environment config]> (<["ManagedBy" := "Pulumi"]> ∅) in
  (ApiKeyRequired config = false ∨ UsagePlanLimit config = None →
   Forall (λ r, kind r ≠ KApiKey ∧ kind r ≠ KUsagePlan ∧
                kind r ≠ KUsagePlanKey) (drop (length log) log')) ∧
  ∀ gw,
    res = Ok gw →
    ∃ s deployment,
      Component.RestAPI gw = restAPI ∧
      Component.Stage gw = Local s ∧
      log' !! s =
        Some {| reg_name := name +:+ "-stage";
                reg_args := StageArgs (PropOf restAPI "id")
                              (PropOf deployment "id") (StageName config)
                              tags;
                reg_opts := [Parent comp] |} ∧
      match ApiKeyRequired config, UsagePlanLimit config with
      | true, Some limit =>
          ∃ quota throttle,
            Quota limit = Some quota ∧ Throttle limit = Some throttle ∧
            let key :=
              {| reg_name := name +:+ "-key";
                 reg_args := ApiKeyArgs (name +:+ "-key") tags;
                 reg_opts := [Parent comp] |} in
            let plan :=
              {| reg_name := name +:+ "-usage-plan";
                 reg_args :=
                   UsagePlanArgs (name +:+ "-usage-plan")
                     [(PropOf restAPI "id", PropOf (Local s) "stageName")]
                     (Limit quota, Period quota)
                     (BurstLimit throttle, RateLimit throttle) tags;
                 reg_opts := [Parent comp] |} in
            let binding :=
              {| reg_name := name +:+ "-usage-plan-key";
                 reg_args :=
                   UsagePlanKeyArgs (PropOf (Local (S s)) "id") "API_KEY"
                     (PropOf (Local (S (S s))) "id");
                 reg_opts := [Parent comp] |} in
            filter (λ r, kind r ∈ [KApiKey; KUsagePlan; KUsagePlanKey])
              (drop (length log) log') = [key; plan; binding] ∧
            log' !! S s = Some key ∧
            log' !! S (S s) = Some plan ∧
            log' !! S (S (S s)) = Some binding ∧
            Component.APIKey gw = Some (Local (S s)) ∧
            Component.UsagePlan gw = Some (Local (S (S s)))
      | _, _ =>
          filter (λ r, kind r ∈ [KApiKey; KUsagePlan; KUsagePlanKey])
            (drop (length log) log') = [] ∧
          Component.APIKey gw = None ∧ Component.UsagePlan gw = None
      end.
Proof.
  intros Hexec comp restAPI tags. split.
  { intros Hwithout.
    assert (Hkeyed : keyed config = false).
    { unfold keyed. destruct Hwithout as [->| ->]; [done|].
      rewrite andb_false_iff. right.
      rewrite bool_decide_eq_false. by intros [? ?]. }
    destruct (exec_prefix ctx (NewAPIGateway ctx name (Some config) opts) log)
      as [n Hn]; [apply FailFast_NewAPIGateway|].
    rewrite Hexec in Hn. cbn [snd] in Hn. subst log'.
    rewrite drop_app_length. apply Forall_take.
    eapply Forall_impl; [by apply NewAPIGateway_unkeyed|].
    intros r Hr. unfold keyKinds in Hr. rewrite !not_elem_of_cons in Hr.
    by destruct Hr as (?&?&?&_). }
  intros gw ->.
  apply exec_ok in Hexec as [Hout ->]; [|apply FailFast_NewAPIGateway].
  apply NewAPIGateway_trace_ok in Hout
    as (blocks & -> & Hblocks & Hrest & Hdep & Hstage & Hkeys).
  set (d := deploymentAt config (length log) blocks) in *.
  exists (S d), (Local d).
  split_and!; [done|done| |].
  { unfold d. rewrite lookup_stage. unfold stageReg, parentOpts.
    by rewrite mergedTags_union. }
  rewrite drop_app_length.
  change [KApiKey; KUsagePlan; KUsagePlanKey] with keyKinds.
  rewrite (filter_keyKinds_layout _ _ _ _ _ _ _ Hblocks).
  fold d.
  pose proof (lookup_features name config opts log blocks) as Hfeat.
  unfold features in Hfeat. fold d in Hfeat. cbn zeta in Hfeat.
  destruct (keyed config) eqn:Hkeyed.
  2:{ destruct Hkeys as (-> & -> & ->).
      unfold keyed in Hkeyed. apply andb_false_iff in Hkeyed as [->|Hnone];
        [done|].
      apply bool_decide_eq_false in Hnone.
      destruct (UsagePlanLimit config); [by destruct Hnone|].
      by destruct (ApiKeyRequired config). }
  unfold keyed in Hkeyed. apply andb_true_iff in Hkeyed as [-> _].
  destruct Hkeys as (HK & HP & limit & quota & throttle & -> & Hq & Ht &
                     Hregs).
  exists quota, throttle. rewrite Hregs in Hfeat |- *.
  unfold apiKeyReg, usagePlanReg, usagePlanKeyReg, parentOpts in Hfeat |- *.
  rewrite mergedTags_union in Hfeat |- *.
  pose proof (Hfeat 0) as H0. pose proof (Hfeat 1) as H1.
  pose proof (Hfeat 2) as H2.
  replace (S (S d) + 0) with (S (S d)) in H0 by lia.
  replace (S (S d) + 1) with (S (S (S d))) in H1 by lia.
  replace (S (S d) + 2) with (S (S (S (S d)))) in H2 by lia.
  by split_and!.
Qed.

Lemma api_key_and_usage_plan_iff_witness :
  ∃ gw log' s,
    exec acceptAll (NewAPIGateway acceptAll "users-api" (Some usersApiKeyed) [])
      [] = (Ok gw, log') ∧
    Component.Stage gw = Local s ∧
    Component.APIKey gw = Some (Local (S s)) ∧
    Component.UsagePlan gw = Some (Local (S (S s))) ∧
    log' !! S (S (S s)) =
      Some {| reg_name := "users-api-usage-plan-key";
              reg_args :=
                UsagePlanKeyArgs (PropOf (Local (S s)) "id") "API_KEY"
                  (PropOf (Local (S (S s))) "id");
              reg_opts := [Parent (Local 0)] |}.
Proof.
  eexists _, _.
  assert (H : exec acceptAll
                (NewAPIGateway acceptAll "users-api" (Some usersApiKeyed) [])
                [] = (Ok _, _)) by (vm_compute; reflexivity).
  destruct (api_key_and_usage_plan_iff _ _ _ _ _ _ _ H) as [_ Hk].
  destruct (Hk _ eq_refl) as (s & deployment & _ & Hs & _ & Hkey).
  cbv beta iota zeta delta [usersApiKeyed usersApiWith ApiKeyRequired
                            UsagePlanLimit] in Hkey.
  destruct Hkey as (quota & throttle & _ & _ & _ & _ & _ & Hbinding &
                    Hkey & Hplan).
  exists s. split_and!; [exact H|exact Hs|exact Hkey|exact Hplan|exact Hbinding].
Defined.

(** C6 as stated fails for the compositions that stop between the key and
    the plan.  With the key required and a usage-plan configuration that has
    neither quota nor throttle, the key is declared and the constructor then
    panics; with a provider that refuses the usage plan, the key is declared
    and the constructor returns the error.  Either way the graph has a key
    and no plan, although both the flag and the configuration are
    present. *)
Lemma key_without_plan :
  (ApiKeyRequired halfPlanned = true ∧ is_Some (UsagePlanLimit halfPlanned) ∧
   ∃ log',
     exec acceptAll (NewAPIGateway acceptAll "users-api" (Some halfPlanned) [])
       [] = (Panicked "invalid memory address or nil pointer dereference",
             log') ∧
     kind <$> filter (λ r, kind r ∈ [KApiKey; KUsagePlan; KUsagePlanKey]) log'
       = [KApiKey]) ∧
  (ApiKeyRequired usersApiKeyed = true ∧
   is_Some (UsagePlanLimit usersApiKeyed) ∧
   ∃ log',
     exec refusePlans
       (NewAPIGateway refusePlans "users-api" (Some usersApiKeyed) []) [] =
       (Error "failed to create usage plan: limit exceeded", log') ∧
     kind <$> filter (λ r, kind r ∈ [KApiKey; KUsagePlan; KUsagePlanKey]) log'
       = [KApiKey]).
Proof.
  split; (split_and!; [done|by eexists|]);
    eexists; (split; [vm_compute; reflexivity|by vm_compute]).
Qed.

(** ** CORS *)

Lemma isMock_kind r : isMock r → kind r = KIntegration.
Proof. unfold isMock, kind. by destruct (reg_args r). Qed.

Lemma filter_isMock_kinds (ks : list Kind) (l : list Registration) :
  KIntegration ∉ ks → Forall (λ r, kind r ∈ ks) l →
  filter (λ r, isMock r) l = [].
Proof.
  intros Hks Hl. apply filter_none.
  eapply Forall_impl; [exact Hl|]. intros r Hr Hmock.
  apply Hks. apply isMock_kind in Hmock. by rewrite <- Hmock.
Qed.

Lemma filter_isMock_blocks ctx name config comp restAPI authorizer
    endpoints blocks :
  EnableCORS config = true →
  Forall2 (λ endpoint block,
             ∃ leaf, EndpointBlock ctx name config comp restAPI authorizer
                       endpoint block leaf) endpoints blocks →
  length (filter (λ r, isMock r) (concat blocks)) = length endpoints.
Proof.
  intros Hcors.
  induction 1 as [|endpoint block endpoints blocks Hblock _ IH];
    simpl; [done|].
  destruct Hblock as (leaf & created & method & lambdaFunc & _ & Hcreated & ->).
  rewrite Hcors, !filter_app, !length_app, IH.
  rewrite (filter_isMock_kinds [KResource]).
  - done.
  - rewrite not_elem_of_cons. split; [done|apply not_elem_of_nil].
  - eapply Forall_impl; [done|]. intros r ->. by repeat constructor.
Qed.

Lemma filter_isMock_layout ctx name config opts base blocks authorizer :
  Forall2 (λ endpoint block,
             ∃ leaf, EndpointBlock ctx name config (Local base)
                       (Local (S base)) authorizer endpoint block leaf)
    (Endpoints config) blocks →
  filter (λ r, isMock r) (layout name config opts base blocks) =
  filter (λ r, isMock r) (concat blocks).
Proof.
  intros Hblocks. unfold layout.
  assert (Hne : ∀ ks, Forall (λ k, k ≠ KIntegration) ks → KIntegration ∉ ks).
  { intros ks Hks Hin. by eapply Forall_forall in Hks. }
  rewrite !filter_cons_False by (simpl; tauto).
  rewrite !filter_app.
  rewrite (filter_isMock_kinds [KAuthorizer] (authorizerRegs _ _ _ _));
    [|apply Hne; by repeat constructor|].
  2:{ eapply Forall_impl; [apply authorizerRegs_kinds|].
      intros r ->. by repeat constructor. }
  rewrite !filter_cons_False by (simpl; tauto).
  rewrite (filter_isMock_kinds
             [KApiKey; KUsagePlan; KUsagePlanKey; KDomainName;
              KBasePathMapping] (_ ++ _));
    [|apply Hne; by repeat constructor|apply features_kinds].
  by rewrite app_nil_r.
Qed.

(** C8, as the code has it: in a composition with CORS enabled that
    completes, the log grows by the layout, in which every endpoint has its
    own block: the resources created for its path, its method, integration
    and permission, and then one [OPTIONS] method (authorization [NONE], no
    API key) and one [MOCK] integration whose request template for
    [application/json] is [{"statusCode": 200}], both on the leaf the
    endpoint's own method is attached to.  There are as many mock
    integrations as endpoints: endpoints that share a leaf each get their
    pair. *)
Theorem cors_preflight_pair_per_endpoint ctx name config opts log gw log' :
  exec ctx (NewAPIGateway ctx name (Some config) opts) log = (Ok gw, log') →
  EnableCORS config = true →
  let comp := Local (length log) in
  let restAPI := Local (S (length log)) in
  ∃ blocks,
    log' = log ++ layout name config opts (length log) blocks ∧
    Forall2
      (λ endpoint block,
         ∃ created leaf method lambdaFunc,
           let declared :=
             name +:+ "-" +:+ Endpoint.Method endpoint +:+ "-" +:+
             Endpoint.Path endpoint in
           Forall (λ r, kind r = KResource) created ∧
           block =
             created ++
             [{| reg_name := declared;
                 reg_args :=
                   MethodArgs (PropOf restAPI "id") leaf
                     (Endpoint.Method endpoint)
                     (Endpoint.Authorization endpoint)
                     (Endpoint.ApiKeyRequired endpoint)
                     (match AuthorizerFunc config with
                      | Some _ =>
                          if decide (Endpoint.Authorization endpoint =
                                     "CUSTOM")
                          then Some (PropOf (Local (S (S (length log))))
                                       "id")
                          else None
                      | None => None
                      end)
                     (Endpoint.RequestParameters endpoint);
                 reg_opts := [Parent comp] |};
              integrationReg name comp restAPI endpoint leaf method lambdaFunc;
              permissionReg ctx name comp restAPI endpoint lambdaFunc;
              {| reg_name := declared +:+ "-options";
                 reg_args :=
                   MethodArgs (PropOf restAPI "id") leaf "OPTIONS" "NONE"
                     false None None;
                 reg_opts := [Parent comp] |};
              {| reg_name := declared +:+ "-options-integration";
                 reg_args :=
                   IntegrationArgs (PropOf restAPI "id") leaf
                     (Known "OPTIONS") "MOCK" None None
                     {[ "application/json" :=
                          "{" +:+ String "034" "statusCode" +:+
                          String "034" ": 200}" ]};
                 reg_opts := [Parent comp] |}] ∧
           isMock (integrationReg name comp restAPI endpoint leaf method
                     lambdaFunc) = false)
      (Endpoints config) blocks ∧
    length (filter (λ r, isMock r) (drop (length log) log')) =
      length (Endpoints config).
Proof.
  intros Hexec Hcors comp restAPI.
  apply NewAPIGateway_exec_ok in Hexec as (_ & blocks & -> & Hblocks).
  exists blocks. split_and!.
  - done.
  - eapply Forall2_impl; [exact Hblocks|].
    intros endpoint block
      (leaf & created & method & lambdaFunc & _ & Hcreated & ->).
    rewrite Hcors. exists created, leaf, method, lambdaFunc.
    split_and!; [done| |done].
    unfold methodReg, optionsMethodReg, optionsIntegrationReg, authorizerAt,
      stem, parentOpts.
    by destruct (AuthorizerFunc config).
  - rewrite drop_app_length.
    rewrite (filter_isMock_layout _ _ _ _ _ _ _ Hblocks).
    by eapply filter_isMock_blocks.
Qed.

Lemma cors_preflight_pair_per_endpoint_witness :
  ∃ gw log',
    exec acceptAll (NewAPIGateway acceptAll "users-api" (Some usersApi) []) []
      = (Ok gw, log') ∧
    EnableCORS usersApi = true ∧
    length (filter (λ r, isMock r) (drop 0 log')) = 2.
Proof.
  eexists _, _.
  assert (H : exec acceptAll
                (NewAPIGateway acceptAll "users-api" (Some usersApi) []) [] =
              (Ok _, _)) by (vm_compute; reflexivity).
  destruct (cors_preflight_pair_per_endpoint _ _ _ _ _ _ _ H eq_refl)
    as (blocks & _ & _ & Hcount).
  split_and!; [exact H|reflexivity|exact Hcount].
Defined.

(** C8 as stated fails for the compositions that stop inside the endpoint
    loop.  With CORS enabled and the handler of [/orders] missing, the
    method of [/orders] is declared and the constructor then panics, before
    the preflight pair of that endpoint: the two endpoints have one mock
    integration between them, and no [OPTIONS] method is attached to the
    leaf of [/orders]. *)
Lemma endpoint_without_preflight :
  EnableCORS unhandled = true ∧
  length (Endpoints unhandled) = 2 ∧
  ∃ log',
    exec acceptAll (NewAPIGateway acceptAll "users-api" (Some unhandled) []) []
      = (Panicked "invalid memory address or nil pointer dereference", log') ∧
    last log' =
      Some {| reg_name := "users-api-GET-/orders";
              reg_args :=
                MethodArgs (PropOf (Local 1) "id") (PropOf (Local 8) "id")
                  "GET" "NONE" false None None;
              reg_opts := [Parent (Local 0)] |} ∧
    methodLeaves log' =
      [PropOf (Local 2) "id"; PropOf (Local 2) "id"; PropOf (Local 8) "id"] ∧
    length (filter (λ r, isMock r) log') = 1.
Proof.
  split_and!; [done..|].
  eexists. split_and!; [vm_compute; reflexivity|by vm_compute..].
Qed.

(** ** The deployment *)

Section Deployment.
Variable name : string.
Variable config : APIGatewayConfig.
Variable opts : list ResourceOption.
Variable log : list Registration.
Variable blocks : list (list Registration).
Hypothesis Hclosed : closed log.
Hypothesis Hopts : oldOpts log opts.

Let base := length log.
Let d := deploymentAt config base blocks.
Let log' := log ++ layout name config opts base blocks.

Lemma edge_upstream a b :
  a = Local d ∨ upstream base a → edge log' a b → upstream base b.
Proof.
  intros Ha (n & r & -> & Hn & Hb).
  destruct Ha as [[= ->]|[[= ->]|[[= ->]|Hold]]].
  - unfold log', d, base in Hn. rewrite lookup_deployment in Hn.
    injection Hn as <-. cbv in Hb.
    apply elem_of_cons in Hb as [->|Hb]; [by left|].
    apply elem_of_cons in Hb as [->|Hb]; [right; by left|].
    by apply elem_of_nil in Hb.
  - unfold log', base in Hn. rewrite lookup_restApi in Hn.
    injection Hn as <-. cbv in Hb.
    apply elem_of_cons in Hb as [->|Hb]; [right; by left|].
    by apply elem_of_nil in Hb.
  - unfold log', base in Hn. rewrite lookup_component in Hn.
    injection Hn as <-. right. right.
    unfold oldOpts in Hopts. rewrite Forall_forall in Hopts.
    by apply Hopts.
  - simpl in Hold. unfold log' in Hn. rewrite lookup_app_l in Hn by done.
    right. right. specialize (Hclosed n r Hn).
    rewrite Forall_forall in Hclosed. by apply Hclosed.
Qed.

Lemma depends_upstream a b :
  depends log' a b → a = Local d ∨ upstream base a → upstream base b.
Proof.
  unfold depends. induction 1 as [a b Hab|a b c Hab _ IH]; intros Ha.
  - by eapply edge_upstream.
  - apply IH. right. by eapply edge_upstream.
Qed.

(** Declarations of the composition that the deployment or a later
    declaration is not. *)
Lemma before_deployment i r :
  base ≤ i → log' !! i = Some r → kind r ∈ wiringKinds → i < d.
Proof.
  intros Hi Hr Hkind. destruct (decide (i < d)) as [|Hge]; [done|].
  exfalso. unfold log', d, base in *.
  destruct (decide (i = deploymentAt config (length log) blocks)) as [->|Hne].
  { rewrite lookup_deployment in Hr. injection Hr as <-.
    by repeat (apply elem_of_cons in Hkind as [Hkind|Hkind]; [done|]);
       apply elem_of_nil in Hkind. }
  destruct (decide (i = S (deploymentAt config (length log) blocks)))
    as [->|Hne'].
  { rewrite lookup_stage in Hr. injection Hr as <-.
    by repeat (apply elem_of_cons in Hkind as [Hkind|Hkind]; [done|]);
       apply elem_of_nil in Hkind. }
  replace i with (S (S (deploymentAt config (length log) blocks)) +
                  (i - S (S (deploymentAt config (length log) blocks))))
    in Hr by lia.
  rewrite lookup_features in Hr. apply list_elem_of_lookup_2 in Hr.
  pose proof (features_kinds name config (length log) blocks) as Hfeat.
  rewrite Forall_forall in Hfeat. specialize (Hfeat r Hr).
  revert Hkind Hfeat. generalize (kind r). intros k Hk Hf.
  repeat (apply elem_of_cons in Hk as [->|Hk];
          [by repeat (apply elem_of_cons in Hf as [Hf|Hf]; [done|]);
              apply elem_of_nil in Hf|]).
  by apply elem_of_nil in Hk.
Qed.
End Deployment.

Lemma closed_nil : closed [].
Proof. intros n r Hn. by rewrite lookup_nil in Hn. Qed.

Lemma oldOpts_nil : oldOpts [] [].
Proof. constructor. Qed.

(** What the deployment of a completed composition can reach. *)
Lemma deployment_upstream ctx name config opts log gw log' :
  exec ctx (NewAPIGateway ctx name (Some config) opts) log = (Ok gw, log') →
  closed log → oldOpts log opts →
  ∀ b, depends log' (Component.Deployment gw) b → upstream (length log) b.
Proof.
  intros Hexec Hclosed Hopts b Hb.
  apply exec_ok in Hexec as [Hout ->]; [|apply FailFast_NewAPIGateway].
  apply NewAPIGateway_trace_ok in Hout as (blocks & Hregs & _ & _ & Hdep & _).
  rewrite Hregs, Hdep in Hb.
  eapply depends_upstream; [done..|]. by left.
Qed.




(** ** Configuration errors *)

Lemma regs_NewAPIGateway_front ctx name config opts base :
  take 2 (regs (NewAPIGateway ctx name (Some config) opts) base) =
  [componentReg name opts; restApiReg name config (Local base)].
Proof.
  unfold NewAPIGateway, compose.
  rewrite regs_bind, regs_create, outcome_create.
  by rewrite regs_bind, regs_create, outcome_create.
Qed.

Lemma Wraps_bind {A B} P (m : Prog A) (f : A → Prog B) :
  Wraps P m → (∀ a, Wraps P (f a)) → Wraps P (m ≫= f).
Proof.
  unfold mbind, Prog_bind. intros Hm Hf.
  induction Hm as [a|w|r k what HP Herr _ IH]; simpl;
    [apply Hf|constructor|].
  apply (W_Register P _ _ what); [done| |done].
  intros err. by rewrite Herr.
Qed.

Lemma Wraps_create (P : Registration → string → Prop) r what :
  P r what → Wraps P (create r what).
Proof. intros HP. apply (W_Register P _ _ what); [done..|constructor]. Qed.

(** Against any provider, a run that returns an error has stopped at the
    first registration the provider refuses, and returns the provider's
    error behind the message of that registration. *)
Lemma exec_refused {A} P ctx (p : Prog A) log e log' :
  Wraps P p → exec ctx p log = (Error e, log') →
  ∃ n r err what,
    regs p (length log) !! n = Some r ∧ provider ctx r = Some err ∧
    P r what ∧ e = what +:+ ": " +:+ err ∧
    log' = log ++ take n (regs p (length log)) ∧
    Forall (λ r, provider ctx r = None) (take n (regs p (length log))).
Proof.
  unfold regs. intros Hp. revert log.
  induction Hp as [a|w|r k what HP Herr _ IH]; intros log; simpl; [done..|].
  destruct (provider ctx r) as [err|] eqn:Hr.
  - rewrite Herr. simpl. intros [= <- <-].
    exists 0, r, err, what.
    destruct (trace (k (inl (Local (length log)))) (S (length log))).
    simpl. by rewrite app_nil_r.
  - intros Hexec.
    apply IH in Hexec as (n & r' & err & what' & Hn & Hr' & HP' & -> & -> & Hacc).
    rewrite length_app, Nat.add_1_r in Hn, Hacc |- *.
    destruct (trace (k (inl (Local (length log)))) (S (length log)))
      as [res l]; simpl in *.
    exists (S n), r', err, what'. rewrite <- app_assoc.
    split_and!; try done. simpl. by constructor.
Qed.

Section Steps.
Variable ctx : Context.
Variable name : string.
Variable config : APIGatewayConfig.
Variable comp : Handle.
Variable restAPI : Handle.
Variable authorizer : option Handle.

Lemma Wraps_wireEndpoint endpoint resources :
  endpoint ∈ Endpoints config →
  Wraps (failedStep name config)
    (wireEndpoint ctx name config comp restAPI authorizer endpoint resources).
Proof.
  intros Hin. unfold wireEndpoint. apply Wraps_bind.
  { unfold splitPath. cbn [walkPath].
    case_decide; [constructor|].
    destruct (resources !! _); [constructor|].
    apply Wraps_bind; [|constructor].
    apply Wraps_create. reflexivity. }
  intros [resource resources'].
  apply Wraps_bind.
  { apply Wraps_create. exists endpoint. split; [done|]. by left. }
  intros method. destruct (Endpoint.LambdaFunc endpoint); [|constructor].
  apply Wraps_bind; [by apply Wraps_create|intros _].
  apply Wraps_bind; [by apply Wraps_create|intros _].
  destruct (EnableCORS config); [|constructor].
  apply Wraps_bind.
  { apply Wraps_create. exists endpoint. split; [done|]. by right. }
  intros _. apply Wraps_bind; [by apply Wraps_create|intros _].
  constructor.
Qed.

Lemma Wraps_wireEndpoints endpoints resources :
  endpoints ⊆ Endpoints config →
  Wraps (failedStep name config)
    (wireEndpoints ctx name config comp restAPI authorizer endpoints
       resources).
Proof.
  revert resources.
  induction endpoints as [|endpoint rest IH]; intros resources Hsub;
    cbn [wireEndpoints]; [constructor|].
  apply Wraps_bind.
  - apply Wraps_wireEndpoint. apply Hsub. by left.
  - intros resources'. apply IH. intros e He. apply Hsub. by right.
Qed.

Lemma Wraps_keyAndPlan stage :
  Wraps (failedStep name config) (keyAndPlan name config comp restAPI stage).
Proof.
  unfold keyAndPlan.
  destruct (ApiKeyRequired config); [|destruct (UsagePlanLimit config);
                                      apply W_Ret].
  destruct (UsagePlanLimit config) as [limit|]; [|apply W_Ret].
  apply Wraps_bind; [by apply Wraps_create|intros apiKey].
  destruct (Quota limit); [|apply W_Panic].
  destruct (Throttle limit); [|apply W_Panic].
  apply Wraps_bind; [by apply Wraps_create|intros usagePlan].
  apply Wraps_bind; [by apply Wraps_create|intros _].
  constructor.
Qed.

Lemma Wraps_customDomain stage :
  Wraps (failedStep name config) (customDomain name config comp restAPI stage).
Proof.
  unfold customDomain. destruct (CustomDomain config); [|constructor].
  apply Wraps_bind; [by apply Wraps_create|intros domain].
  apply Wraps_bind; [by apply Wraps_create|intros _].
  constructor.
Qed.
End Steps.

Lemma Wraps_NewAPIGateway ctx name config opts :
  Wraps (failedStep name config) (NewAPIGateway ctx name (Some config) opts).
Proof.
  unfold NewAPIGateway, compose.
  apply Wraps_bind; [by apply Wraps_create|intros comp].
  apply Wraps_bind; [by apply Wraps_create|intros restAPI].
  apply Wraps_bind.
  { destruct (AuthorizerFunc config); [|constructor].
    apply Wraps_bind; [by apply Wraps_create|constructor]. }
  intros authorizer.
  apply Wraps_bind; [by apply Wraps_wireEndpoints|intros _].
  apply Wraps_bind; [by apply Wraps_create|intros deployment].
  apply Wraps_bind; [by apply Wraps_create|intros stage].
  apply Wraps_bind; [apply Wraps_keyAndPlan|intros [apiKey usagePlan]].
  apply Wraps_bind; [apply Wraps_customDomain|intros domain].
  constructor.
Qed.

(** C4, as the code has it: the constructor does not look at the shape of
    the configuration.  Whatever the configuration, it first asks for the
    component and the REST API; the only errors it returns are refusals of
    the provider, wrapped in the name of the failed step, after the
    declarations that precede the refused one, all of them accepted; and
    with a provider that refuses nothing and a configuration free of nil
    pointers it runs to completion, without a key, a plan or a binding when
    the configuration has no usage plan, whether or not it requires the
    key. *)
Theorem configuration_shape_is_not_checked ctx name config opts log :
  let p := NewAPIGateway ctx name (Some config) opts in
  take 2 (regs p (length log)) =
    [componentReg name opts; restApiReg name config (Local (length log))] ∧
  (∀ e log',
     exec ctx p log = (Error e, log') →
     ∃ n r err what,
       regs p (length log) !! n = Some r ∧ provider ctx r = Some err ∧
       failedStep name config r what ∧
       e = what +:+ ": " +:+ err ∧
       log' = log ++ take n (regs p (length log)) ∧
       Forall (λ r, provider ctx r = None) (take n (regs p (length log)))) ∧
  ((∀ r, provider ctx r = None) → nilFree config →
   ∃ gw,
     exec ctx p log = (Ok gw, log ++ regs p (length log)) ∧
     (UsagePlanLimit config = None →
      Component.APIKey gw = None ∧ Component.UsagePlan gw = None ∧
      Forall (λ r, kind r ≠ KApiKey ∧ kind r ≠ KUsagePlan ∧
                   kind r ≠ KUsagePlanKey) (regs p (length log)))).
Proof.
  intros p. split_and!.
  - apply regs_NewAPIGateway_front.
  - intros e log' Hexec.
    by apply (exec_refused (failedStep name config));
      [apply Wraps_NewAPIGateway|].
  - intros Hacc Hnil. unfold p. rewrite exec_accepting by done.
    destruct (NewAPIGateway_total ctx name config opts (length log) Hnil)
      as [gw Hgw].
    exists gw. rewrite Hgw. split; [done|]. intros Hplan.
    assert (Hkeyed : keyed config = false).
    { unfold keyed. rewrite Hplan, andb_false_iff. right.
      rewrite bool_decide_eq_false. by intros [? ?]. }
    apply NewAPIGateway_trace_ok in Hgw as (blocks & _ & _ & _ & _ & _ & Hk).
    rewrite Hkeyed in Hk. destruct Hk as (-> & -> & _).
    split_and!; [done..|].
    eapply Forall_impl; [by apply NewAPIGateway_unkeyed|].
    intros r Hr. unfold keyKinds in Hr. rewrite !not_elem_of_cons in Hr.
    by destruct Hr as (?&?&?&_).
Qed.

Lemma configuration_shape_is_not_checked_witness :
  ∃ log',
    exec refuseDeployments
      (NewAPIGateway refuseDeployments "users-api" (Some usersApi) []) [] =
      (Error "failed to create deployment: access denied", log') ∧
    length log' = 13.
Proof.
  eexists.
  assert (H : exec refuseDeployments
                (NewAPIGateway refuseDeployments "users-api" (Some usersApi)
                   []) [] =
              (Error "failed to create deployment: access denied", _))
    by (vm_compute; reflexivity).
  destruct (configuration_shape_is_not_checked refuseDeployments "users-api"
              usersApi [] []) as (_ & Herr & _).
  destruct (Herr _ _ H) as (n & r & err & what & _ & _ & _ & _ & _ & _).
  split; [exact H|reflexivity].
Defined.

(** C4 as stated fails: a configuration with a duplicate (path, method)
    pair, a path that is no path and the API key required without a usage
    plan is composed to completion, declaring 15 resources and no key. *)
Lemma misshapen_configuration_is_composed :
  ¬ NoDup (pathMethods misshapen) ∧
  ApiKeyRequired misshapen = true ∧ UsagePlanLimit misshapen = None ∧
  ∃ gw log',
    exec acceptAll (NewAPIGateway acceptAll "users-api" (Some misshapen) []) []
      = (Ok gw, log') ∧
    length log' = 15 ∧ Component.APIKey gw = None.
Proof.
  split_and!; [|done..|].
  - intros Hnd. apply NoDup_cons in Hnd as [Hin _].
    apply Hin. by left.
  - eexists _, _. split_and!; [vm_compute; reflexivity|reflexivity..].
Qed.

(** ** The deployment trigger *)

Lemma str_app_cons (x : ascii) (a b : string) :
  String x a +:+ b = String x (a +:+ b).
Proof. done. Qed.

Lemma str_app_nil_r (s : string) : s +:+ "" = s.
Proof. induction s as [|a s IH]; [done|]. by rewrite str_app_cons, IH. Qed.

Lemma str_app_assoc (a b c : string) : (a +:+ b) +:+ c = a +:+ b +:+ c.
Proof. induction a as [|x a IH]; [done|]. by rewrite !str_app_cons, IH. Qed.

Lemma str_app_length (a b : string) :
  String.length (a +:+ b) = String.length a + String.length b.
Proof.
  induction a as [|x a IH]; [done|]. rewrite str_app_cons. cbn. by rewrite IH.
Qed.

Lemma str_app_inj_r (a b c : string) : a +:+ c = b +:+ c → a = b.
Proof.
  revert b. induction a as [|x a IH]; intros [|y b] H; [done| | |].
  - apply (f_equal String.length) in H.
    rewrite !str_app_length in H. cbn in H. lia.
  - apply (f_equal String.length) in H.
    rewrite !str_app_length in H. cbn in H. lia.
  - rewrite !str_app_cons in H. injection H as -> H. f_equal. by apply IH.
Qed.

(** A string between the same two strings. *)
Lemma str_app_sandwich (l x y r : string) :
  l +:+ x +:+ r = l +:+ y +:+ r → x = y.
Proof. intros H. apply (inj _) in H. by apply str_app_inj_r in H. Qed.

Lemma joinWith_cons sep x l : joinWith sep (x :: l) = x +:+ joinedAfter sep l.
Proof.
  revert x. induction l as [|y l IH]; intros x.
  - by rewrite str_app_nil_r.
  - change (joinWith sep (x :: y :: l)) with
      (x +:+ sep +:+ joinWith sep (y :: l)).
    by rewrite IH.
Qed.

Lemma joinWith_app_cons sep l1 x l2 :
  joinWith sep (l1 ++ x :: l2) =
  joinedBefore sep l1 +:+ x +:+ joinedAfter sep l2.
Proof.
  induction l1 as [|y l1 IH]; [apply joinWith_cons|].
  change (joinedBefore sep (y :: l1)) with (y +:+ sep +:+ joinedBefore sep l1).
  rewrite !str_app_assoc, <- IH.
  by destruct l1.
Qed.

Lemma fmtEndpoints_app_cons pre e post :
  fmtEndpoints (pre ++ e :: post) =
  ("[" +:+ joinedBefore " " (fmtEndpoint <$> pre)) +:+ fmtEndpoint e +:+
  joinedAfter " " (fmtEndpoint <$> post) +:+ "]".
Proof.
  unfold fmtEndpoints.
  by rewrite fmap_app, fmap_cons, joinWith_app_cons, !str_app_assoc.
Qed.

Lemma fingerprint_deploymentReg name config comp restAPI :
  fingerprint (deploymentReg name config comp restAPI) =
  Some (fmtEndpoints (Endpoints config)).
Proof. unfold fingerprint. cbn. by rewrite lookup_singleton_eq. Qed.

(** C3, as the code has it: the trigger is [%v] of the endpoint list, so
    it is a function of that list (order and handler addresses included) and
    of nothing else in the configuration; and changing the path, the method
    or the authorization of one endpoint, everything else staying in place,
    changes it. *)
Theorem fingerprint_of_endpoint_list name comp restAPI :
  (∀ config,
     fingerprint (deploymentReg name config comp restAPI) =
     Some (fmtEndpoints (Endpoints config))) ∧
  (∀ config config',
     Endpoints config = Endpoints config' →
     fingerprint (deploymentReg name config comp restAPI) =
     fingerprint (deploymentReg name config' comp restAPI)) ∧
  (∀ pre post e path,
     path ≠ Endpoint.Path e →
     fmtEndpoints (pre ++ withPath path e :: post) ≠
     fmtEndpoints (pre ++ e :: post)) ∧
  (∀ pre post e method,
     method ≠ Endpoint.Method e →
     fmtEndpoints (pre ++ withMethod method e :: post) ≠
     fmtEndpoints (pre ++ e :: post)) ∧
  (∀ pre post e authorization,
     authorization ≠ Endpoint.Authorization e →
     fmtEndpoints (pre ++ withAuthorization authorization e :: post) ≠
     fmtEndpoints (pre ++ e :: post)).
Proof.
  split_and!.
  - intros config. apply fingerprint_deploymentReg.
  - intros config config' Heq.
    by rewrite !fingerprint_deploymentReg, Heq.
  - intros pre post e path Hne Heq. apply Hne.
    rewrite !fmtEndpoints_app_cons in Heq. unfold fmtEndpoint in Heq.
    cbn [withPath Endpoint.Path Endpoint.Method Endpoint.LambdaFunc
         Endpoint.Authorization Endpoint.ApiKeyRequired
         Endpoint.RequestParameters Endpoint.RequestModels] in Heq.
    rewrite !str_app_assoc in Heq.
    do 3 apply (inj _) in Heq. by apply str_app_inj_r in Heq.
  - intros pre post e method Hne Heq. apply Hne.
    rewrite !fmtEndpoints_app_cons in Heq. unfold fmtEndpoint in Heq.
    cbn [withMethod Endpoint.Path Endpoint.Method Endpoint.LambdaFunc
         Endpoint.Authorization Endpoint.ApiKeyRequired
         Endpoint.RequestParameters Endpoint.RequestModels] in Heq.
    rewrite !str_app_assoc in Heq.
    do 5 apply (inj _) in Heq. by apply str_app_inj_r in Heq.
  - intros pre post e authorization Hne Heq. apply Hne.
    rewrite !fmtEndpoints_app_cons in Heq. unfold fmtEndpoint in Heq.
    cbn [withAuthorization Endpoint.Path Endpoint.Method Endpoint.LambdaFunc
         Endpoint.Authorization Endpoint.ApiKeyRequired
         Endpoint.RequestParameters Endpoint.RequestModels] in Heq.
    rewrite !str_app_assoc in Heq.
    do 9 apply (inj _) in Heq. by apply str_app_inj_r in Heq.
Qed.

Lemma fingerprint_of_endpoint_list_witness :
  "PUT" ≠ Endpoint.Method getUsers ∧
  fmtEndpoints ([] ++ withMethod "PUT" getUsers :: [createUser]) ≠
  fmtEndpoints ([] ++ getUsers :: [createUser]).
Proof.
  assert (H : "PUT" ≠ Endpoint.Method getUsers) by done.
  split; [exact H|].
  destruct (fingerprint_of_endpoint_list "users-api" (Local 0) (Local 1))
    as (_ & _ & _ & Hmethod & _).
  exact (Hmethod [] [createUser] getUsers "PUT" H).
Defined.

(** C3 as stated fails twice: the same endpoints in another order give
    another trigger, and two endpoint lists that differ in the path and the
    method of their endpoint give the same trigger. *)
Lemma fingerprint_order_and_collision :
  ([getUsers; createUser] ≡ₚ [createUser; getUsers] ∧
   triggerOf [getUsers; createUser] ≠ triggerOf [createUser; getUsers]) ∧
  (Endpoint.Path filesReports ≠ Endpoint.Path reportsOfFiles ∧
   Endpoint.Method filesReports ≠ Endpoint.Method reportsOfFiles ∧
   triggerOf [filesReports] = triggerOf [reportsOfFiles]).
Proof.
  split_and!.
  - apply Permutation_swap.
  - intros H. vm_compute in H. discriminate H.
  - done.
  - done.
  - by vm_compute.
Qed.

(** ** The path tree, as the code builds it *)

(** C1 at [/users/{id}] and [/users/{id}/profile]: [splitPath] hands back the
    whole path as one part, so each endpoint gets a resource of its own whose
    path part is its whole path and whose parent is the root; there is no
    node for [users] or [{id}] that the two would share, and the second
    endpoint's method hangs off another leaf than anything of the first. *)
Theorem shared_prefix_gets_separate_nodes :
  resourceNodes (pathsLog ["/users/{id}"; "/users/{id}/profile"]) =
    [(PropOf (Local 1) "rootResourceId", "/users/{id}");
     (PropOf (Local 1) "rootResourceId", "/users/{id}/profile")] ∧
  methodLeaves (pathsLog ["/users/{id}"; "/users/{id}/profile"]) =
    [PropOf (Local 2) "id"; PropOf (Local 6) "id"] ∧
  splitPath "/users/{id}/profile" = ["/users/{id}/profile"].
Proof. by vm_compute. Qed.

(** C2 at [/a/b/], [/a/b] and [//a//b]: no separator is split on and no empty
    segment arises to be skipped, so the three paths resolve to three
    different leaves, each a child of the root named by the whole path. *)
Theorem unnormalized_paths_get_separate_leaves :
  resourceNodes (pathsLog ["/a/b/"; "/a/b"; "//a//b"]) =
    [(PropOf (Local 1) "rootResourceId", "/a/b/");
     (PropOf (Local 1) "rootResourceId", "/a/b");
     (PropOf (Local 1) "rootResourceId", "//a//b")] ∧
  methodLeaves (pathsLog ["/a/b/"; "/a/b"; "//a//b"]) =
    [PropOf (Local 2) "id"; PropOf (Local 6) "id"; PropOf (Local 10) "id"].
Proof. by vm_compute. Qed.

(** C7 at the two bare root paths: the empty path yields the root itself
    and no child, as claimed; the path [/] yields a child resource whose path
    part is [/], and the method attaches to that child. *)
Theorem root_path_slash_creates_a_child :
  (resourceNodes (pathsLog [""]) = [] ∧
   methodLeaves (pathsLog [""]) = [PropOf (Local 1) "rootResourceId"]) ∧
  (resourceNodes (pathsLog ["/"]) =
     [(PropOf (Local 1) "rootResourceId", "/")] ∧
   methodLeaves (pathsLog ["/"]) = [PropOf (Local 2) "id"]).
Proof. by vm_compute. Qed.


(** * Further properties of the API gateway constructor *)

(** ** The path loop and its memo *)

Section PathLoop.
Variable name : string.
Variable comp : Handle.
Variable restAPI : Handle.

(** A walk declares at most one resource per part that is not empty, only
    adds to the memo, one entry per declaration, and ends at what the memo
    then resolves the parts to. *)
Lemma walkPath_grows parts parentPath resource resources base leaf resources' :
  outcome (walkPath name comp restAPI parts parentPath resource resources)
    base = Ok (leaf, resources') →
  resources ⊆ resources' ∧
  resolve resources' parts parentPath resource = Some leaf ∧
  size resources' =
    size resources +
    length (regs (walkPath name comp restAPI parts parentPath resource
                    resources) base) ∧
  length (regs (walkPath name comp restAPI parts parentPath resource
                  resources) base) ≤ length (segments parts).
Proof.
  revert parentPath resource resources base.
  induction parts as [|pathPart rest IH];
    intros parentPath resource resources base; cbn [walkPath resolve].
  { intros [= <- <-]. split_and!; [done..|]. cbn. lia. }
  unfold segments. rewrite filter_cons. fold (segments rest).
  destruct (decide (pathPart = "")) as [Hempty|Hpart].
  { rewrite decide_False by (by intros []). apply IH. }
  rewrite decide_True by done.
  destruct (resources !! (parentPath +:+ pathPart)) as [existing|] eqn:Hmemo.
  - intros Hwalk. apply IH in Hwalk as (Hsub & Hleaf & Hsize & Hlen).
    rewrite (lookup_weaken _ _ _ _ Hmemo Hsub).
    split_and!; [done..|]. cbn [length]. lia.
  - rewrite outcome_bind, regs_bind, outcome_create, regs_create.
    intros Hwalk. apply IH in Hwalk as (Hsub & Hleaf & Hsize & Hlen).
    assert (Hins : resources ⊆ <[parentPath +:+ pathPart := Local base]>
                                 resources) by (by apply insert_subseteq).
    rewrite (lookup_weaken _ _ (parentPath +:+ pathPart) (Local base)
               (lookup_insert_eq _ _ _) Hsub).
    rewrite map_size_insert_None in Hsize by done.
    split_and!; [by etrans|done| |]; cbn [length app] in *; lia.
Qed.

(** What a memo resolves, every larger memo resolves alike. *)
Lemma resolve_mono resources resources' parts parentPath resource leaf :
  resolve resources parts parentPath resource = Some leaf →
  resources ⊆ resources' →
  resolve resources' parts parentPath resource = Some leaf.
Proof.
  intros Hres Hsub. revert parentPath resource Hres.
  induction parts as [|pathPart rest IH]; intros parentPath resource;
    cbn [resolve]; [done|].
  case_decide; [apply IH|].
  destruct (resources !! (parentPath +:+ pathPart)) as [existing|] eqn:Hmemo;
    [|done].
  rewrite (lookup_weaken _ _ _ _ Hmemo Hsub). apply IH.
Qed.

(** A walk over parts the memo resolves declares nothing. *)
Lemma walkPath_resolved parts parentPath resource resources base leaf :
  resolve resources parts parentPath resource = Some leaf →
  trace (walkPath name comp restAPI parts parentPath resource resources) base
  = (Ok (leaf, resources), []).
Proof.
  revert parentPath resource.
  induction parts as [|pathPart rest IH]; intros parentPath resource;
    cbn [walkPath resolve]; [by intros [= <-]|].
  case_decide; [apply IH|].
  destruct (resources !! (parentPath +:+ pathPart)); [apply IH|done].
Qed.
End PathLoop.

(** X1: a walk of the path loop that completes declares at most one resource
    per part that is not empty, and exactly as many as it adds entries to the
    memo, none of which it overwrites.  Walking the same parts from the same
    place again, over that memo or any memo that extends it, declares nothing,
    leaves the memo alone and ends at the same leaf, whatever the provider
    would say. *)
Theorem path_walk_is_memoized ctx ctx' name comp restAPI parts parentPath
    resource resources log leaf resources' log' later log2 :
  exec ctx (walkPath name comp restAPI parts parentPath resource resources)
    log = (Ok (leaf, resources'), log') →
  resources' ⊆ later →
  resources ⊆ resources' ∧
  (∃ created,
     log' = log ++ created ∧
     Forall (λ r, kind r = KResource) created ∧
     length created ≤ length (segments parts) ∧
     size resources' = size resources + length created) ∧
  exec ctx' (walkPath name comp restAPI parts parentPath resource later) log2
  = (Ok (leaf, later), log2).
Proof.
  intros Hexec Hlater.
  apply exec_ok in Hexec as [Hout ->]; [|apply FailFast_walkPath].
  pose proof (walkPath_grows _ _ _ _ _ _ _ _ _ _ Hout)
    as (Hsub & Hleaf & Hsize & Hlen).
  split_and!; [done| |].
  - eexists. split_and!; [done|apply walkPath_kinds|done..].
  - pose proof (resolve_mono _ _ _ _ _ _ Hleaf Hlater) as Hagain.
    apply (walkPath_resolved name comp restAPI) with (base := length log2)
      in Hagain.
    destruct (exec_cases ctx' (walkPath name comp restAPI parts parentPath
                                 resource later) log2
                (FailFast_walkPath _ _ _ _ _ _ _))
      as [[_ H]|(n & r & err & what & Hn & _)].
    + rewrite H. unfold outcome, regs. rewrite Hagain. cbn.
      by rewrite app_nil_r.
    + unfold regs in Hn. rewrite Hagain in Hn. cbn [snd] in Hn.
      by rewrite lookup_nil in Hn.
Qed.

(** A run whose result is known, with its log left as it is. *)
Lemma run_eq {A} (run : result A * list Registration) (a : A) :
  run.1 = Ok a → run = (Ok a, run.2).
Proof. destruct run as [res log']. by intros [= ->]. Qed.

Lemma path_walk_is_memoized_witness :
  ∃ leaf memo log',
    exec acceptAll usersById [] = (Ok (leaf, memo), log') ∧
    memo ⊆ memo ∧ length log' = 2 ∧
    exec refuseDeployments
      (walkPath "api" (Local 0) (Local 1) ["users"; ""; "{id}"] "/"
         (PropOf (Local 1) "rootResourceId") memo) log' =
    (Ok (leaf, memo), log').
Proof.
  eexists _, _, (exec acceptAll usersById []).2.
  assert (H : exec acceptAll usersById [] =
              (Ok (_, _), (exec acceptAll usersById []).2))
    by (apply run_eq; vm_compute; reflexivity).
  pose proof H as Hagain.
  eapply (path_walk_is_memoized acceptAll refuseDeployments) in Hagain
    as (_ & _ & Hagain); [|reflexivity].
  split_and!; [exact H|reflexivity|by vm_compute|apply Hagain].
Defined.

(** ** The endpoint loop and its memo *)

Section EndpointLoop.
Variable ctx : Context.
Variable name : string.
Variable config : APIGatewayConfig.
Variable comp : Handle.
Variable restAPI : Handle.
Variable authorizer : option Handle.

Lemma wireEndpoint_tree endpoint resources base resources' :
  outcome (wireEndpoint ctx name config comp restAPI authorizer endpoint
             resources) base = Ok resources' →
  resources ⊆ resources' ∧
  size resources' =
    size resources +
    length (filter (λ r, kind r = KResource)
              (regs (wireEndpoint ctx name config comp restAPI authorizer
                       endpoint resources) base)) ∧
  ∃ leaf,
    leafIn resources' restAPI (Endpoint.Path endpoint) = Some leaf ∧
    EndpointBlock ctx name config comp restAPI authorizer endpoint
      (regs (wireEndpoint ctx name config comp restAPI authorizer endpoint
               resources) base) leaf.
Proof.
  unfold wireEndpoint, leafIn.
  rewrite outcome_bind, regs_bind.
  destruct (walkPath_outcome name comp restAPI
              (splitPath (Endpoint.Path endpoint)) "/"
              (PropOf restAPI "rootResourceId") resources base)
    as (leaf & res1 & Hwalk).
  rewrite Hwalk.
  pose proof (walkPath_grows _ _ _ _ _ _ _ _ _ _ Hwalk)
    as (Hsub & Hleaf & Hsize & _).
  pose proof (walkPath_kinds name comp restAPI
                (splitPath (Endpoint.Path endpoint)) "/"
                (PropOf restAPI "rootResourceId") resources base) as Hkinds.
  set (created := regs (walkPath _ _ _ _ _ _ _) _) in *.
  rewrite outcome_bind, regs_bind, outcome_create, regs_create.
  destruct (Endpoint.LambdaFunc endpoint) as [lambdaFunc|] eqn:Hfunc; [|done].
  rewrite !outcome_bind, !regs_bind, !outcome_create, !regs_create.
  assert (Hres : ∀ tail,
             Forall (λ r, kind r ≠ KResource) tail →
             length (filter (λ r, kind r = KResource) (created ++ tail)) =
             length created).
  { intros tail Htail.
    by rewrite filter_app, (filter_all _ created), (filter_none _ tail),
      app_nil_r. }
  destruct (EnableCORS config) eqn:Hcors.
  - rewrite !outcome_bind, !regs_bind, !outcome_create, !regs_create.
    rewrite regs_ret. cbn [app]. intros [= <-].
    split_and!; [done| |].
    + rewrite Hres; [done|by repeat constructor].
    + exists leaf. split; [done|].
      exists created, (Local (base + length created)), lambdaFunc.
      rewrite Hcors. by split_and!.
  - rewrite regs_ret. cbn [app]. intros [= <-].
    split_and!; [done| |].
    + rewrite Hres; [done|by repeat constructor].
    + exists leaf. split; [done|].
      exists created, (Local (base + length created)), lambdaFunc.
      rewrite Hcors. by split_and!.
Qed.

Lemma wireEndpoints_tree endpoints resources base memo :
  outcome (wireEndpoints ctx name config comp restAPI authorizer endpoints
             resources) base = Ok memo →
  resources ⊆ memo ∧
  ∃ blocks,
    regs (wireEndpoints ctx name config comp restAPI authorizer endpoints
            resources) base = concat blocks ∧
    size memo =
      size resources +
      length (filter (λ r, kind r = KResource) (concat blocks)) ∧
    Forall2 (λ endpoint block,
               ∃ leaf,
                 leafIn memo restAPI (Endpoint.Path endpoint) = Some leaf ∧
                 EndpointBlock ctx name config comp restAPI authorizer
                   endpoint block leaf)
      endpoints blocks.
Proof.
  revert resources base.
  induction endpoints as [|endpoint rest IH]; intros resources base;
    cbn [wireEndpoints].
  { intros [= <-]. split; [done|]. exists []. split_and!; [done| |done].
    cbn. lia. }
  rewrite outcome_bind, regs_bind.
  destruct (outcome (wireEndpoint _ _ _ _ _ _ _ _) _) as [res1| |] eqn:Hone;
    [|done..].
  intros Hrest.
  apply wireEndpoint_tree in Hone as (Hsub1 & Hsize1 & leaf & Hleaf & Hblock).
  apply IH in Hrest as (Hsub & blocks & -> & Hsize & Hblocks).
  split; [by etrans|].
  eexists (_ :: blocks). split_and!; [done| |].
  - cbn [concat]. rewrite filter_app, length_app. lia.
  - constructor; [|done]. exists leaf. split; [|done].
    by eapply resolve_mono.
Qed.
End EndpointLoop.

(** A completed run once more, with the memo of the endpoint loop and all
    that the component exports. *)
Lemma NewAPIGateway_trace_tree ctx name config opts base gw :
  outcome (NewAPIGateway ctx name (Some config) opts) base = Ok gw →
  ∃ blocks memo,
    regs (NewAPIGateway ctx name (Some config) opts) base =
      layout name config opts base blocks ∧
    Forall2 (λ endpoint block,
               ∃ leaf,
                 leafIn memo (Local (S base)) (Endpoint.Path endpoint) =
                   Some leaf ∧
                 EndpointBlock ctx name config (Local base) (Local (S base))
                   (authorizerAt config (S (S base))) endpoint block leaf)
      (Endpoints config) blocks ∧
    size memo = length (filter (λ r, kind r = KResource) (concat blocks)) ∧
    length (keyRegs name config (Local base) (Local (S base))
              (Local (S (deploymentAt config base blocks)))
              (S (S (deploymentAt config base blocks)))) =
      (if keyed config then 3 else 0) ∧
    gw = exported ctx config base blocks.
Proof.
  unfold NewAPIGateway, compose, layout, exported.
  rewrite outcome_bind, regs_bind, outcome_create, regs_create.
  rewrite outcome_bind, regs_bind, outcome_create, regs_create.
  rewrite outcome_bind, regs_bind, outcome_authorizer, regs_authorizer.
  rewrite outcome_bind, regs_bind.
  cbn [length]. rewrite !Nat.add_1_r.
  set (comp := Local base). set (restAPI := Local (S base)).
  destruct (outcome (wireEndpoints _ _ _ _ _ _ _ _) _) as [memo| |] eqn:Hwire;
    [|done..].
  apply wireEndpoints_tree in Hwire as (_ & blocks & Hregs & Hsize & Hblocks).
  rewrite length_authorizerRegs in Hregs |- *.
  rewrite Hregs.
  rewrite outcome_bind, regs_bind, outcome_create, regs_create.
  rewrite outcome_bind, regs_bind, outcome_create, regs_create.
  rewrite outcome_bind, regs_bind, regs_keyAndPlan.
  cbn [length]. rewrite !Nat.add_1_r.
  change (S (S base) + length (option_list (AuthorizerFunc config)) +
          length (concat blocks)) with (deploymentAt config base blocks).
  set (d := deploymentAt config base blocks).
  destruct (outcome (keyAndPlan _ _ _ _ _) _) as [[apiKey usagePlan]| |]
    eqn:Hkeys; [|done..].
  apply outcome_keyAndPlan in Hkeys.
  rewrite outcome_bind, regs_bind, outcome_customDomain, regs_customDomain.
  intros [= <-]. exists blocks, memo. cbn zeta.
  rewrite regs_ret, app_nil_r, map_size_empty in *.
  assert (Hidx : ∀ k,
             S (S (S (S (base + length (option_list (AuthorizerFunc config)) +
                         length (concat blocks) + k)))) = S (S d) + k)
    by (intros k; unfold d, deploymentAt; lia).
  rewrite Hidx.
  split_and!; [done..| |].
  - destruct (keyed config).
    + destruct Hkeys as (_ & _ & limit & quota & throttle & _ & _ & _ & Hk).
      exact (f_equal length Hk).
    + destruct Hkeys as (_ & _ & Hk). exact (f_equal length Hk).
  - destruct (keyed config).
    + by destruct Hkeys
        as (-> & -> & limit & quota & throttle & _ & _ & _ & ->).
    + by destruct Hkeys as (-> & -> & ->).
Qed.

Lemma NewAPIGateway_exec_tree ctx name config opts log gw log' :
  exec ctx (NewAPIGateway ctx name (Some config) opts) log = (Ok gw, log') →
  ∃ blocks memo,
    log' = log ++ layout name config opts (length log) blocks ∧
    Forall2 (λ endpoint block,
               ∃ leaf,
                 leafIn memo (Local (S (length log))) (Endpoint.Path endpoint)
                   = Some leaf ∧
                 EndpointBlock ctx name config (Local (length log))
                   (Local (S (length log)))
                   (authorizerAt config (S (S (length log)))) endpoint block
                   leaf)
      (Endpoints config) blocks ∧
    size memo = length (filter (λ r, kind r = KResource) (concat blocks)) ∧
    length (keyRegs name config (Local (length log)) (Local (S (length log)))
              (Local (S (deploymentAt config (length log) blocks)))
              (S (S (deploymentAt config (length log) blocks)))) =
      (if keyed config then 3 else 0) ∧
    gw = exported ctx config (length log) blocks.
Proof.
  intros Hexec.
  apply exec_ok in Hexec as [Hout ->]; [|apply FailFast_NewAPIGateway].
  apply NewAPIGateway_trace_tree in Hout
    as (blocks & memo & -> & Hblocks & Hsize & Hkeys & ->).
  by exists blocks, memo.
Qed.

Lemma elem_of_concat {A} (x : A) (l : list A) (ls : list (list A)) :
  l ∈ ls → x ∈ l → x ∈ concat ls.
Proof.
  intros Hl Hx. induction ls as [|l' ls IH]; [by apply elem_of_nil in Hl|].
  cbn [concat]. apply elem_of_app.
  apply elem_of_cons in Hl as [->|Hl]; [by left|right; by apply IH].
Qed.

(** Every declaration of a block is a declaration of the layout. *)
Lemma block_in_layout name config opts base blocks block r :
  block ∈ blocks → r ∈ block → r ∈ layout name config opts base blocks.
Proof.
  intros Hblock Hr. unfold layout.
  do 2 apply list_elem_of_further.
  apply elem_of_app. right. apply elem_of_app. left.
  by eapply elem_of_concat.
Qed.

Lemma method_in_block ctx name config comp restAPI authorizer endpoint block
    leaf :
  EndpointBlock ctx name config comp restAPI authorizer endpoint block leaf →
  methodReg name comp restAPI authorizer endpoint leaf ∈ block.
Proof.
  intros (created & method & lambdaFunc & _ & _ & ->).
  apply elem_of_app. right. by left.
Qed.

(** The resource declarations of a layout are those of its blocks. *)
Lemma filter_resources_layout ctx name config opts base blocks authorizer :
  Forall2 (λ endpoint block,
             ∃ leaf, EndpointBlock ctx name config (Local base)
                       (Local (S base)) authorizer endpoint block leaf)
    (Endpoints config) blocks →
  filter (λ r, kind r = KResource) (layout name config opts base blocks) =
  filter (λ r, kind r = KResource) (concat blocks).
Proof.
  intros Hblocks. unfold layout.
  assert (Hno : ∀ ks l, Forall (λ k, k ≠ KResource) ks →
                        Forall (λ r, kind r ∈ ks) l →
                        filter (λ r, kind r = KResource) l = []).
  { intros ks l Hks Hl. apply filter_none.
    eapply Forall_impl; [exact Hl|]. intros r Hr Hkind.
    rewrite Forall_forall in Hks. apply (Hks (kind r)); [exact Hr|done]. }
  rewrite !filter_cons_False by done.
  rewrite !filter_app.
  rewrite (Hno [KAuthorizer] (authorizerRegs _ _ _ _));
    [|by repeat constructor|].
  2:{ eapply Forall_impl; [apply authorizerRegs_kinds|].
      intros r ->. by repeat constructor. }
  rewrite !filter_cons_False by done.
  rewrite (Hno [KApiKey; KUsagePlan; KUsagePlanKey; KDomainName;
                KBasePathMapping] (_ ++ _));
    [|by repeat constructor|apply features_kinds].
  by rewrite app_nil_r.
Qed.

(** A completed run has run the endpoint loop to completion, from the empty
    memo and the position after the authorizer. *)
Lemma NewAPIGateway_trace_loop ctx name config opts base gw :
  outcome (NewAPIGateway ctx name (Some config) opts) base = Ok gw →
  ∃ memo,
    outcome (wireEndpoints ctx name config (Local base) (Local (S base))
               (authorizerAt config (S (S base))) (Endpoints config) ∅)
      (S (S base) + length (option_list (AuthorizerFunc config))) = Ok memo.
Proof.
  unfold NewAPIGateway, compose.
  rewrite outcome_bind, regs_create, outcome_create.
  rewrite outcome_bind, regs_create, outcome_create.
  rewrite outcome_bind, outcome_authorizer, regs_authorizer.
  rewrite outcome_bind.
  cbn [length]. rewrite !Nat.add_1_r, length_authorizerRegs.
  destruct (outcome (wireEndpoints _ _ _ _ _ _ _ _) _) as [memo| |] eqn:Hwire;
    [|done..].
  intros _. by exists memo.
Qed.

(** A completed run, with its endpoint loop: the memo the loop ends with,
    the blocks it declares, and where the deployment is. *)
Lemma NewAPIGateway_trace_memo ctx name config opts base gw :
  outcome (NewAPIGateway ctx name (Some config) opts) base = Ok gw →
  ∃ blocks memo,
    trace (wireEndpoints ctx name config (Local base) (Local (S base))
             (authorizerAt config (S (S base))) (Endpoints config) ∅)
      (S (S base) + length (option_list (AuthorizerFunc config))) =
      (Ok memo, concat blocks) ∧
    regs (NewAPIGateway ctx name (Some config) opts) base =
      layout name config opts base blocks ∧
    Forall2 (λ endpoint block,
               ∃ leaf,
                 leafIn memo (Local (S base)) (Endpoint.Path endpoint) =
                   Some leaf ∧
                 EndpointBlock ctx name config (Local base) (Local (S base))
                   (authorizerAt config (S (S base))) endpoint block leaf)
      (Endpoints config) blocks ∧
    size memo = length (filter (λ r, kind r = KResource) (concat blocks)) ∧
    Component.Deployment gw = Local (deploymentAt config base blocks).
Proof.
  unfold NewAPIGateway, compose, layout.
  rewrite outcome_bind, regs_bind, outcome_create, regs_create.
  rewrite outcome_bind, regs_bind, outcome_create, regs_create.
  rewrite outcome_bind, regs_bind, outcome_authorizer, regs_authorizer.
  rewrite outcome_bind, regs_bind.
  cbn [length]. rewrite !Nat.add_1_r, length_authorizerRegs.
  set (comp := Local base). set (restAPI := Local (S base)).
  destruct (outcome (wireEndpoints _ _ _ _ _ _ _ _) _) as [memo| |] eqn:Hwire;
    [|done..].
  pose proof Hwire as Hloop.
  apply wireEndpoints_tree in Hwire as (_ & blocks & Hregs & Hsize & Hblocks).
  rewrite Hregs.
  rewrite outcome_bind, regs_bind, outcome_create, regs_create.
  rewrite outcome_bind, regs_bind, outcome_create, regs_create.
  rewrite outcome_bind, regs_bind, regs_keyAndPlan.
  cbn [length]. rewrite !Nat.add_1_r.
  change (S (S base) + length (option_list (AuthorizerFunc config)) +
          length (concat blocks)) with (deploymentAt config base blocks).
  set (d := deploymentAt config base blocks).
  destruct (outcome (keyAndPlan _ _ _ _ _) _) as [[apiKey usagePlan]| |]
    eqn:Hkeys; [|done..].
  rewrite outcome_bind, regs_bind, outcome_customDomain, regs_customDomain.
  intros [= <-]. exists blocks, memo. cbn zeta.
  rewrite regs_ret, app_nil_r, map_size_empty in *.
  assert (Hidx : ∀ k,
             S (S (S (S (base + length (option_list (AuthorizerFunc config)) +
                         length (concat blocks) + k)))) = S (S d) + k)
    by (intros k; unfold d, deploymentAt; lia).
  rewrite Hidx.
  split_and!; [|done..].
  unfold outcome in Hloop. unfold regs in Hregs.
  destruct (trace _ _) as [res l]. simpl in *. by subst.
Qed.

(** X2: a composition that completes has run the endpoint loop from the
    empty memo, over the log as the authorizer step left it and up to the
    deployment.  The resources the composition declares are as many as the
    entries of the memo the loop ended with; every endpoint's method is
    declared by the loop on the leaf that memo resolves the endpoint's path
    to; so the methods of two endpoints with the same path are attached to
    the same resource. *)
Theorem equal_paths_share_a_leaf ctx name config opts log gw log' :
  exec ctx (NewAPIGateway ctx name (Some config) opts) log = (Ok gw, log') →
  let comp := Local (length log) in
  let restAPI := Local (S (length log)) in
  let authorizer := authorizerAt config (S (S (length log))) in
  let attached endpoint leaf authorizerId :=
    {| reg_name :=
         name +:+ "-" +:+ Endpoint.Method endpoint +:+ "-" +:+
         Endpoint.Path endpoint;
       reg_args :=
         MethodArgs (PropOf restAPI "id") leaf (Endpoint.Method endpoint)
           (Endpoint.Authorization endpoint)
           (Endpoint.ApiKeyRequired endpoint) authorizerId
           (Endpoint.RequestParameters endpoint);
       reg_opts := [Parent comp] |} in
  ∃ memo before wired after,
    log' = before ++ wired ++ after ∧
    length before =
      S (S (length log)) + length (option_list (AuthorizerFunc config)) ∧
    Component.Deployment gw = Local (length (before ++ wired)) ∧
    exec ctx
      (wireEndpoints ctx name config comp restAPI authorizer
         (Endpoints config) ∅) before = (Ok memo, before ++ wired) ∧
    length (filter (λ r, kind r = KResource) (drop (length log) log')) =
      size memo ∧
    (∀ endpoint,
       endpoint ∈ Endpoints config →
       ∃ leaf authorizerId,
         leafIn memo restAPI (Endpoint.Path endpoint) = Some leaf ∧
         attached endpoint leaf authorizerId ∈ wired) ∧
    ∀ e1 e2,
      e1 ∈ Endpoints config → e2 ∈ Endpoints config →
      Endpoint.Path e1 = Endpoint.Path e2 →
      ∃ leaf authorizerId1 authorizerId2,
        attached e1 leaf authorizerId1 ∈ wired ∧
        attached e2 leaf authorizerId2 ∈ wired.
Proof.
  intros Hexec comp restAPI authorizer attached.
  destruct (exec_cases ctx (NewAPIGateway ctx name (Some config) opts) log
              (FailFast_NewAPIGateway _ _ _ _))
    as [[Hacc H]|(n & r & err & what & _ & _ & H)];
    rewrite H in Hexec; [|done].
  injection Hexec as Hout <-.
  apply NewAPIGateway_trace_memo in Hout
    as (blocks & memo & Hloop & Hlayout & Hblocks & Hsize & Hdep).
  rewrite Hlayout in Hacc |- *.
  set (before := log ++ componentReg name opts ::
                   restApiReg name config comp ::
                   authorizerRegs name config comp restAPI).
  assert (Hbefore : length before =
                    S (S (length log)) +
                    length (option_list (AuthorizerFunc config))).
  { unfold before. rewrite length_app. cbn [length].
    rewrite length_authorizerRegs. lia. }
  assert (Hleaf : ∀ endpoint,
            endpoint ∈ Endpoints config →
            ∃ leaf authorizerId,
              leafIn memo restAPI (Endpoint.Path endpoint) = Some leaf ∧
              attached endpoint leaf authorizerId ∈ concat blocks).
  { intros endpoint Hin.
    apply list_elem_of_lookup in Hin as [i Hi].
    destruct (Forall2_lookup_l _ _ _ _ _ Hblocks Hi)
      as (block & Hblock & leaf & Hleaf & HB).
    exists leaf. eexists. split; [done|].
    eapply elem_of_concat; [by eapply list_elem_of_lookup_2|].
    apply method_in_block in HB. exact HB. }
  eexists memo, before, (concat blocks), _.
  split_and!.
  - unfold layout, before. rewrite <- !app_assoc. cbn [app]. reflexivity.
  - done.
  - rewrite Hdep, length_app, Hbefore. done.
  - destruct (exec_cases ctx
                (wireEndpoints ctx name config comp restAPI authorizer
                   (Endpoints config) ∅) before
                (FailFast_wireEndpoints _ _ _ _ _ _ _ _))
      as [[_ Hrun]|(n & r & err & what & Hn & Hr & _)].
    + rewrite Hrun. unfold outcome, regs. rewrite Hbefore.
      fold comp restAPI authorizer in Hloop. by rewrite Hloop.
    + unfold regs in Hn. rewrite Hbefore in Hn.
      fold comp restAPI authorizer in Hloop. rewrite Hloop in Hn.
      cbn [snd] in Hn. apply list_elem_of_lookup_2 in Hn.
      rewrite Forall_forall in Hacc.
      rewrite Hacc in Hr; [done|].
      unfold layout. do 2 apply list_elem_of_further.
      apply elem_of_app. right. apply elem_of_app. by left.
  - rewrite drop_app_length, Hsize. f_equal.
    eapply filter_resources_layout.
    eapply Forall2_impl; [exact Hblocks|].
    intros endpoint block (leaf & _ & HB). by exists leaf.
  - done.
  - intros e1 e2 H1 H2 Hpath.
    destruct (Hleaf e1 H1) as (leaf1 & a1 & Hl1 & Hm1).
    destruct (Hleaf e2 H2) as (leaf2 & a2 & Hl2 & Hm2).
    rewrite Hpath, Hl2 in Hl1. injection Hl1 as <-.
    by exists leaf2, a1, a2.
Qed.

Lemma equal_paths_share_a_leaf_witness :
  ∃ gw log' memo leaf,
    exec acceptAll (NewAPIGateway acceptAll "users-api" (Some usersApi) []) []
      = (Ok gw, log') ∧
    length (filter (λ r, kind r = KResource) (drop 0 log')) = size memo ∧
    leafIn memo (Local 1) "/users" = Some leaf.
Proof.
  eexists _, (exec acceptAll
                (NewAPIGateway acceptAll "users-api" (Some usersApi) [])
                []).2.
  assert (H : exec acceptAll
                (NewAPIGateway acceptAll "users-api" (Some usersApi) []) [] =
              (Ok _, (exec acceptAll
                        (NewAPIGateway acceptAll "users-api" (Some usersApi)
                           []) []).2))
    by (apply run_eq; vm_compute; reflexivity).
  destruct (equal_paths_share_a_leaf _ _ _ _ _ _ _ H)
    as (memo & before & wired & after & _ & _ & _ & _ & Hsize & Hleaf & _).
  destruct (Hleaf getUsers) as (leaf & authorizerId & Hl & _); [by left|].
  exists memo, leaf. split_and!; [exact H|exact Hsize|exact Hl].
Defined.

(** ** Counting by kind *)

Lemma filter_layout (P : Registration → Prop) `{∀ r, Decision (P r)}
    name config opts base blocks :
  filter P (layout name config opts base blocks) =
  filter P [componentReg name opts; restApiReg name config (Local base)] ++
  filter P (authorizerRegs name config (Local base) (Local (S base))) ++
  filter P (concat blocks) ++
  filter P [deploymentReg name config (Local base) (Local (S base));
            stageReg name config (Local base) (Local (S base))
              (Local (deploymentAt config base blocks))] ++
  filter P (features name config base blocks).
Proof.
  assert (layout name config opts base blocks =
          [componentReg name opts; restApiReg name config (Local base)] ++
          authorizerRegs name config (Local base) (Local (S base)) ++
          concat blocks ++
          [deploymentReg name config (Local base) (Local (S base));
           stageReg name config (Local base) (Local (S base))
             (Local (deploymentAt config base blocks))] ++
          features name config base blocks) as -> by reflexivity.
  by rewrite !filter_app.
Qed.

Lemma filter_kind_none (k : Kind) (ks : list Kind) (l : list Registration) :
  k ∉ ks → Forall (λ r, kind r ∈ ks) l → filter (λ r, kind r = k) l = [].
Proof.
  intros Hk Hl. apply filter_none.
  eapply Forall_impl; [exact Hl|]. intros r Hr Hkind. apply Hk.
  by rewrite <- Hkind.
Qed.

Lemma not_elem_of_kinds (k : Kind) (ks : list Kind) :
  Forall (λ k', k ≠ k') ks → k ∉ ks.
Proof.
  intros Hks Hin. rewrite Forall_forall in Hks. by apply (Hks k).
Qed.

Lemma EndpointBlock_length ctx name config comp restAPI authorizer endpoint
    block leaf :
  EndpointBlock ctx name config comp restAPI authorizer endpoint block leaf →
  length block =
    length (filter (λ r, kind r = KResource) block) +
    (if EnableCORS config then 5 else 3).
Proof.
  intros (created & method & lambdaFunc & _ & Hcreated & ->).
  rewrite filter_app, !length_app, (filter_all _ created) by done.
  rewrite (filter_none _ (_ ++ _)).
  - destruct (EnableCORS config); cbn [length app]; lia.
  - destruct (EnableCORS config); by repeat constructor.
Qed.

Lemma blocks_length ctx name config comp restAPI authorizer endpoints blocks :
  Forall2 (λ endpoint block,
             ∃ leaf, EndpointBlock ctx name config comp restAPI authorizer
                       endpoint block leaf) endpoints blocks →
  length (concat blocks) =
    length (filter (λ r, kind r = KResource) (concat blocks)) +
    length endpoints * (if EnableCORS config then 5 else 3).
Proof.
  induction 1 as [|endpoint block endpoints blocks [leaf Hblock] _ IH];
    [done|].
  cbn [concat length]. rewrite filter_app, !length_app, IH.
  rewrite (EndpointBlock_length _ _ _ _ _ _ _ _ _ Hblock). lia.
Qed.

Lemma blocks_weaken ctx name config comp restAPI authorizer memo endpoints
    blocks :
  Forall2 (λ endpoint block,
             ∃ leaf,
               leafIn memo restAPI (Endpoint.Path endpoint) = Some leaf ∧
               EndpointBlock ctx name config comp restAPI authorizer endpoint
                 block leaf) endpoints blocks →
  Forall2 (λ endpoint block,
             ∃ leaf, EndpointBlock ctx name config comp restAPI authorizer
                       endpoint block leaf) endpoints blocks.
Proof.
  intros Hblocks. eapply Forall2_impl; [exact Hblocks|].
  intros endpoint block (leaf & _ & Hblock). by exists leaf.
Qed.

(** X3: a composition that completes has declared four resources of its own
    (component, REST API, deployment, stage), the authorizer if one is
    configured, one resource per entry of the path memo, three declarations
    per endpoint (five with CORS), three for the key and its plan if
    required, and two for the custom domain if configured. *)
Theorem declaration_count ctx name config opts log gw log' :
  exec ctx (NewAPIGateway ctx name (Some config) opts) log = (Ok gw, log') →
  length log' =
    length log + 4 +
    length (option_list (AuthorizerFunc config)) +
    length (filter (λ r, kind r = KResource) (drop (length log) log')) +
    length (Endpoints config) * (if EnableCORS config then 5 else 3) +
    (if keyed config then 3 else 0) +
    2 * length (option_list (CustomDomain config)).
Proof.
  intros Hexec.
  apply NewAPIGateway_exec_tree in Hexec
    as (blocks & memo & -> & Hblocks & _ & Hkeys & _).
  apply blocks_weaken in Hblocks.
  rewrite drop_app_length, length_app.
  rewrite (filter_resources_layout _ _ _ _ _ _ _ Hblocks).
  unfold layout. cbn [length]. rewrite !length_app. cbn [length].
  rewrite length_app, Hkeys, length_authorizerRegs.
  rewrite (blocks_length _ _ _ _ _ _ _ _ Hblocks).
  unfold domainRegs.
  generalize (length (Endpoints config) *
              (if EnableCORS config then 5 else 3)).
  intros wired.
  destruct (CustomDomain config), (keyed config); simpl; lia.
Qed.

Lemma declaration_count_witness :
  ∃ gw log',
    exec acceptAll (NewAPIGateway acceptAll "users-api" (Some usersApiKeyed) [])
      [] = (Ok gw, log') ∧
    length log' = 20.
Proof.
  eexists _, (exec acceptAll
                (NewAPIGateway acceptAll "users-api" (Some usersApiKeyed) [])
                []).2.
  assert (H : exec acceptAll
                (NewAPIGateway acceptAll "users-api" (Some usersApiKeyed) [])
                [] =
              (Ok _, (exec acceptAll
                        (NewAPIGateway acceptAll "users-api"
                           (Some usersApiKeyed) []) []).2))
    by (apply run_eq; vm_compute; reflexivity).
  split; [exact H|].
  rewrite (declaration_count _ _ _ _ _ _ _ H). by vm_compute.
Defined.

(** ** The authorizer *)

Lemma endpoint_method_declared ctx name config opts log gw log' endpoint :
  exec ctx (NewAPIGateway ctx name (Some config) opts) log = (Ok gw, log') →
  endpoint ∈ Endpoints config →
  ∃ leaf,
    methodReg name (Local (length log)) (Local (S (length log)))
      (authorizerAt config (S (S (length log)))) endpoint leaf ∈ log'.
Proof.
  intros Hexec Hin.
  apply NewAPIGateway_exec_ok in Hexec as (_ & blocks & -> & Hblocks).
  apply list_elem_of_lookup in Hin as [i Hi].
  destruct (Forall2_lookup_l _ _ _ _ _ Hblocks Hi)
    as (block & Hblock & leaf & HB).
  exists leaf. apply elem_of_app. right.
  eapply block_in_layout; [by eapply list_elem_of_lookup_2|].
  by eapply method_in_block.
Qed.

(** X4: a composition that completes declares one authorizer, right after
    the REST API, when an authorizer function is configured, and none
    otherwise, whether or not any endpoint asks for it.  An endpoint's method
    names the authorizer exactly when there is one and the endpoint's
    authorization is [CUSTOM]; with any other authorization, or without an
    authorizer function, the method is declared without one. *)
Theorem authorizer_binds_custom_methods ctx name config opts log gw log' :
  exec ctx (NewAPIGateway ctx name (Some config) opts) log = (Ok gw, log') →
  let comp := Local (length log) in
  let restAPI := Local (S (length log)) in
  filter (λ r, kind r = KAuthorizer) (drop (length log) log') =
    authorizerRegs name config comp restAPI ∧
  (∀ authorizerFunc,
     AuthorizerFunc config = Some authorizerFunc →
     log' !! S (S (length log)) =
       Some (authorizerReg name comp restAPI authorizerFunc)) ∧
  ∀ endpoint,
    endpoint ∈ Endpoints config →
    ∃ leaf,
      {| reg_name := stem name endpoint;
         reg_args :=
           MethodArgs (PropOf restAPI "id") leaf (Endpoint.Method endpoint)
             (Endpoint.Authorization endpoint)
             (Endpoint.ApiKeyRequired endpoint)
             (if bool_decide (is_Some (AuthorizerFunc config) ∧
                              Endpoint.Authorization endpoint = "CUSTOM")
              then Some (PropOf (Local (S (S (length log)))) "id")
              else None)
             (Endpoint.RequestParameters endpoint);
         reg_opts := [Parent comp] |} ∈ log'.
Proof.
  intros Hexec comp restAPI. split_and!.
  - apply NewAPIGateway_exec_ok in Hexec as (_ & blocks & -> & Hblocks).
    rewrite drop_app_length, filter_layout.
    rewrite (filter_all _ (authorizerRegs _ _ _ _))
      by apply authorizerRegs_kinds.
    rewrite (filter_kind_none _ wiringKinds (concat blocks));
      [|by apply not_elem_of_kinds; repeat constructor
       |by eapply blocks_kinds].
    rewrite (filter_kind_none _ [KApiKey; KUsagePlan; KUsagePlanKey;
                                 KDomainName; KBasePathMapping]
               (features _ _ _ _));
      [|by apply not_elem_of_kinds; repeat constructor
       |apply features_kinds].
    by rewrite app_nil_r.
  - intros authorizerFunc Hfunc.
    apply NewAPIGateway_exec_ok in Hexec as (_ & blocks & -> & _).
    rewrite lookup_app_r by lia.
    replace (S (S (length log)) - length log) with 2 by lia.
    unfold layout, authorizerRegs. by rewrite Hfunc.
  - intros endpoint Hin.
    destruct (endpoint_method_declared _ _ _ _ _ _ _ _ Hexec Hin)
      as [leaf Hleaf].
    exists leaf. revert Hleaf. unfold methodReg, authorizerAt, parentOpts.
    destruct (AuthorizerFunc config) as [authorizerFunc|].
    + destruct (decide (Endpoint.Authorization endpoint = "CUSTOM")).
      * by rewrite bool_decide_eq_true_2 by (by split).
      * by rewrite bool_decide_eq_false_2 by (by intros [_ ?]).
    + by rewrite bool_decide_eq_false_2 by (by intros [[??] _]).
Qed.

Lemma authorizer_binds_custom_methods_witness :
  ∃ gw log' leaf,
    exec acceptAll (NewAPIGateway acceptAll "users-api" (Some guardedApi) [])
      [] = (Ok gw, log') ∧
    kind <$> log' !! 2 = Some KAuthorizer ∧
    {| reg_name := "users-api-POST-/users";
       reg_args :=
         MethodArgs (PropOf (Local 1) "id") leaf "POST" "CUSTOM" true
           (Some (PropOf (Local 2) "id"))
           (Some {[ "method.request.header.Content-Type" := true ]});
       reg_opts := [Parent (Local 0)] |} ∈ log'.
Proof.
  eexists _, (exec acceptAll
                (NewAPIGateway acceptAll "users-api" (Some guardedApi) [])
                []).2.
  assert (H : exec acceptAll
                (NewAPIGateway acceptAll "users-api" (Some guardedApi) []) []
              = (Ok _, (exec acceptAll
                          (NewAPIGateway acceptAll "users-api"
                             (Some guardedApi) []) []).2))
    by (apply run_eq; vm_compute; reflexivity).
  destruct (authorizer_binds_custom_methods _ _ _ _ _ _ _ H)
    as (_ & _ & Hmethod).
  destruct (Hmethod (withAuthorization "CUSTOM" createUser)) as [leaf Hleaf].
  { right. by left. }
  exists leaf. split_and!; [exact H|by vm_compute|exact Hleaf].
Defined.

(** ** The custom domain and the exported URLs *)

(** X5: a composition that completes declares a custom domain and its base
    path mapping exactly when a custom domain is configured; they are the
    last two declarations, the mapping binds the domain to the composition's
    stage, and the component exports the domain and its URL.  Without a
    custom domain none of the two is declared and none is exported. *)
Theorem custom_domain_is_mapped_to_the_stage ctx name config opts log gw log' :
  exec ctx (NewAPIGateway ctx name (Some config) opts) log = (Ok gw, log') →
  let comp := Local (length log) in
  let restAPI := Component.RestAPI gw in
  match CustomDomain config with
  | Some domain =>
      ∃ h,
        length log' = S (S h) ∧
        log' !! h = Some (domainNameReg name config comp domain) ∧
        log' !! S h =
          Some (basePathMappingReg name comp restAPI (Component.Stage gw)
                  (Local h)) ∧
        reg_args (basePathMappingReg name comp restAPI (Component.Stage gw)
                    (Local h)) =
          BasePathMappingArgs (PropOf restAPI "id")
            (PropOf (Component.Stage gw) "stageName")
            (PropOf (Local h) "domainName") ∧
        Component.CustomDomain gw = Some (Local h) ∧
        Component.CustomDomainURL gw =
          Some (Sprintf "https://%s" [PropOf (Local h) "domainName"])
  | None =>
      filter (λ r, kind r ∈ [KDomainName; KBasePathMapping])
        (drop (length log) log') = [] ∧
      Component.CustomDomain gw = None ∧
      Component.CustomDomainURL gw = None
  end.
Proof.
  intros Hexec comp restAPI.
  apply NewAPIGateway_exec_tree in Hexec
    as (blocks & memo & -> & Hblocks & _ & Hkeys & ->).
  apply blocks_weaken in Hblocks.
  subst restAPI. unfold exported.
  cbn [Component.RestAPI Component.Stage Component.CustomDomain
       Component.CustomDomainURL].
  set (d := deploymentAt config (length log) blocks) in *.
  pose proof (lookup_features name config opts log blocks) as Hfeat.
  pose proof (length_wiring name config opts log blocks) as Hwiring.
  pose proof (layout_split name config opts log blocks) as Hsplit.
  unfold features in *. fold d in Hfeat, Hwiring, Hsplit. cbn zeta in *.
  rewrite Hkeys in *.
  set (keys := keyRegs _ _ _ _ _ _) in *.
  unfold domainRegs in *.
  destruct (CustomDomain config) as [domain|] eqn:Hdomain.
  - exists (S (S d) + (if keyed config then 3 else 0)).
    split_and!; try done.
    + rewrite Hsplit, length_app, Hwiring. cbn [length].
      rewrite length_app, Hkeys. cbn [length]. lia.
    + rewrite Hfeat, lookup_app_r by lia.
      by rewrite Hkeys, Nat.sub_diag.
    + replace (S (S (S d) + (if keyed config then 3 else 0)))
        with (S (S d) + S (if keyed config then 3 else 0)) by lia.
      rewrite Hfeat, lookup_app_r by lia.
      rewrite Hkeys.
      by replace (S (if keyed config then 3 else 0) -
                  (if keyed config then 3 else 0)) with 1 by lia.
  - split_and!; [|done..].
    rewrite drop_app_length, filter_layout.
    assert (Hno : ∀ ks l,
               Forall (λ k, k ∉ [KDomainName; KBasePathMapping]) ks →
               Forall (λ r, kind r ∈ ks) l →
               filter (λ r, kind r ∈ [KDomainName; KBasePathMapping]) l = []).
    { intros ks l Hks Hl. apply filter_none.
      eapply Forall_impl; [exact Hl|]. intros r Hr.
      rewrite Forall_forall in Hks. by apply Hks. }
    assert (Hne : ∀ k, k ≠ KDomainName → k ≠ KBasePathMapping →
                       k ∉ [KDomainName; KBasePathMapping]).
    { intros k H1 H2 Hin.
      apply elem_of_cons in Hin as [?|Hin]; [done|].
      apply elem_of_cons in Hin as [?|Hin]; [done|].
      by apply elem_of_nil in Hin. }
    rewrite (Hno [KAuthorizer] (authorizerRegs _ _ _ _));
      [|repeat constructor; by apply Hne|].
    2:{ eapply Forall_impl; [apply authorizerRegs_kinds|].
        intros r ->. by repeat constructor. }
    rewrite (Hno wiringKinds (concat blocks));
      [|repeat constructor; by apply Hne|by eapply blocks_kinds].
    unfold features, domainRegs. rewrite Hdomain. cbv zeta.
    rewrite app_nil_r.
    rewrite (Hno keyKinds (keyRegs _ _ _ _ _ _));
      [|repeat constructor; by apply Hne|].
    2:{ unfold keyRegs.
        destruct (ApiKeyRequired config);
          [|destruct (UsagePlanLimit config); constructor].
        destruct (UsagePlanLimit config) as [limit|]; [|constructor].
        destruct (Quota limit); [|by repeat constructor].
        destruct (Throttle limit); by repeat constructor. }
    done.
Qed.

Lemma custom_domain_is_mapped_to_the_stage_witness :
  ∃ gw log',
    exec acceptAll (NewAPIGateway acceptAll "users-api" (Some usersApi) []) []
      = (Ok gw, log') ∧
    Component.CustomDomain gw = Some (Local 15) ∧
    reg_name <$> log' !! 16 = Some "users-api-domain-mapping".
Proof.
  eexists _, (exec acceptAll
                (NewAPIGateway acceptAll "users-api" (Some usersApi) [])
                []).2.
  assert (H : exec acceptAll
                (NewAPIGateway acceptAll "users-api" (Some usersApi) []) [] =
              (Ok _, (exec acceptAll
                        (NewAPIGateway acceptAll "users-api" (Some usersApi)
                           []) []).2))
    by (apply run_eq; vm_compute; reflexivity).
  pose proof (custom_domain_is_mapped_to_the_stage _ _ _ _ _ _ _ H) as Hdom.
  change (CustomDomain usersApi) with
    (Some {| DomainName := "api.example.com";
             CertificateArn :=
               "arn:aws:acm:us-east-1:123456789012:certificate/abc123";
             Route53ZoneId := "" |}) in Hdom.
  destruct Hdom as (h & _ & _ & Hmapping & _).
  split_and!; [exact H|reflexivity|by vm_compute].
Defined.

(** X6: the Route 53 zone of the custom domain is never read: a
    configuration and the same configuration with another zone give the same
    program, hence the same declarations and the same result against every
    provider.  No DNS record is ever declared. *)
Theorem route53_zone_is_ignored ctx name config opts zone :
  NewAPIGateway ctx name (Some (withZone zone config)) opts =
  NewAPIGateway ctx name (Some config) opts.
Proof.
  unfold NewAPIGateway, compose, keyAndPlan, customDomain, withZone.
  cbn [Name Description StageName EnableCORS AuthorizerFunc ApiKeyRequired
       UsagePlanLimit CustomDomain Endpoints Tags Environment].
  by destruct (CustomDomain config).
Qed.

(** ** Nil pointers *)

Lemma NewAPIGateway_ok_nilFree ctx name config opts base gw :
  outcome (NewAPIGateway ctx name (Some config) opts) base = Ok gw →
  nilFree config.
Proof.
  intros Hout.
  apply NewAPIGateway_trace_ok in Hout
    as (blocks & _ & Hblocks & _ & _ & _ & Hkeys).
  split.
  - clear Hkeys. induction Hblocks as [|endpoint block endpoints blocks
                                         (leaf & created & method & f & Hf & _)
                                         _ IH]; constructor; [|done].
    by rewrite Hf.
  - intros Hreq limit Hlimit. unfold keyed in Hkeys.
    rewrite Hreq, Hlimit, bool_decide_eq_true_2 in Hkeys by done.
    destruct Hkeys as (_ & _ & limit' & quota & throttle & [= <-] & -> & -> & _).
    by split.
Qed.

(** X7: the constructor completes only on configurations without nil
    pointers (every endpoint has a handler; a required key's usage plan has
    both its quota and its throttle), and with a provider that refuses
    nothing it completes on all of them and panics on every other
    configuration.  On a nil configuration it panics once the component is
    registered. *)
Theorem completes_iff_nil_free ctx name config opts log :
  (∀ gw log',
     exec ctx (NewAPIGateway ctx name (Some config) opts) log = (Ok gw, log') →
     nilFree config) ∧
  ((∀ r, provider ctx r = None) →
   (nilFree config →
    ∃ gw log',
      exec ctx (NewAPIGateway ctx name (Some config) opts) log =
      (Ok gw, log')) ∧
   (¬ nilFree config →
    ∃ why,
      (exec ctx (NewAPIGateway ctx name (Some config) opts) log).1 =
      Panicked why) ∧
   exec ctx (NewAPIGateway ctx name None opts) log =
     (Panicked "invalid memory address or nil pointer dereference",
      log ++ [componentReg name opts])).
Proof.
  split.
  - intros gw log' Hexec.
    apply exec_ok in Hexec as [Hout _]; [|apply FailFast_NewAPIGateway].
    by eapply NewAPIGateway_ok_nilFree.
  - intros Hacc. split_and!.
    + intros Hnil. rewrite exec_accepting by done.
      destruct (NewAPIGateway_total ctx name config opts (length log) Hnil)
        as [gw Hgw].
      rewrite Hgw. by eexists _, _.
    + intros Hnil. rewrite exec_accepting by done. cbn [fst].
      destruct (outcome (NewAPIGateway ctx name (Some config) opts)
                  (length log)) as [gw|e|why] eqn:Hout.
      * destruct Hnil. by eapply NewAPIGateway_ok_nilFree.
      * by apply FailFast_outcome in Hout; [|apply FailFast_NewAPIGateway].
      * by exists why.
    + by rewrite exec_accepting by done.
Qed.

Lemma completes_iff_nil_free_witness :
  (∀ r, provider acceptAll r = None) ∧
  ¬ nilFree unhandled ∧
  (exec acceptAll (NewAPIGateway acceptAll "users-api" (Some unhandled) [])
     []).1 =
  Panicked "invalid memory address or nil pointer dereference".
Proof.
  assert (Hacc : ∀ r, provider acceptAll r = None) by done.
  assert (Hnil : ¬ nilFree unhandled).
  { intros [Hfuncs _]. apply Forall_cons in Hfuncs as [_ Hfuncs].
    apply Forall_cons in Hfuncs as [[f Hf] _]. discriminate Hf. }
  destruct (completes_iff_nil_free acceptAll "users-api" unhandled [] [])
    as (_ & Hpanic).
  destruct (Hpanic Hacc) as (_ & Hwhy & _).
  destruct (Hwhy Hnil) as [why Heq].
  split_and!; [exact Hacc|exact Hnil|by vm_compute].
Defined.

(** * The bucket, the distribution and the function *)

(** ** Runs of straight-line constructors *)

Section BuildFacts.
Context {Args S : Type}.
Implicit Types provider : Build.Declaration Args → option string.

Lemma declare_ok d what provider (s : S) log h s' log' :
  Build.declare d what provider s log = (Ok h, (s', log')) →
  provider d = None ∧ h = Local (length log) ∧ s' = s ∧ log' = log ++ [d].
Proof.
  unfold Build.declare. destruct (provider d); [done|]. by intros [= <- <- <-].
Qed.

Lemma bind_ok {A B} (m : Build.Build Args S A) (f : A → Build.Build Args S B)
    provider s log b s' log' :
  (m ≫= f) provider s log = (Ok b, (s', log')) →
  ∃ a s1 log1,
    m provider s log = (Ok a, (s1, log1)) ∧
    f a provider s1 log1 = (Ok b, (s', log')).
Proof.
  unfold mbind, Build_bind, Build.bind.
  destruct (m provider s log) as [[a| |] [s1 log1]]; [|done..].
  intros H. by exists a, s1, log1.
Qed.
End BuildFacts.

(** The merged tags, key by key: the configuration's tag if it has one,
    else the default. *)
Lemma componentTags_lookup environment overrides k :
  componentTags environment overrides !! k =
  match overrides !! k with
  | Some v => Some v
  | None =>
      if decide (k = "Environment") then Some environment
      else if decide (k = "ManagedBy") then Some "Pulumi"
      else None
  end.
Proof.
  unfold componentTags. rewrite mergeInto_union, lookup_union.
  destruct (overrides !! k) as [v|]; [by rewrite union_Some_l|].
  rewrite left_id by apply _.
  destruct (decide (k = "Environment")) as [->|Hk].
  { by rewrite lookup_insert_eq. }
  rewrite lookup_insert_ne by done.
  destruct (decide (k = "ManagedBy")) as [->|Hm].
  { by rewrite lookup_insert_eq. }
  by rewrite lookup_insert_ne.
Qed.

(** ** The bucket *)

(** X8: a completed run of [NewSecureBucket] has declared the component and
    one bucket under it, and nothing else.  Whatever the configuration says,
    the bucket is encrypted with AES256, versioned, and has the four public
    access blocks on; its tags are the configuration's, with [Environment]
    and [ManagedBy] filled in where the configuration has none.  The
    configuration is left as it was. *)
Theorem secure_bucket_is_locked_down name opts provider config log sb st log' :
  S3.NewSecureBucket name opts provider (Some config) log
    = (Ok sb, (st, log')) →
  ∃ tags,
    log' = log ++
      [ {| Build.decl_name := name;
           Build.decl_args := S3.ComponentArgs "custom:aws:SecureBucket";
           Build.decl_opts := opts |};
        {| Build.decl_name := name;
           Build.decl_args :=
             S3.BucketArgs (S3.BucketName config) tags "AES256" true
               true true true true;
           Build.decl_opts := [Parent (Local (length log))] |} ] ∧
    (∀ k, tags !! k =
          match S3.Tags config !! k with
          | Some v => Some v
          | None =>
              if decide (k = "Environment") then Some (S3.Environment config)
              else if decide (k = "ManagedBy") then Some "Pulumi"
              else None
          end) ∧
    S3.Bucket sb = Local (S (length log)) ∧
    S3.BucketArn sb = PropOf (Local (S (length log))) "arn" ∧
    st = Some config.
Proof.
  unfold S3.NewSecureBucket. intros Hrun.
  apply bind_ok in Hrun as (comp & s1 & log1 & Hcomp & Hrun).
  apply declare_ok in Hcomp as (_ & -> & -> & ->).
  apply bind_ok in Hrun as (c & s2 & log2 & [= <- <- <-] & Hrun).
  apply bind_ok in Hrun as (bucket & s3 & log3 & Hbucket & [= <- <- <-]).
  apply declare_ok in Hbucket as (_ & -> & -> & ->).
  exists (componentTags (S3.Environment config) (S3.Tags config)).
  rewrite length_app, Nat.add_1_r, <- app_assoc. cbn [S3.Bucket S3.BucketArn].
  split_and!; try done. apply componentTags_lookup.
Qed.

Lemma secure_bucket_is_locked_down_witness :
  ∃ sb st log' tags,
    S3.NewSecureBucket "my-secure-bucket" [] S3.accepting
      (Some S3.myCompanyBucket) [] = (Ok sb, (st, log')) ∧
    log' !! 1 =
      Some {| Build.decl_name := "my-secure-bucket";
              Build.decl_args :=
                S3.BucketArgs "my-company-bucket" tags "AES256" true
                  true true true true;
              Build.decl_opts := [Parent (Local 0)] |} ∧
    tags !! "Team" = Some "Platform" ∧ tags !! "Environment" = Some "dev".
Proof.
  destruct (S3.NewSecureBucket "my-secure-bucket" [] S3.accepting
              (Some S3.myCompanyBucket) []) as [res [st log']] eqn:Hrun.
  assert (Hres : ∃ sb, res = Ok sb).
  { apply (f_equal fst) in Hrun. vm_compute in Hrun. by eexists. }
  destruct Hres as [sb ->].
  destruct (secure_bucket_is_locked_down _ _ _ _ _ _ _ _ Hrun)
    as (tags & -> & Htags & _).
  eexists sb, st, _, tags. split_and!; [reflexivity|done|..].
  - by rewrite Htags.
  - by rewrite Htags.
Defined.

(** X9: a run of [NewSecureBucket] that does not complete has declared no
    bucket, and has left the configuration alone.  It is one of three: the
    provider refused the component, and nothing was declared; the
    configuration is nil, and the constructor panicked with the component
    registered; or the provider refused the bucket, with the component
    registered.  The two errors carry the provider's error behind the name
    of the step. *)
Theorem secure_bucket_failure_leaves_no_bucket name opts provider config log
    res st log' :
  S3.NewSecureBucket name opts provider config log = (res, (st, log')) →
  (∀ sb, res ≠ Ok sb) →
  let component :=
    {| Build.decl_name := name;
       Build.decl_args := S3.ComponentArgs "custom:aws:SecureBucket";
       Build.decl_opts := opts |} in
  st = config ∧
  ((∃ err,
      provider component = Some err ∧
      res = Error ("failed to register component: " +:+ err) ∧
      log' = log) ∨
   (provider component = None ∧ config = None ∧
    res = Panicked "invalid memory address or nil pointer dereference" ∧
    log' = log ++ [component]) ∨
   (∃ c bucket err,
      provider component = None ∧ config = Some c ∧
      (∃ tags,
         bucket =
           {| Build.decl_name := name;
              Build.decl_args :=
                S3.BucketArgs (S3.BucketName c) tags "AES256" true
                  true true true true;
              Build.decl_opts := [Parent (Local (length log))] |}) ∧
      provider bucket = Some err ∧
      res = Error ("failed to create bucket: " +:+ err) ∧
      log' = log ++ [component])).
Proof.
  intros Hrun Hfail component.
  unfold S3.NewSecureBucket, mbind, Build_bind, Build.bind, Build.declare,
    Build.deref, mret, Build_ret, Build.ret in Hrun.
  change (S3.componentDecl name opts) with component in Hrun.
  destruct (provider component) as [err|] eqn:Hcomp.
  { injection Hrun as <- <- <-. split; [done|]. left. by exists err. }
  destruct config as [c|].
  2:{ injection Hrun as <- <- <-. split; [done|]. right. by left. }
  destruct (provider (S3.bucketDecl name c (Local (length log))))
    as [err|] eqn:Hbucket.
  2:{ injection Hrun as <- _ _. by destruct (Hfail _ eq_refl). }
  injection Hrun as <- <- <-. split; [done|]. right. right.
  exists c, (S3.bucketDecl name c (Local (length log))), err.
  split_and!; try done. by eexists.
Qed.

Lemma secure_bucket_failure_leaves_no_bucket_witness :
  ∃ st log',
    S3.NewSecureBucket "my-secure-bucket" [] S3.nameTaken
      (Some S3.myCompanyBucket) [] =
      (Error "failed to create bucket: BucketAlreadyExists", (st, log')) ∧
    st = Some S3.myCompanyBucket ∧ length log' = 1.
Proof.
  eexists _, _.
  assert (H : S3.NewSecureBucket "my-secure-bucket" [] S3.nameTaken
                (Some S3.myCompanyBucket) [] =
              (Error "failed to create bucket: BucketAlreadyExists", (_, _)))
    by (vm_compute; reflexivity).
  destruct (secure_bucket_failure_leaves_no_bucket _ _ _ _ _ _ _ _ H)
    as [Hst _]; [done|].
  split_and!; [exact H|exact Hst|reflexivity].
Defined.

(** ** The distribution *)

Lemma cloudfront_withDefaults_idem config :
  CloudFront.withDefaults (CloudFront.withDefaults config) =
  CloudFront.withDefaults config.
Proof.
  unfold CloudFront.withDefaults. cbn.
  repeat case_decide; try done; f_equal; congruence.
Qed.

(** The run of [NewCloudFrontDistribution], by the provider's answers. *)
Lemma NewCloudFrontDistribution_run name opts provider config log :
  CloudFront.NewCloudFrontDistribution name opts provider (Some config) log =
  match provider (CloudFront.componentDecl name opts) with
  | Some err =>
      (Error ("failed to register component: " +:+ err), (Some config, log))
  | None =>
      let config' := CloudFront.withDefaults config in
      let d :=
        CloudFront.distributionDecl name config'
          (componentTags (CloudFront.Environment config)
             (CloudFront.Tags config)) (Local (length log)) in
      match provider d with
      | Some err =>
          (Error ("failed to create distribution: " +:+ err),
           (Some config', log ++ [CloudFront.componentDecl name opts]))
      | None =>
          (Ok {| CloudFront.Distribution := Local (S (length log));
                 CloudFront.DistributionDomainName :=
                   PropOf (Local (S (length log))) "domainName";
                 CloudFront.DistributionID :=
                   PropOf (Local (S (length log))) "id";
                 CloudFront.DistributionArn :=
                   PropOf (Local (S (length log))) "arn" |},
           (Some config',
            log ++ [CloudFront.componentDecl name opts; d]))
      end
  end.
Proof.
  unfold CloudFront.NewCloudFrontDistribution, mbind, Build_bind, Build.bind,
    Build.declare, Build.deref, Build.assign, mret, Build_ret, Build.ret.
  destruct (provider (CloudFront.componentDecl name opts)); [done|].
  cbn zeta.
  destruct (provider _); [done|].
  by rewrite length_app, Nat.add_1_r, <- app_assoc.
Qed.

(** X10: a run of [NewCloudFrontDistribution] that completes has declared
    the component and one distribution under it, and nothing else: no
    certificate, whatever the aliases and the certificate ARN are.  A zero
    [DefaultTTL] or [MaxTTL] and an empty [PriceClass],
    [ViewerProtocolPolicy] or [OriginProtocolPolicy] are replaced by their
    defaults; every other field goes to the distribution as it is, [MinTTL],
    [Enabled] and [IPV6Enabled] included.  The one origin is declared without
    an id, and the default cache behaviour targets the origin [primary]. *)
Theorem distribution_is_declared_with_defaults name opts provider config log
    cdn st log' :
  CloudFront.NewCloudFrontDistribution name opts provider (Some config) log
    = (Ok cdn, (st, log')) →
  let comp := Local (length log) in
  let distribution := Local (S (length log)) in
  ∃ tags,
    log' = log ++
      [ {| Build.decl_name := name;
           Build.decl_args :=
             CloudFront.ComponentArgs "custom:aws:CloudFrontDistribution";
           Build.decl_opts := opts |};
        {| Build.decl_name := name;
           Build.decl_args :=
             CloudFront.DistributionArgs
               (CloudFront.Enabled config) (CloudFront.IPV6Enabled config)
               (if decide (CloudFront.PriceClass config = "")
                then "PriceClass_100" else CloudFront.PriceClass config)
               (CloudFront.Aliases config) tags
               (CloudFront.WAFWebACLID config)
               [ {| CloudFront.originId := None;
                    CloudFront.originDomainName :=
                      CloudFront.OriginDomain config;
                    CloudFront.originPath := CloudFront.OriginPath config;
                    CloudFront.originProtocolPolicy :=
                      if decide (CloudFront.OriginProtocolPolicy config = "")
                      then "https-only"
                      else CloudFront.OriginProtocolPolicy config;
                    CloudFront.httpPort := 80;
                    CloudFront.httpsPort := 443;
                    CloudFront.originSslProtocols := ["TLSv1.2"] |} ]
               {| CloudFront.targetOriginId := "primary";
                  CloudFront.viewerProtocolPolicy :=
                    if decide (CloudFront.ViewerProtocolPolicy config = "")
                    then "redirect-to-https"
                    else CloudFront.ViewerProtocolPolicy config;
                  CloudFront.allowedMethods := ["GET"; "HEAD"; "OPTIONS"];
                  CloudFront.cachedMethods := ["GET"; "HEAD"];
                  CloudFront.queryString := true;
                  CloudFront.cookiesForward := "none";
                  CloudFront.minTTL := CloudFront.MinTTL config;
                  CloudFront.defaultTTL :=
                    if decide (CloudFront.DefaultTTL config = 0%Z)
                    then 86400%Z else CloudFront.DefaultTTL config;
                  CloudFront.maxTTL :=
                    if decide (CloudFront.MaxTTL config = 0%Z)
                    then 31536000%Z else CloudFront.MaxTTL config;
                  CloudFront.compress := true |}
               "none"
               {| CloudFront.acmCertificateArn :=
                    CloudFront.CertificateArn config;
                  CloudFront.minimumProtocolVersion := "TLSv1.2_2021";
                  CloudFront.sslSupportMethod := "sni-only" |};
           Build.decl_opts := [Parent comp] |} ] ∧
    (∀ k, tags !! k =
          match CloudFront.Tags config !! k with
          | Some v => Some v
          | None =>
              if decide (k = "Environment")
              then Some (CloudFront.Environment config)
              else if decide (k = "ManagedBy") then Some "Pulumi"
              else None
          end) ∧
    CloudFront.Distribution cdn = distribution ∧
    CloudFront.DistributionDomainName cdn = PropOf distribution "domainName" ∧
    CloudFront.DistributionID cdn = PropOf distribution "id" ∧
    CloudFront.DistributionArn cdn = PropOf distribution "arn".
Proof.
  rewrite NewCloudFrontDistribution_run. intros Hrun comp distribution.
  destruct (provider (CloudFront.componentDecl name opts)); [done|].
  cbn zeta in Hrun. destruct (provider _); [done|].
  injection Hrun as <- _ <-.
  exists (componentTags (CloudFront.Environment config)
            (CloudFront.Tags config)).
  split_and!; try done. apply componentTags_lookup.
Qed.

Lemma distribution_is_declared_with_defaults_witness :
  ∃ cdn st log' enabled ipv6 tags origins behavior,
    CloudFront.NewCloudFrontDistribution "my-cdn" [] CloudFront.accepting
      (Some CloudFront.myCdn) [] = (Ok cdn, (st, log')) ∧
    Build.decl_args <$> log' !! 1 =
      Some (CloudFront.DistributionArgs enabled ipv6 "PriceClass_100"
              ["my-app.example.com"] tags "" origins behavior "none"
              {| CloudFront.acmCertificateArn := "";
                 CloudFront.minimumProtocolVersion := "TLSv1.2_2021";
                 CloudFront.sslSupportMethod := "sni-only" |}) ∧
    enabled = false ∧ ipv6 = false ∧
    CloudFront.defaultTTL behavior = 86400%Z ∧ length log' = 2.
Proof.
  destruct (CloudFront.NewCloudFrontDistribution "my-cdn" []
              CloudFront.accepting (Some CloudFront.myCdn) [])
    as [res [st log']] eqn:Hrun.
  assert (Hres : ∃ cdn, res = Ok cdn).
  { apply (f_equal fst) in Hrun. vm_compute in Hrun. by eexists. }
  destruct Hres as [cdn ->].
  destruct (distribution_is_declared_with_defaults _ _ _ _ _ _ _ _ Hrun)
    as (tags & -> & _).
  eexists cdn, st, _, _, _, tags, _, _.
  split_and!; [reflexivity|reflexivity|done..].
Defined.

(** X11: [NewCloudFrontDistribution] writes the defaults into the caller's
    configuration.  Once the component is registered, the configuration
    holds the defaults in place of a zero [DefaultTTL] or [MaxTTL] and of an
    empty [PriceClass], [ViewerProtocolPolicy] or [OriginProtocolPolicy],
    with every other field as it was, whether or not the distribution is
    then accepted; a refused component leaves it untouched.  The
    configuration so updated is stable: no further run changes it. *)
Theorem distribution_defaults_are_written_back name opts provider config log
    res st log' :
  CloudFront.NewCloudFrontDistribution name opts provider (Some config) log
    = (res, (st, log')) →
  let component :=
    {| Build.decl_name := name;
       Build.decl_args :=
         CloudFront.ComponentArgs "custom:aws:CloudFrontDistribution";
       Build.decl_opts := opts |} in
  (provider component ≠ None → st = Some config ∧ log' = log) ∧
  (provider component = None →
   ∃ config',
     st = Some config' ∧
     CloudFront.DefaultTTL config' =
       (if decide (CloudFront.DefaultTTL config = 0%Z) then 86400%Z
        else CloudFront.DefaultTTL config) ∧
     CloudFront.MaxTTL config' =
       (if decide (CloudFront.MaxTTL config = 0%Z) then 31536000%Z
        else CloudFront.MaxTTL config) ∧
     CloudFront.PriceClass config' =
       (if decide (CloudFront.PriceClass config = "") then "PriceClass_100"
        else CloudFront.PriceClass config) ∧
     CloudFront.ViewerProtocolPolicy config' =
       (if decide (CloudFront.ViewerProtocolPolicy config = "")
        then "redirect-to-https" else CloudFront.ViewerProtocolPolicy config) ∧
     CloudFront.OriginProtocolPolicy config' =
       (if decide (CloudFront.OriginProtocolPolicy config = "")
        then "https-only" else CloudFront.OriginProtocolPolicy config) ∧
     CloudFront.DomainName config' = CloudFront.DomainName config ∧
     CloudFront.Aliases config' = CloudFront.Aliases config ∧
     CloudFront.CertificateArn config' = CloudFront.CertificateArn config ∧
     CloudFront.OriginDomain config' = CloudFront.OriginDomain config ∧
     CloudFront.OriginPath config' = CloudFront.OriginPath config ∧
     CloudFront.MinTTL config' = CloudFront.MinTTL config ∧
     CloudFront.WAFWebACLID config' = CloudFront.WAFWebACLID config ∧
     CloudFront.Enabled config' = CloudFront.Enabled config ∧
     CloudFront.IPV6Enabled config' = CloudFront.IPV6Enabled config ∧
     CloudFront.Tags config' = CloudFront.Tags config ∧
     CloudFront.Environment config' = CloudFront.Environment config ∧
     ∀ name2 opts2 provider2 log2,
       (CloudFront.NewCloudFrontDistribution name2 opts2 provider2
          (Some config') log2).2.1 = Some config').
Proof.
  rewrite NewCloudFrontDistribution_run. intros Hrun component.
  change (CloudFront.componentDecl name opts) with component in Hrun.
  cbn zeta in Hrun. split.
  - intros Hrefused.
    destruct (provider component); [|done]. by injection Hrun as _ <- <-.
  - intros Haccepted. rewrite Haccepted in Hrun.
    exists (CloudFront.withDefaults config).
    split.
    { destruct (provider _); by injection Hrun as _ <- _. }
    split_and!; try done.
    intros name2 opts2 provider2 log2.
    rewrite NewCloudFrontDistribution_run. cbn zeta.
    rewrite cloudfront_withDefaults_idem.
    destruct (provider2 _); [done|]. by destruct (provider2 _).
Qed.

Lemma distribution_defaults_are_written_back_witness :
  ∃ st log',
    CloudFront.NewCloudFrontDistribution "my-cdn" []
      CloudFront.noDistribution (Some CloudFront.myCdn) [] =
      (Error "failed to create distribution: access denied", (st, log')) ∧
    CloudFront.DefaultTTL <$> st = Some 86400%Z ∧
    CloudFront.OriginProtocolPolicy <$> st = Some "https-only".
Proof.
  destruct (CloudFront.NewCloudFrontDistribution "my-cdn" []
              CloudFront.noDistribution (Some CloudFront.myCdn) [])
    as [res [st log']] eqn:Hrun.
  assert (Hres : res = Error "failed to create distribution: access denied").
  { apply (f_equal fst) in Hrun. by vm_compute in Hrun. }
  subst res.
  destruct (distribution_defaults_are_written_back _ _ _ _ _ _ _ _ Hrun)
    as [_ Hback].
  destruct Hback as (config' & -> & Hd & _ & _ & _ & Ho & _); [done|].
  exists (Some config'), log'.
  split_and!; [reflexivity|cbn; by rewrite Hd|cbn; by rewrite Ho].
Defined.

(** ** The function *)

(** [NewLambdaFunction] declares the component and then submits the children
    in order, with the defaults in the configuration. *)
Lemma NewLambdaFunction_run name opts provider config log :
  Lambda.NewLambdaFunction name opts provider (Some config) log =
  match provider (Lambda.componentDecl name opts) with
  | Some err =>
      (Error ("failed to register component: " +:+ err), (Some config, log))
  | None =>
      let config' := Lambda.withDefaults config in
      let tags :=
        componentTags (Lambda.Environment config) (Lambda.Tags config) in
      match Build.submit provider
              (Lambda.children name config' tags (length log))
              (log ++ [Lambda.componentDecl name opts]) with
      | (Some e, log') => (Error e, (Some config', log'))
      | (None, log') =>
          (Ok (Lambda.built config' (length log)), (Some config', log'))
      end
  end.
Proof.
  unfold Lambda.NewLambdaFunction, Lambda.children, Lambda.built,
    Lambda.aliasAt, Lambda.functionAt, Lambda.attachments, Lambda.alarms.
  unfold mbind, Build_bind, Build.bind, Build.declare, Build.deref,
    Build.assign, mret, Build_ret, Build.ret.
  destruct (provider (Lambda.componentDecl name opts)); [done|].
  cbn zeta.
  generalize (componentTags (Lambda.Environment config) (Lambda.Tags config)).
  intros tags.
  change (Lambda.EnableXRay (Lambda.withDefaults config))
    with (Lambda.EnableXRay config).
  change (Lambda.VpcConfig (Lambda.withDefaults config))
    with (Lambda.VpcConfig config).
  change (Lambda.AlertConfig (Lambda.withDefaults config))
    with (Lambda.AlertConfig config).
  generalize (Lambda.withDefaults config). intros config'.
  rewrite !length_app. cbn [length]. rewrite !Nat.add_1_r.
  destruct (Lambda.EnableXRay config), (Lambda.VpcConfig config),
    (Lambda.AlertConfig config); cbn [app length Nat.add Build.submit];
    repeat (rewrite ?length_app; cbn [length]; rewrite ?Nat.add_1_r;
            match goal with
            | |- context [provider ?d] =>
                destruct (provider d) eqn:?; [done|]
            end);
    rewrite ?length_app; cbn [length]; rewrite ?Nat.add_1_r;
    rewrite <- ?app_assoc; reflexivity.
Qed.

Section Submit.
Context {Args : Type}.
Implicit Types provider : Build.Declaration Args → option string.

Lemma submit_ok provider steps (log log' : list (Build.Declaration Args)) :
  Build.submit provider steps log = (None, log') →
  log' = log ++ steps.*1 ∧ Forall (λ d, provider d = None) steps.*1.
Proof.
  revert log. induction steps as [|[d what] steps IH]; intros log; simpl.
  { intros [= <-]. by rewrite app_nil_r. }
  destruct (provider d) eqn:Hd; [done|].
  intros Hrun. apply IH in Hrun as [-> Hall].
  rewrite <- app_assoc. split; [done|]. by constructor.
Qed.

Lemma submit_refused provider steps (log log' : list (Build.Declaration Args))
    e :
  Build.submit provider steps log = (Some e, log') →
  ∃ n d what err,
    steps !! n = Some (d, what) ∧ provider d = Some err ∧
    e = what +:+ ": " +:+ err ∧
    log' = log ++ take n steps.*1 ∧
    Forall (λ d, provider d = None) (take n steps.*1).
Proof.
  revert log. induction steps as [|[d what] steps IH]; intros log; simpl;
    [done|].
  destruct (provider d) as [err|] eqn:Hd.
  - intros [= <- <-]. exists 0, d, what, err.
    rewrite app_nil_r. by split_and!.
  - intros Hrun.
    apply IH in Hrun as (n & d' & what' & err & Hn & Hd' & -> & -> & Hall).
    exists (S n), d', what', err. rewrite <- app_assoc.
    split_and!; try done. simpl. by constructor.
Qed.
End Submit.

(** A completed run has declared the component and all the children. *)
Lemma NewLambdaFunction_ok name opts provider config log fn st log' :
  Lambda.NewLambdaFunction name opts provider (Some config) log
    = (Ok fn, (st, log')) →
  log' =
    log ++
    Lambda.componentDecl name opts ::
    (Lambda.children name (Lambda.withDefaults config)
       (componentTags (Lambda.Environment config) (Lambda.Tags config))
       (length log)).*1 ∧
  fn = Lambda.built (Lambda.withDefaults config) (length log) ∧
  st = Some (Lambda.withDefaults config).
Proof.
  rewrite NewLambdaFunction_run.
  destruct (provider (Lambda.componentDecl name opts)); [done|].
  cbn zeta. destruct (Build.submit _ _ _) as [[e|] l] eqn:Hsubmit; [done|].
  intros [= <- <- <-]. apply submit_ok in Hsubmit as [-> _].
  by rewrite <- app_assoc.
Qed.

(** X12: a run of [NewLambdaFunction] that completes has declared, in this
    order, the component, the role, the basic execution policy, the X-Ray
    policy if [EnableXRay] is set, the VPC policy if a VPC configuration is
    given, the function, the log group, the two alarms if alerts are
    configured, and the alias; every one but the component is a child of the
    component.  The component exports the role, the function, the log group
    and the alias that were declared. *)
Theorem function_resources_in_order name opts provider config log fn st log' :
  Lambda.NewLambdaFunction name opts provider (Some config) log
    = (Ok fn, (st, log')) →
  let comp := Local (length log) in
  let xray :=
    if Lambda.EnableXRay config then [name +:+ "-xray"] else [] in
  let vpc :=
    match Lambda.VpcConfig config with
    | Some _ => [name +:+ "-vpc"]
    | None => []
    end in
  let alarms :=
    match Lambda.AlertConfig config with
    | Some _ => [name +:+ "-errors"; name +:+ "-duration"]
    | None => []
    end in
  let function := 3 + length xray + length vpc + length log in
  ∃ children,
    log' =
      log ++
      {| Build.decl_name := name;
         Build.decl_args := Lambda.ComponentArgs "custom:aws:LambdaFunction";
         Build.decl_opts := opts |} :: children ∧
    Build.decl_name <$> children =
      [name +:+ "-role"; name +:+ "-basic"] ++ xray ++ vpc ++
      [name; name +:+ "-logs"] ++ alarms ++ [name +:+ "-prod"] ∧
    Forall (λ d, Build.decl_opts d = [Parent comp]) children ∧
    Lambda.Role fn = Local (S (length log)) ∧
    Lambda.Function fn = Local function ∧
    Lambda.FunctionName fn = Lambda.Property (Local function) "name" ∧
    Lambda.FunctionArn fn = Lambda.Property (Local function) "arn" ∧
    Lambda.LogGroupName fn = Lambda.Property (Local (S function)) "name" ∧
    Lambda.Alias fn = Local (2 + length alarms + function) ∧
    length log' = 3 + length alarms + function.
Proof.
  intros Hrun comp xray vpc alarms function.
  apply NewLambdaFunction_ok in Hrun as (-> & -> & _).
  eexists. split; [reflexivity|].
  subst xray vpc alarms function.
  unfold Lambda.children, Lambda.attachments, Lambda.alarms, Lambda.built,
    Lambda.aliasAt, Lambda.functionAt, Lambda.attachments, Lambda.alarms.
  change (Lambda.EnableXRay (Lambda.withDefaults config))
    with (Lambda.EnableXRay config).
  change (Lambda.VpcConfig (Lambda.withDefaults config))
    with (Lambda.VpcConfig config).
  change (Lambda.AlertConfig (Lambda.withDefaults config))
    with (Lambda.AlertConfig config).
  rewrite length_app. cbn [length].
  destruct (Lambda.EnableXRay config), (Lambda.VpcConfig config),
    (Lambda.AlertConfig config); cbn;
    (split_and!; [done|by repeat constructor|try done..]);
    rewrite length_app; cbn [length]; lia.
Qed.

Lemma function_resources_in_order_witness :
  ∃ fn st log',
    Lambda.NewLambdaFunction "my-function" [] Lambda.accepting
      (Some Lambda.myFunction) [] = (Ok fn, (st, log')) ∧
    Build.decl_name <$> log' =
      ["my-function"; "my-function-role"; "my-function-basic";
       "my-function-xray"; "my-function"; "my-function-logs";
       "my-function-errors"; "my-function-duration"; "my-function-prod"] ∧
    Lambda.Function fn = Local 4 ∧ Lambda.Alias fn = Local 8.
Proof.
  destruct (Lambda.NewLambdaFunction "my-function" [] Lambda.accepting
              (Some Lambda.myFunction) []) as [res [st log']] eqn:Hrun.
  assert (Hres : ∃ fn, res = Ok fn).
  { apply (f_equal fst) in Hrun. vm_compute in Hrun. by eexists. }
  destruct Hres as [fn ->].
  destruct (function_resources_in_order _ _ _ _ _ _ _ _ Hrun)
    as (children & -> & Hnames & _ & _ & Hfn & _ & _ & _ & Halias & _).
  exists fn, st. eexists. split_and!; [reflexivity| |exact Hfn|exact Halias].
  cbn [fmap list_fmap app]. rewrite Hnames. reflexivity.
Defined.

(** The merged tags of the function, key by key, and what the constructor
    puts in the place of a zero. *)
Lemma function_tags_lookup config k :
  componentTags (Lambda.Environment config) (Lambda.Tags config) !! k =
  match Lambda.Tags config !! k with
  | Some v => Some v
  | None =>
      if decide (k = "Environment") then Some (Lambda.Environment config)
      else if decide (k = "ManagedBy") then Some "Pulumi"
      else None
  end.
Proof. apply componentTags_lookup. Qed.

Lemma lookup_after {A} (l1 l2 : list A) k :
  (l1 ++ l2) !! (k + length l1) = l2 !! k.
Proof. rewrite lookup_app_r by lia. f_equal. lia. Qed.

Ltac lambda_flags config :=
  unfold Lambda.children, Lambda.attachments, Lambda.alarms, Lambda.built,
    Lambda.aliasAt, Lambda.functionAt, Lambda.attachments, Lambda.alarms;
  change (Lambda.EnableXRay (Lambda.withDefaults config))
    with (Lambda.EnableXRay config);
  change (Lambda.VpcConfig (Lambda.withDefaults config))
    with (Lambda.VpcConfig config);
  change (Lambda.AlertConfig (Lambda.withDefaults config))
    with (Lambda.AlertConfig config).

(** X13: a run of [NewLambdaFunction] that completes has declared one role,
    which the Lambda service may assume, and attached to it by name the
    basic execution policy, then the X-Ray write policy exactly when
    [EnableXRay] is set, then the VPC access policy exactly when a VPC
    configuration is given, and no other policy. *)
Theorem function_role_and_policies name opts provider config log fn st log' :
  Lambda.NewLambdaFunction name opts provider (Some config) log
    = (Ok fn, (st, log')) →
  let comp := Local (length log) in
  let role := Local (S (length log)) in
  let q := String "034" "" in
  let nl := String "010" "" in
  let policy :=
    "{" +:+ nl +:+
    "        " +:+ q +:+ "Version" +:+ q +:+ ": " +:+ q +:+ "2012-10-17" +:+ q
      +:+ "," +:+ nl +:+
    "        " +:+ q +:+ "Statement" +:+ q +:+ ": [{" +:+ nl +:+
    "            " +:+ q +:+ "Action" +:+ q +:+ ": " +:+ q +:+
      "sts:AssumeRole" +:+ q +:+ "," +:+ nl +:+
    "            " +:+ q +:+ "Principal" +:+ q +:+ ": {" +:+ nl +:+
    "                " +:+ q +:+ "Service" +:+ q +:+ ": " +:+ q +:+
      "lambda.amazonaws.com" +:+ q +:+ nl +:+
    "            }," +:+ nl +:+
    "            " +:+ q +:+ "Effect" +:+ q +:+ ": " +:+ q +:+ "Allow" +:+ q
      +:+ nl +:+
    "        }]" +:+ nl +:+
    "    }" in
  ∃ tags,
    omap (λ d, match Build.decl_args d with
               | Lambda.RoleArgs assumeRolePolicy tags' =>
                   Some (Build.decl_name d, assumeRolePolicy, tags',
                         Build.decl_opts d)
               | _ => None
               end) (drop (length log) log') =
      [(name +:+ "-role", policy, tags, [Parent comp])] ∧
    log' !! S (length log) =
      Some {| Build.decl_name := name +:+ "-role";
              Build.decl_args := Lambda.RoleArgs policy tags;
              Build.decl_opts := [Parent comp] |} ∧
    Lambda.Role fn = role ∧
    (∀ k, tags !! k =
          match Lambda.Tags config !! k with
          | Some v => Some v
          | None =>
              if decide (k = "Environment")
              then Some (Lambda.Environment config)
              else if decide (k = "ManagedBy") then Some "Pulumi"
              else None
          end) ∧
    omap (λ d, match Build.decl_args d with
               | Lambda.RolePolicyAttachmentArgs attachedTo policyArn =>
                   Some (Build.decl_name d, attachedTo, policyArn,
                         Build.decl_opts d)
               | _ => None
               end) (drop (length log) log') =
      [(name +:+ "-basic", Lambda.Property role "name",
        "arn:aws:iam::aws:policy/service-role/AWSLambdaBasicExecutionRole",
        [Parent comp])] ++
      (if Lambda.EnableXRay config
       then [(name +:+ "-xray", Lambda.Property role "name",
              "arn:aws:iam::aws:policy/AWSXRayDaemonWriteAccess",
              [Parent comp])]
       else []) ++
      (match Lambda.VpcConfig config with
       | Some _ =>
           [(name +:+ "-vpc", Lambda.Property role "name",
             "arn:aws:iam::aws:policy/service-role/AWSLambdaVPCAccessExecutionRole",
             [Parent comp])]
       | None => []
       end).
Proof.
  intros Hrun comp role q nl policy.
  apply NewLambdaFunction_ok in Hrun as (-> & -> & _).
  exists (componentTags (Lambda.Environment config) (Lambda.Tags config)).
  rewrite drop_app_length.
  rewrite lookup_app_r by lia.
  replace (S (length log) - length log) with 1 by lia.
  lambda_flags config.
  split_and!; [| | |apply function_tags_lookup|];
    destruct (Lambda.EnableXRay config), (Lambda.VpcConfig config),
      (Lambda.AlertConfig config); reflexivity.
Qed.

Lemma function_role_and_policies_witness :
  ∃ fn st log',
    Lambda.NewLambdaFunction "my-function" [] Lambda.accepting
      (Some Lambda.untraced) [] = (Ok fn, (st, log')) ∧
    omap (λ d, match Build.decl_args d with
               | Lambda.RolePolicyAttachmentArgs attachedTo policyArn =>
                   Some (Build.decl_name d, attachedTo, policyArn,
                         Build.decl_opts d)
               | _ => None
               end) (drop 0 log') =
      [("my-function-basic", Lambda.Property (Local 1) "name",
        "arn:aws:iam::aws:policy/service-role/AWSLambdaBasicExecutionRole",
        [Parent (Local 0)])] ∧
    Lambda.Role fn = Local 1.
Proof.
  destruct (Lambda.NewLambdaFunction "my-function" [] Lambda.accepting
              (Some Lambda.untraced) []) as [res [st log']] eqn:Hrun.
  assert (Hres : ∃ fn, res = Ok fn).
  { apply (f_equal fst) in Hrun. vm_compute in Hrun. by eexists. }
  destruct Hres as [fn ->].
  destruct (function_role_and_policies _ _ _ _ _ _ _ _ Hrun)
    as (tags & _ & _ & Hrole & _ & Hpolicies).
  exists fn, st, log'. split_and!; [reflexivity|exact Hpolicies|exact Hrole].
Defined.

(** X14: a run of [NewLambdaFunction] that completes has declared one
    function, under the name of the component and with the declared role.
    A zero [MemorySize] or [Timeout] is replaced by 128 and 3; runtime,
    handler, code, description, variables, VPC configuration and layers go
    to the function as they are.  Tracing is [Active] whatever [EnableXRay]
    says: with [EnableXRay] unset the function still traces, and no X-Ray
    write policy is attached to its role. *)
Theorem function_is_declared_with_defaults name opts provider config log fn
    st log' :
  Lambda.NewLambdaFunction name opts provider (Some config) log
    = (Ok fn, (st, log')) →
  let comp := Local (length log) in
  let role := Local (S (length log)) in
  ∃ function tags,
    Lambda.Function fn = Local function ∧
    log' !! function =
      Some {| Build.decl_name := name;
              Build.decl_args :=
                Lambda.FunctionArgs (Lambda.Property role "arn")
                  (Lambda.Runtime config) (Lambda.Handler config)
                  (Lambda.Code config) (Lambda.Description config)
                  (if decide (Lambda.MemorySize config = 0%Z) then 128%Z
                   else Lambda.MemorySize config)
                  (if decide (Lambda.Timeout config = 0%Z) then 3%Z
                   else Lambda.Timeout config)
                  (Lambda.Variables config) (Lambda.VpcConfig config)
                  (Lambda.LayerARNs config) "Active" tags;
              Build.decl_opts := [Parent comp] |} ∧
    (∀ k, tags !! k =
          match Lambda.Tags config !! k with
          | Some v => Some v
          | None =>
              if decide (k = "Environment")
              then Some (Lambda.Environment config)
              else if decide (k = "ManagedBy") then Some "Pulumi"
              else None
          end) ∧
    omap (λ d, match Build.decl_args d with
               | Lambda.FunctionArgs _ _ _ _ _ _ _ _ _ _ _ _ =>
                   Some (Build.decl_name d)
               | _ => None
               end) (drop (length log) log') = [name] ∧
    (Lambda.EnableXRay config = false →
     Forall (λ d, ∀ attachedTo,
               Build.decl_args d ≠
               Lambda.RolePolicyAttachmentArgs attachedTo
                 "arn:aws:iam::aws:policy/AWSXRayDaemonWriteAccess")
       (drop (length log) log')).
Proof.
  intros Hrun comp role.
  apply NewLambdaFunction_ok in Hrun as (-> & -> & _).
  exists (2 + length (Lambda.attachments "" (Lambda.withDefaults config)
                       (Local (length log)) (Local (S (length log)))) +
          length log),
    (componentTags (Lambda.Environment config) (Lambda.Tags config)).
  rewrite drop_app_length, lookup_after.
  lambda_flags config.
  split_and!; [|  |apply function_tags_lookup| |].
  - cbn. f_equal. lia.
  - destruct (Lambda.EnableXRay config) eqn:Hx,
      (Lambda.VpcConfig config) eqn:Hv; cbn;
      unfold Lambda.functionDecl, Lambda.child; cbn; by rewrite Hv.
  - destruct (Lambda.EnableXRay config), (Lambda.VpcConfig config),
      (Lambda.AlertConfig config); reflexivity.
  - intros ->.
    destruct (Lambda.VpcConfig config), (Lambda.AlertConfig config);
      repeat constructor; done.
Qed.

Lemma function_is_declared_with_defaults_witness :
  ∃ fn st log' tags,
    Lambda.NewLambdaFunction "my-function" [] Lambda.accepting
      (Some Lambda.untraced) [] = (Ok fn, (st, log')) ∧
    Lambda.EnableXRay Lambda.untraced = false ∧
    log' !! 3 =
      Some {| Build.decl_name := "my-function";
              Build.decl_args :=
                Lambda.FunctionArgs (Lambda.Property (Local 1) "arn")
                  "nodejs18.x" "index.handler"
                  (Some {| Lambda.archive_addr := 0xc000020000 |})
                  "My awesome Lambda function" 256%Z 30%Z
                  {[ "STAGE" := "production" ]} None [] "Active" tags;
              Build.decl_opts := [Parent (Local 0)] |}.
Proof.
  destruct (Lambda.NewLambdaFunction "my-function" [] Lambda.accepting
              (Some Lambda.untraced) []) as [res [st log']] eqn:Hrun.
  assert (Hres : ∃ fn, res = Ok fn).
  { apply (f_equal fst) in Hrun. vm_compute in Hrun. by eexists. }
  destruct Hres as [fn ->].
  destruct (function_is_declared_with_defaults _ _ _ _ _ _ _ _ Hrun)
    as (function & tags & Hfn & Hdecl & _).
  assert (Hat : function = 3).
  { apply (f_equal fst) in Hrun. vm_compute in Hrun.
    injection Hrun as <-. by injection Hfn as <-. }
  subst function.
  exists fn, st, log', tags. split_and!; [reflexivity|reflexivity|exact Hdecl].
Defined.

(** X15: a run of [NewLambdaFunction] that completes has declared, right
    after the function, a log group whose name is [/aws/lambda/] followed by
    the name the provider gives the function, kept for [LogRetentionDays]
    days, or for 14 if that is zero; then, exactly when alerts are
    configured, an alarm on the sum of [Errors] above [ErrorThreshold] and an
    alarm on the average [Duration] above [DurationThreshold], both over 300
    seconds on that function and both notifying [NotificationARN]; and last
    the alias [prod] of the function's [$LATEST] version. *)
Theorem function_logs_alarms_and_alias name opts provider config log fn st
    log' :
  Lambda.NewLambdaFunction name opts provider (Some config) log
    = (Ok fn, (st, log')) →
  let comp := Local (length log) in
  ∃ function tags,
    Lambda.Function fn = Local function ∧
    length log < function ∧
    (∀ k, tags !! k =
          match Lambda.Tags config !! k with
          | Some v => Some v
          | None =>
              if decide (k = "Environment")
              then Some (Lambda.Environment config)
              else if decide (k = "ManagedBy") then Some "Pulumi"
              else None
          end) ∧
    let alarm suffix metric statistic threshold description alert :=
      {| Build.decl_name := name +:+ suffix;
         Build.decl_args :=
           Lambda.MetricAlarmArgs "GreaterThanThreshold" 1 metric
             "AWS/Lambda" 300 statistic threshold
             ("Lambda function " +:+ name +:+ description)
             [Alert.NotificationARN alert]
             {[ "FunctionName" := Lambda.Property (Local function) "name" ]}
             tags;
         Build.decl_opts := [Parent comp] |} in
    drop (S function) log' =
      {| Build.decl_name := name +:+ "-logs";
         Build.decl_args :=
           Lambda.LogGroupArgs
             (Lambda.ApplyT (Lambda.Property (Local function) "name")
                (λ name, "/aws/lambda/" +:+ name))
             (if decide (Lambda.LogRetentionDays config = 0%Z) then 14%Z
              else Lambda.LogRetentionDays config) tags;
         Build.decl_opts := [Parent comp] |} ::
      match Lambda.AlertConfig config with
      | Some alert =>
          [alarm "-errors" "Errors" "Sum" (Alert.ErrorThreshold alert)
             " error count" alert;
           alarm "-duration" "Duration" "Average"
             (Alert.DurationThreshold alert) " duration" alert]
      | None => []
      end ++
      [{| Build.decl_name := name +:+ "-prod";
          Build.decl_args :=
            Lambda.AliasArgs "prod" (Lambda.Property (Local function) "name")
              "$LATEST";
          Build.decl_opts := [Parent comp] |}] ∧
    Lambda.LogGroupName fn = Lambda.Property (Local (S function)) "name" ∧
    ∀ settled,
      Lambda.resolved settled
        (Lambda.ApplyT (Lambda.Property (Local function) "name")
           (λ name, "/aws/lambda/" +:+ name)) =
      "/aws/lambda/" +:+ settled (Lambda.Function fn) "name".
Proof.
  intros Hrun comp.
  apply NewLambdaFunction_ok in Hrun as (-> & -> & _).
  exists (2 + length (Lambda.attachments "" (Lambda.withDefaults config)
                       (Local (length log)) (Local (S (length log)))) +
          length log),
    (componentTags (Lambda.Environment config) (Lambda.Tags config)).
  assert (Hdrop : ∀ {A} (l1 l2 : list A) k,
            drop (S (k + length l1)) (l1 ++ l2) = drop (S k) l2).
  { intros A l1 l2 k. rewrite drop_app_ge by lia. f_equal. lia. }
  rewrite Hdrop.
  lambda_flags config.
  split_and!; [| |apply function_tags_lookup| | |].
  - cbn. f_equal. lia.
  - lia.
  - destruct (Lambda.EnableXRay config) eqn:Hx,
      (Lambda.VpcConfig config) eqn:Hv,
      (Lambda.AlertConfig config) eqn:Ha; cbn;
      unfold Lambda.logGroupDecl, Lambda.errorAlarmDecl,
        Lambda.durationAlarmDecl, Lambda.aliasDecl, Lambda.child; cbn;
      repeat (f_equal; try lia).
  - cbn. do 2 f_equal. lia.
  - intros settled. cbn. do 3 f_equal. lia.
Qed.

Lemma function_logs_alarms_and_alias_witness :
  ∃ fn st log',
    Lambda.NewLambdaFunction "my-function" [] Lambda.accepting
      (Some Lambda.myFunction) [] = (Ok fn, (st, log')) ∧
    Lambda.LogGroupName fn = Lambda.Property (Local 5) "name" ∧
    Build.decl_name <$> drop 5 log' =
      ["my-function-logs"; "my-function-errors"; "my-function-duration";
       "my-function-prod"].
Proof.
  destruct (Lambda.NewLambdaFunction "my-function" [] Lambda.accepting
              (Some Lambda.myFunction) []) as [res [st log']] eqn:Hrun.
  assert (Hres : ∃ fn, res = Ok fn).
  { apply (f_equal fst) in Hrun. vm_compute in Hrun. by eexists. }
  destruct Hres as [fn ->].
  destruct (function_logs_alarms_and_alias _ _ _ _ _ _ _ _ Hrun)
    as (function & tags & Hfn & _ & _ & Hdrop & Hlogs & _).
  assert (Hat : function = 4).
  { apply (f_equal fst) in Hrun. vm_compute in Hrun.
    injection Hrun as <-. by injection Hfn as <-. }
  subst function.
  exists fn, st, log'. split_and!; [reflexivity|exact Hlogs|].
  by rewrite Hdrop.
Defined.

(** X16: the throttles threshold of the alert configuration is never read:
    whatever it is, the run returns the same result and declares the same
    resources. *)
Theorem throttles_threshold_is_ignored name opts provider config threshold
    log :
  let run config :=
    Lambda.NewLambdaFunction name opts provider (Some config) log in
  (run (Lambda.withThrottles threshold config)).1 = (run config).1 ∧
  (run (Lambda.withThrottles threshold config)).2.2 = (run config).2.2.
Proof.
  intros run. unfold run. rewrite !NewLambdaFunction_run.
  destruct (provider (Lambda.componentDecl name opts)); [done|].
  cbn zeta.
  assert (Hchildren :
            Lambda.children name
              (Lambda.withDefaults (Lambda.withThrottles threshold config))
              (componentTags
                 (Lambda.Environment (Lambda.withThrottles threshold config))
                 (Lambda.Tags (Lambda.withThrottles threshold config)))
              (length log) =
            Lambda.children name (Lambda.withDefaults config)
              (componentTags (Lambda.Environment config) (Lambda.Tags config))
              (length log)).
  { unfold Lambda.children, Lambda.attachments, Lambda.alarms,
      Lambda.functionAt, Lambda.attachments. cbn.
    by destruct (Lambda.AlertConfig config). }
  assert (Hbuilt :
            Lambda.built
              (Lambda.withDefaults (Lambda.withThrottles threshold config))
              (length log) =
            Lambda.built (Lambda.withDefaults config) (length log)).
  { unfold Lambda.built, Lambda.aliasAt, Lambda.alarms, Lambda.functionAt,
      Lambda.attachments. cbn.
    by destruct (Lambda.AlertConfig config). }
  rewrite Hchildren, Hbuilt.
  by destruct (Build.submit _ _ _) as [[e|] l].
Qed.

Lemma function_withDefaults_idem config :
  Lambda.withDefaults (Lambda.withDefaults config) =
  Lambda.withDefaults config.
Proof.
  unfold Lambda.withDefaults. cbn.
  repeat case_decide; try done; f_equal; congruence.
Qed.

(** X17: [NewLambdaFunction] writes the defaults into the caller's
    configuration.  Once the component is registered, the configuration
    holds 128, 3 and 14 in place of a zero [MemorySize], [Timeout] and
    [LogRetentionDays], with every other field as it was, whether or not the
    run then completes; a refused component leaves it untouched.  The
    configuration so updated is stable: no further run changes it. *)
Theorem function_defaults_are_written_back name opts provider config log res
    st log' :
  Lambda.NewLambdaFunction name opts provider (Some config) log
    = (res, (st, log')) →
  let component :=
    {| Build.decl_name := name;
       Build.decl_args := Lambda.ComponentArgs "custom:aws:LambdaFunction";
       Build.decl_opts := opts |} in
  (provider component ≠ None → st = Some config ∧ log' = log) ∧
  (provider component = None →
   ∃ config',
     st = Some config' ∧
     Lambda.MemorySize config' =
       (if decide (Lambda.MemorySize config = 0%Z) then 128%Z
        else Lambda.MemorySize config) ∧
     Lambda.Timeout config' =
       (if decide (Lambda.Timeout config = 0%Z) then 3%Z
        else Lambda.Timeout config) ∧
     Lambda.LogRetentionDays config' =
       (if decide (Lambda.LogRetentionDays config = 0%Z) then 14%Z
        else Lambda.LogRetentionDays config) ∧
     Lambda.Runtime config' = Lambda.Runtime config ∧
     Lambda.Handler config' = Lambda.Handler config ∧
     Lambda.Code config' = Lambda.Code config ∧
     Lambda.Description config' = Lambda.Description config ∧
     Lambda.Variables config' = Lambda.Variables config ∧
     Lambda.VpcConfig config' = Lambda.VpcConfig config ∧
     Lambda.EnableXRay config' = Lambda.EnableXRay config ∧
     Lambda.LayerARNs config' = Lambda.LayerARNs config ∧
     Lambda.AlertConfig config' = Lambda.AlertConfig config ∧
     Lambda.Tags config' = Lambda.Tags config ∧
     Lambda.Environment config' = Lambda.Environment config ∧
     ∀ name2 opts2 provider2 log2,
       (Lambda.NewLambdaFunction name2 opts2 provider2 (Some config')
          log2).2.1 = Some config').
Proof.
  rewrite NewLambdaFunction_run. intros Hrun component.
  change (Lambda.componentDecl name opts) with component in Hrun.
  cbn zeta in Hrun. split.
  - intros Hrefused.
    destruct (provider component); [|done]. by injection Hrun as _ <- <-.
  - intros Haccepted. rewrite Haccepted in Hrun.
    exists (Lambda.withDefaults config).
    split.
    { destruct (Build.submit _ _ _) as [[e|] l]; by injection Hrun as _ <- _. }
    split_and!; try done. clear Hrun.
    intros name2 opts2 provider2 log2.
    rewrite NewLambdaFunction_run. cbn zeta.
    rewrite function_withDefaults_idem.
    destruct (provider2 _); [done|].
    by destruct (Build.submit _ _ _) as [[e|] l].
Qed.

Lemma function_defaults_are_written_back_witness :
  ∃ st log',
    Lambda.NewLambdaFunction "my-function" [] Lambda.noAlias
      (Some Lambda.myFunction) [] =
      (Error "failed to create alias: alias limit exceeded", (st, log')) ∧
    Lambda.LogRetentionDays <$> st = Some 14%Z ∧
    Lambda.MemorySize <$> st = Some 256%Z.
Proof.
  destruct (Lambda.NewLambdaFunction "my-function" [] Lambda.noAlias
              (Some Lambda.myFunction) []) as [res [st log']] eqn:Hrun.
  assert (Hres : res = Error "failed to create alias: alias limit exceeded").
  { apply (f_equal fst) in Hrun. by vm_compute in Hrun. }
  subst res.
  destruct (function_defaults_are_written_back _ _ _ _ _ _ _ _ Hrun)
    as [_ Hback].
  destruct Hback as (config' & -> & Hm & _ & Hr & _); [done|].
  exists (Some config'), log'.
  split_and!; [reflexivity|cbn; by rewrite Hr|cbn; by rewrite Hm].
Defined.


